(** * typescript-lsp-mcp: the TypeScript language-service wrapper

    A shallow embedding of [src/ts-service.ts] (coordinate mapper, document
    overlay store, project-root resolution, engine resolution, session
    cache) and of the [switch_workspace] tool of [src/index.ts], with the
    properties the specification states about them.

    Conventions of the embedding:
    - a JavaScript [string] is a [string] of code units; only the length of
      a string and the positions of its line feeds are ever observed;
    - a JavaScript [number] used as a line, a column, an offset or a
      version is an integer, modelled in [Z];
    - a [Map] whose iteration order is observed is an insertion-ordered
      association list ([JsMap]), a [Set] an insertion-ordered duplicate
      free list; a [Map] that is only looked up is a [gmap];
    - the module-level caches form one [State] record that is threaded
      through the functions by a small state-and-exception monad;
    - node's [path] and [fs] modules and the TypeScript engine are external:
      they are interfaces ([PathOps], [FsOps], [TypeScriptModule]) over
      which every theorem is universally quantified. *)

From Stdlib Require Import ZArith String Ascii List Lia Bool.
From stdpp Require Import base option list gmap strings pretty.

Local Open Scope string_scope.
Local Open Scope list_scope.
Local Open Scope Z_scope.

(** ** Strings as JavaScript sees them *)

Module Js.

(** The line feed, ["\n"]. *)
Definition LF : ascii := Ascii.ascii_of_nat 10.

(** [s.length] *)
Definition strlen (s : string) : Z := Z.of_nat (String.length s).

(** [s.split("\n")]: never empty, one more piece than there are line
    feeds in [s]. *)
Fixpoint split_lines (s : string) : list string :=
  match s with
  | EmptyString => [EmptyString]
  | String c rest =>
      if Ascii.eqb c LF then EmptyString :: split_lines rest
      else match split_lines rest with
           | l :: ls => String c l :: ls
           | [] => [String c EmptyString]
           end
  end.

(** [s.startsWith(p)] *)
Definition startsWith (s p : string) : bool := String.prefix p s.

(** [s.endsWith(p)] *)
Definition endsWith (s p : string) : bool :=
  let n := String.length s in
  let k := String.length p in
  (k <=? n)%nat && String.eqb (String.substring (n - k) k s) p.

(** [xs.includes(x)] on an array of strings. *)
Definition includes (xs : list string) (x : string) : bool :=
  existsb (String.eqb x) xs.

(** [[...new Set(xs)]]: the first occurrence of every element, in order. *)
Fixpoint dedupe_into (seen xs : list string) : list string :=
  match xs with
  | [] => []
  | x :: rest =>
      if includes seen x then dedupe_into seen rest
      else x :: dedupe_into (x :: seen) rest
  end.

Definition dedupe (xs : list string) : list string := dedupe_into [] xs.

(** [s.substring(a, b)]: both indices are clamped to the string and put in
    order. *)
Definition clamp (len x : Z) : Z := Z.max 0 (Z.min x len).

Definition substring (s : string) (a b : Z) : string :=
  let a' := clamp (strlen s) a in
  let b' := clamp (strlen s) b in
  String.substring (Z.to_nat (Z.min a' b')) (Z.to_nat (Z.max a' b' - Z.min a' b')) s.

(** [s.substring(a)] *)
Definition substringFrom (s : string) (a : Z) : string := substring s a (strlen s).

(** [xs.join] with the empty separator. *)
Definition concat (xs : list string) : string := fold_right String.append EmptyString xs.

End Js.

(** ** Coordinate mapper *)

Record Position := mkPosition { line : Z; column : Z }.

(** The body of the [for] loop of [positionToOffset]: [i] is the loop
    counter, the list what is left of [lines] from index [i] on. *)
Fixpoint positionToOffset_loop (lines : list string) (i ln offset : Z) : Z :=
  match lines with
  | [] => offset
  | l :: rest =>
      if i <? ln - 1
      then positionToOffset_loop rest (i + 1) ln (offset + (Js.strlen l + 1))
      else offset
  end.

Definition positionToOffset (content : string) (ln col : Z) : Z :=
  let lines := Js.split_lines content in
  let offset := positionToOffset_loop lines 0 ln 0 in
  offset + (col - 1).

(** The [for] loop of [offsetToPosition]; [None] when the loop runs to its
    end without returning. *)
Fixpoint offsetToPosition_loop (lines : list string) (i currentOffset offset : Z)
  : option Position :=
  match lines with
  | [] => None
  | l :: rest =>
      let lineLength := Js.strlen l + 1 in
      if currentOffset + lineLength >? offset
      then Some {| line := i + 1; column := offset - currentOffset + 1 |}
      else offsetToPosition_loop rest (i + 1) (currentOffset + lineLength) offset
  end.

Definition offsetToPosition (content : string) (offset : Z) : Position :=
  let lines := Js.split_lines content in
  match offsetToPosition_loop lines 0 0 offset with
  | Some p => p
  | None => {| line := Z.of_nat (length lines); column := 1 |}
  end.

(** A 1-based position lies within the bounds of [content] when its line is
    one of the lines of [content] and its column addresses a character of
    that line or the place just behind its last character. *)
Definition withinBounds (content : string) (ln col : Z) : Prop :=
  exists l, Js.split_lines content !! Z.to_nat (ln - 1) = Some l
            /\ 1 <= ln /\ 1 <= col <= Js.strlen l + 1.

(** What a run of lines contributes to an offset: each line its length and
    one for the line feed. *)
Definition linesSpan (ls : list string) : Z :=
  fold_right (fun l acc => Js.strlen l + 1 + acc) 0 ls.


(** ** Containers with JavaScript's iteration order *)

Module JsMap.

(** A [Map<string, V>] whose keys are iterated: the entries in insertion
    order, one entry per key. *)
Abbreviation t V := (list (string * V)) (only parsing).

Definition empty {V : Type} : t V := [].

(** [m.get(k)] *)
Fixpoint get {V : Type} (m : t V) (k : string) : option V :=
  match m with
  | [] => None
  | (k', v) :: rest => if String.eqb k' k then Some v else get rest k
  end.

(** [m.has(k)] *)
Definition has {V : Type} (m : t V) (k : string) : bool :=
  match get m k with Some _ => true | None => false end.

(** [m.set(k, v)]: an existing key keeps its place, a new one goes last. *)
Fixpoint set {V : Type} (m : t V) (k : string) (v : V) : t V :=
  match m with
  | [] => [(k, v)]
  | (k', v') :: rest =>
      if String.eqb k' k then (k', v) :: rest else (k', v') :: set rest k v
  end.

(** [Array.from(m.keys())] *)
Definition keys {V : Type} (m : t V) : list string := map fst m.

End JsMap.

Module JsSet.

(** A [Set<string>]: its elements in insertion order. *)
Abbreviation t := (list string) (only parsing).

(** [s.add(x)] *)
Definition add (s : t) (x : string) : t :=
  if Js.includes s x then s else s ++ [x].

End JsSet.

(** ** External interfaces *)

(** Node's [path] module, for the process's current directory. Taking the
    directory name shortens a path until the filesystem root (or ["."]) is
    reached, where it changes nothing any more: [depth] measures that. *)
Class PathOps := {
  dirname : string -> string;
  join : string -> string -> string;
  resolve : string -> string;
  depth : string -> nat;
  dirname_depth : forall d, dirname d <> d -> (depth (dirname d) < depth d)%nat
}.

(** [path.join(a, b, c)] *)
Definition join3 `{PathOps} (a b c : string) : string := join (join a b) c.

(** An entry of [fs.readdirSync(dir, { withFileTypes: true })]. *)
Record Dirent := { name : string; isDirectory : bool; isFile : bool }.

(** Node's [fs] module over a disk of type [FS]; [None] is a thrown
    exception. *)
Class FsOps (FS : Type) := {
  existsSync : FS -> string -> bool;
  statSync_isDirectory : FS -> string -> option bool;
  readFileSync : FS -> string -> option string;
  writeFileSync : FS -> string -> string -> option FS;
  readdirSync : FS -> string -> option (list Dirent)
}.

(** A diagnostic of the engine. *)
Record Diagnostic := { messageText : string }.

(** The object [readConfigFile] parses a configuration text into; the
    wrapper only hands it on to the engine. *)
Inductive Json := JsonOf (text : string).

(** [ts.CompilerOptions]: the wrapper reads and extends [types] and treats
    the other settings as given. *)
Inductive OptionValue := OBool (b : bool) | OEnum (member : string).

Record CompilerOptions := {
  types : option (list string);
  settings : list (string * OptionValue)
}.

Record ConfigFileResult := { config : Json; error : option Diagnostic }.

Record ParsedCommandLine := {
  options : CompilerOptions;
  fileNames : list string;
  errors : list Diagnostic
}.

(** The part of the [typescript] module the wrapper calls. The engine reads
    the disk through [ts.sys]. Its functions are total here: an exception
    raised inside the engine is outside the model. *)
Record TypeScriptModule (FS : Type) := {
  version : string;
  readConfigFile : FS -> string -> ConfigFileResult;
  parseJsonConfigFileContent : FS -> Json -> string -> ParsedCommandLine;
  flattenDiagnosticMessageText : Diagnostic -> string
}.
Arguments version {FS} _.
Arguments readConfigFile {FS} _ _ _.
Arguments parseJsonConfigFileContent {FS} _ _ _ _.
Arguments flattenDiagnosticMessageText {FS} _ _.

(** The engines that can be loaded: the one bundled with the server and
    whatever [createRequire(from)("typescript")] finds on the disk, [None]
    when that call throws. *)
Class Engines (FS : Type) := {
  bundledTs : TypeScriptModule FS;
  requireTypeScript : FS -> string -> option (TypeScriptModule FS)
}.

(** ** The module state *)

Inductive TsSource := project | bundled.

(** An entry of [tsModuleCache]. *)
Record TsBinding (FS : Type) := {
  ts : TypeScriptModule FS;
  ts_version : string;
  source : TsSource
}.
Arguments ts {FS} _.
Arguments ts_version {FS} _.
Arguments source {FS} _.

(** An entry of [configCache]. *)
Record ProjectConfig := {
  cfg_options : CompilerOptions;
  cfg_errors : list string;
  cfg_fileNames : list string;
  cfg_declarationFiles : list string;
  cfg_detectedFrameworks : list string;
  cfg_typescriptVersion : string;
  cfg_typescriptSource : TsSource
}.

(** What the closures of a language-service host capture when the host is
    built. The maps the closures read are not captured: they are the
    module's, read when a closure is called. *)
Record LanguageServiceHost := {
  host_projectRoot : string;
  host_rootFiles : list string;
  host_compilerOptions : CompilerOptions
}.

(** A language-service object: [service_id] is its identity, fresh at each
    [createLanguageService]. *)
Record LanguageService (FS : Type) := {
  service_id : nat;
  service_host : LanguageServiceHost;
  service_ts : TypeScriptModule FS
}.
Arguments service_id {FS} _.
Arguments service_host {FS} _.
Arguments service_ts {FS} _.

Record State (FS : Type) := {
  serviceCache : gmap string (LanguageService FS);
  documentVersions : gmap string Z;
  documentContents : JsMap.t string;
  accessedFilesPerProject : gmap string JsSet.t;
  tsModuleCache : gmap string (TsBinding FS);
  configCache : gmap string ProjectConfig;
  activeWorkspace : option string;
  disk : FS;
  nextServiceId : nat
}.
Arguments serviceCache {FS} _.
Arguments documentVersions {FS} _.
Arguments documentContents {FS} _.
Arguments accessedFilesPerProject {FS} _.
Arguments tsModuleCache {FS} _.
Arguments configCache {FS} _.
Arguments activeWorkspace {FS} _.
Arguments disk {FS} _.
Arguments nextServiceId {FS} _.

(** The state of a freshly started server over a disk. *)
Definition initialState {FS : Type} (fs : FS) : State FS :=
  {| serviceCache := ∅; documentVersions := ∅; documentContents := JsMap.empty;
     accessedFilesPerProject := ∅; tsModuleCache := ∅; configCache := ∅;
     activeWorkspace := None; disk := fs; nextServiceId := 0 |}.

(** ** The monad of the module: state and exceptions *)

Inductive Exn := FsError (syscall path : string) | InvalidPath (path : string).

Inductive Result (FS A : Type) :=
| Ok (a : A) (st : State FS)
| Throw (e : Exn) (st : State FS).
Arguments Ok {FS A} _ _.
Arguments Throw {FS A} _ _.

Definition M (FS A : Type) : Type := State FS -> Result FS A.

Definition ret {FS A : Type} (a : A) : M FS A := fun st => Ok a st.

Definition bind {FS A B : Type} (m : M FS A) (k : A -> M FS B) : M FS B :=
  fun st => match m st with
            | Ok a st' => k a st'
            | Throw e st' => Throw e st'
            end.

Definition throw {FS A : Type} (e : Exn) : M FS A := fun st => Throw e st.

Definition gets {FS A : Type} (f : State FS -> A) : M FS A := fun st => Ok (f st) st.

Definition modify {FS : Type} (f : State FS -> State FS) : M FS unit :=
  fun st => Ok tt (f st).

Definition stateOf {FS A : Type} (r : Result FS A) : State FS :=
  match r with Ok _ st => st | Throw _ st => st end.

Notation "'let*' x := m 'in' k" := (bind m (fun x => k))
  (at level 10, x name, m at level 100, k at level 200, only parsing).

(** Field updates of the state. *)
Definition with_serviceCache {FS : Type} (f : gmap string (LanguageService FS) -> gmap string (LanguageService FS))
  (st : State FS) : State FS :=
  {| serviceCache := f (serviceCache st); documentVersions := documentVersions st;
     documentContents := documentContents st;
     accessedFilesPerProject := accessedFilesPerProject st;
     tsModuleCache := tsModuleCache st; configCache := configCache st;
     activeWorkspace := activeWorkspace st; disk := disk st;
     nextServiceId := nextServiceId st |}.

Definition with_documentVersions {FS : Type} (f : gmap string Z -> gmap string Z)
  (st : State FS) : State FS :=
  {| serviceCache := serviceCache st; documentVersions := f (documentVersions st);
     documentContents := documentContents st;
     accessedFilesPerProject := accessedFilesPerProject st;
     tsModuleCache := tsModuleCache st; configCache := configCache st;
     activeWorkspace := activeWorkspace st; disk := disk st;
     nextServiceId := nextServiceId st |}.

Definition with_documentContents {FS : Type} (f : JsMap.t string -> JsMap.t string)
  (st : State FS) : State FS :=
  {| serviceCache := serviceCache st; documentVersions := documentVersions st;
     documentContents := f (documentContents st);
     accessedFilesPerProject := accessedFilesPerProject st;
     tsModuleCache := tsModuleCache st; configCache := configCache st;
     activeWorkspace := activeWorkspace st; disk := disk st;
     nextServiceId := nextServiceId st |}.

Definition with_accessedFilesPerProject {FS : Type}
  (f : gmap string JsSet.t -> gmap string JsSet.t) (st : State FS) : State FS :=
  {| serviceCache := serviceCache st; documentVersions := documentVersions st;
     documentContents := documentContents st;
     accessedFilesPerProject := f (accessedFilesPerProject st);
     tsModuleCache := tsModuleCache st; configCache := configCache st;
     activeWorkspace := activeWorkspace st; disk := disk st;
     nextServiceId := nextServiceId st |}.

Definition with_tsModuleCache {FS : Type}
  (f : gmap string (TsBinding FS) -> gmap string (TsBinding FS)) (st : State FS) : State FS :=
  {| serviceCache := serviceCache st; documentVersions := documentVersions st;
     documentContents := documentContents st;
     accessedFilesPerProject := accessedFilesPerProject st;
     tsModuleCache := f (tsModuleCache st); configCache := configCache st;
     activeWorkspace := activeWorkspace st; disk := disk st;
     nextServiceId := nextServiceId st |}.

Definition with_configCache {FS : Type}
  (f : gmap string ProjectConfig -> gmap string ProjectConfig) (st : State FS) : State FS :=
  {| serviceCache := serviceCache st; documentVersions := documentVersions st;
     documentContents := documentContents st;
     accessedFilesPerProject := accessedFilesPerProject st;
     tsModuleCache := tsModuleCache st; configCache := f (configCache st);
     activeWorkspace := activeWorkspace st; disk := disk st;
     nextServiceId := nextServiceId st |}.

Definition with_activeWorkspace {FS : Type} (w : option string) (st : State FS) : State FS :=
  {| serviceCache := serviceCache st; documentVersions := documentVersions st;
     documentContents := documentContents st;
     accessedFilesPerProject := accessedFilesPerProject st;
     tsModuleCache := tsModuleCache st; configCache := configCache st;
     activeWorkspace := w; disk := disk st;
     nextServiceId := nextServiceId st |}.

Definition with_disk {FS : Type} (fs : FS) (st : State FS) : State FS :=
  {| serviceCache := serviceCache st; documentVersions := documentVersions st;
     documentContents := documentContents st;
     accessedFilesPerProject := accessedFilesPerProject st;
     tsModuleCache := tsModuleCache st; configCache := configCache st;
     activeWorkspace := activeWorkspace st; disk := fs;
     nextServiceId := nextServiceId st |}.

Definition with_nextServiceId {FS : Type} (n : nat) (st : State FS) : State FS :=
  {| serviceCache := serviceCache st; documentVersions := documentVersions st;
     documentContents := documentContents st;
     accessedFilesPerProject := accessedFilesPerProject st;
     tsModuleCache := tsModuleCache st; configCache := configCache st;
     activeWorkspace := activeWorkspace st; disk := disk st;
     nextServiceId := n |}.

(** ** The language-service wrapper *)

(** The options used when a project has no readable [tsconfig.json]. *)
Definition defaultCompilerOptions : CompilerOptions :=
  {| types := None;
     settings := [("target", OEnum "ESNext"); ("module", OEnum "ESNext");
                  ("moduleResolution", OEnum "Bundler");
                  ("esModuleInterop", OBool true); ("strict", OBool true);
                  ("skipLibCheck", OBool true); ("allowJs", OBool true);
                  ("checkJs", OBool true); ("resolveJsonModule", OBool true)] |}.

(** The test of the [filter] in [getScriptFileNames]. *)
Definition isOpenFileOf (projectRoot f : string) : bool :=
  Js.startsWith f projectRoot
  && (Js.endsWith f ".ts" || Js.endsWith f ".tsx" || Js.endsWith f ".js"
      || Js.endsWith f ".jsx").

(** What the walk of [findProjectRoot] ends in. *)
Inductive Walk := Found (dir : string) | ReachedRoot | OutOfFuel.

Section Wrapper.

Context `{PathOps} {FS : Type} `{!FsOps FS} `{!Engines FS}.

(** [registerFile] *)
Definition registerFile (projectRoot filePath : string) : M FS unit :=
  modify (with_accessedFilesPerProject (fun accessed =>
    let accessed1 :=
      match accessed !! projectRoot with
      | Some _ => accessed
      | None => <[projectRoot := []]> accessed
      end in
    match accessed1 !! projectRoot with
    | Some files => <[projectRoot := JsSet.add files filePath]> accessed1
    | None => accessed1
    end)).

(** The [while] loop of [findProjectRoot], started at [dir]. *)
Fixpoint findProjectRoot_loop (fs : FS) (fuel : nat) (dir : string) : Walk :=
  match fuel with
  | O => OutOfFuel
  | S fuel' =>
      if String.eqb dir (dirname dir) then ReachedRoot
      else if existsSync fs (join dir "tsconfig.json") then Found dir
      else if existsSync fs (join dir "package.json") then Found dir
      else findProjectRoot_loop fs fuel' (dirname dir)
  end.

(** [findProjectRoot]. The loop is given more steps than the directory has
    ancestors, so it never runs out of them ([findProjectRoot_loop_fuel]). *)
Definition findProjectRoot (fs : FS) (filePath : string) : string :=
  let dir := dirname filePath in
  match findProjectRoot_loop fs (S (depth dir)) dir with
  | Found d => d
  | ReachedRoot | OutOfFuel => dirname filePath
  end.

(** [getTypeScriptForProject]; the messages written to the console are left
    out. *)
Definition getTypeScriptForProject (projectRoot : string) : M FS (TsBinding FS) :=
  let* cached := gets (fun st => tsModuleCache st !! projectRoot) in
  match cached with
  | Some binding => ret binding
  | None =>
      let* fs := gets disk in
      let localTsPath := join3 projectRoot "node_modules" "typescript" in
      let fallback :=
        let result := {| ts := bundledTs; ts_version := version bundledTs;
                         source := bundled |} in
        let* _ := modify (with_tsModuleCache <[projectRoot := result]>) in
        ret result in
      if existsSync fs localTsPath then
        match requireTypeScript fs (join projectRoot "package.json") with
        | Some localTs =>
            let result := {| ts := localTs; ts_version := version localTs;
                             source := project |} in
            let* _ := modify (with_tsModuleCache <[projectRoot := result]>) in
            ret result
        | None => fallback
        end
      else fallback
  end.

(** The directories [scanDir] does not enter. *)
Definition skippedDirectories : list string :=
  ["node_modules"; "dist"; "build"; ".git"; ".next"; ".nuxt"].

(** [scanDir] of [findDeclarationFiles]; [levels] is [6 - depth], so that
    [levels = 0] is the source's [depth > 5]. *)
Fixpoint scanDir (fs : FS) (levels : nat) (dir : string) : list string :=
  match levels with
  | O => []
  | S levels' =>
      match readdirSync fs dir with
      | None => []
      | Some entries =>
          flat_map (fun entry =>
            let fullPath := join dir (name entry) in
            if isDirectory entry then
              if Js.includes skippedDirectories (name entry) then []
              else scanDir fs levels' fullPath
            else if isFile entry && Js.endsWith (name entry) ".d.ts" then [fullPath]
            else []) entries
      end
  end.

(** [findDeclarationFiles] *)
Definition findDeclarationFiles (fs : FS) (projectRoot : string) : list string :=
  scanDir fs 6 projectRoot.

(** [detectFrameworkTypes] *)
Definition detectFrameworkTypes (fs : FS) (projectRoot : string) : list string :=
  let nodeModulesPath := join projectRoot "node_modules" in
  if negb (existsSync fs nodeModulesPath) then []
  else
    let hasVite := existsSync fs (join projectRoot "vite.config.ts")
                   || existsSync fs (join projectRoot "vite.config.js")
                   || existsSync fs (join projectRoot "vite.config.mts") in
    (if hasVite && existsSync fs (join3 nodeModulesPath "vite" "client.d.ts")
     then ["vite/client"] else [])
    ++ (if existsSync fs (join3 nodeModulesPath "@types" "node") then ["node"] else []).

(** The loop that adds the framework types to [compilerOptions.types]. *)
Definition addFrameworkTypes (compilerOptions : CompilerOptions)
  (frameworkTypes : list string) : CompilerOptions :=
  fold_left (fun opts type =>
    match types opts with
    | Some ts0 =>
        if Js.includes ts0 type then opts
        else {| types := Some (ts0 ++ [type]); settings := settings opts |}
    | None => {| types := Some [type]; settings := settings opts |}
    end) frameworkTypes compilerOptions.

(** The loop that pushes the declaration files missing from [rootFiles]. *)
Definition includeDeclarationFiles (rootFiles projectDtsFiles : list string)
  : list string :=
  fold_left (fun files dtsFile =>
    if Js.includes files dtsFile then files else files ++ [dtsFile])
    projectDtsFiles rootFiles.

(** The framework detection for the status report. *)
Definition detectFrameworks (fs : FS) (projectRoot : string) : list string :=
  (if existsSync fs (join projectRoot "vite.config.ts")
      || existsSync fs (join projectRoot "vite.config.js")
      || existsSync fs (join projectRoot "vite.config.mts")
   then ["vite"] else [])
  ++ (if existsSync fs (join projectRoot "vue.config.js")
         || existsSync fs (join3 projectRoot "src" "App.vue")
         || existsSync fs (join3 projectRoot "node_modules" "vue")
      then ["vue"] else [])
  ++ (if existsSync fs (join (join3 projectRoot "node_modules" "@vitejs") "plugin-vue-jsx")
         || existsSync fs (join (join3 projectRoot "node_modules" "@vue") "babel-plugin-jsx")
      then ["vue-tsx"] else [])
  ++ (if existsSync fs (join projectRoot "next.config.js")
         || existsSync fs (join projectRoot "next.config.ts")
      then ["next"] else [])
  ++ (if existsSync fs (join projectRoot "nuxt.config.ts")
         || existsSync fs (join projectRoot "nuxt.config.js")
      then ["nuxt"] else []).

(** What [getLanguageService] computes from [tsconfig.json] and the
    directory scan before it builds the host: [compilerOptions],
    [rootFiles] and [configErrors]. *)
Definition loadConfig (tsm : TypeScriptModule FS) (fs : FS) (projectRoot : string)
  : CompilerOptions * list string * list string :=
  let configPath := join projectRoot "tsconfig.json" in
  let projectDtsFiles := findDeclarationFiles fs projectRoot in
  if existsSync fs configPath then
    let configFile := readConfigFile tsm fs configPath in
    match error configFile with
    | Some err =>
        (defaultCompilerOptions, [],
         ["Failed to read tsconfig.json: "
          +:+ flattenDiagnosticMessageText tsm err])
    | None =>
        let parsed := parseJsonConfigFileContent tsm fs (config configFile) projectRoot in
        (addFrameworkTypes (options parsed) (detectFrameworkTypes fs projectRoot),
         includeDeclarationFiles (fileNames parsed) projectDtsFiles,
         map (flattenDiagnosticMessageText tsm) (errors parsed))
    end
  else (defaultCompilerOptions, projectDtsFiles, []).

(** [ts.createLanguageService(host, ts.createDocumentRegistry())]: a new
    object. *)
Definition createLanguageService (tsm : TypeScriptModule FS) (host : LanguageServiceHost)
  : M FS (LanguageService FS) :=
  let* id := gets nextServiceId in
  let* _ := modify (with_nextServiceId (S id)) in
  ret {| service_id := id; service_host := host; service_ts := tsm |}.

(** [getLanguageService] *)
Definition getLanguageService (projectRoot : string) : M FS (LanguageService FS) :=
  let* cached := gets (fun st => serviceCache st !! projectRoot) in
  match cached with
  | Some service => ret service
  | None =>
      let* binding := getTypeScriptForProject projectRoot in
      let* fs := gets disk in
      let '(compilerOptions, rootFiles, configErrors) :=
        loadConfig (ts binding) fs projectRoot in
      let* _ := modify (with_configCache <[projectRoot :=
        {| cfg_options := compilerOptions; cfg_errors := configErrors;
           cfg_fileNames := rootFiles;
           cfg_declarationFiles := findDeclarationFiles fs projectRoot;
           cfg_detectedFrameworks := detectFrameworks fs projectRoot;
           cfg_typescriptVersion := ts_version binding;
           cfg_typescriptSource := source binding |}]>) in
      let host := {| host_projectRoot := projectRoot; host_rootFiles := rootFiles;
                     host_compilerOptions := compilerOptions |} in
      let* service := createLanguageService (ts binding) host in
      let* _ := modify (with_serviceCache <[projectRoot := service]>) in
      ret service
  end.

(** [getProjectConfig] *)
Definition getProjectConfig (projectRoot : string) : M FS (option ProjectConfig) :=
  let* _ := getLanguageService projectRoot in
  gets (fun st => configCache st !! projectRoot).

(** The methods of the host, called by the engine at any later time: they
    read the maps as they are then. *)
Definition getScriptFileNames (host : LanguageServiceHost) (st : State FS) : list string :=
  let openFiles := filter (fun f => isOpenFileOf (host_projectRoot host) f = true)
                     (JsMap.keys (documentContents st)) in
  let accessedList :=
    match accessedFilesPerProject st !! host_projectRoot host with
    | Some accessed => accessed
    | None => []
    end in
  Js.dedupe (host_rootFiles host ++ openFiles ++ accessedList).

Definition getScriptVersion (st : State FS) (fileName : string) : string :=
  pretty (default 0 (documentVersions st !! fileName)).

Definition getScriptSnapshot (st : State FS) (fileName : string) : option string :=
  match JsMap.get (documentContents st) fileName with
  | Some content => Some content
  | None =>
      if negb (existsSync (disk st) fileName) then None
      else readFileSync (disk st) fileName
  end.

(** [updateDocument] *)
Definition updateDocument (filePath content : string) : M FS unit :=
  let absPath := resolve filePath in
  let* _ := modify (with_documentContents (fun m => JsMap.set m absPath content)) in
  let* _ := modify (with_documentVersions (fun m => <[absPath := default 0 (m !! absPath) + 1]> m)) in
  let* fs := gets disk in
  let projectRoot := findProjectRoot fs absPath in
  modify (with_serviceCache (delete projectRoot)).

(** [getFileContent] *)
Definition getFileContent (filePath : string) : M FS string :=
  let absPath := resolve filePath in
  let* overlay := gets (fun st => JsMap.get (documentContents st) absPath) in
  match overlay with
  | Some content => ret content
  | None =>
      let* fs := gets disk in
      match readFileSync fs absPath with
      | Some content => ret content
      | None => throw (FsError "readFileSync" absPath)
      end
  end.

(** [getServiceForFile] *)
Definition getServiceForFile (filePath : string)
  : M FS (LanguageService FS * string * string) :=
  let absPath := resolve filePath in
  let* fs := gets disk in
  let projectRoot := findProjectRoot fs absPath in
  let* _ := registerFile projectRoot absPath in
  let* _ := modify (with_serviceCache (delete projectRoot)) in
  let* service := getLanguageService projectRoot in
  ret (service, absPath, projectRoot).

(** [ts.TextSpan], [ts.TextChange] and [ts.FileTextChanges]. *)
Record TextSpan := { start : Z; span_length : Z }.

Record TextChange := { span : TextSpan; newText : string }.

Record FileTextChanges := {
  fileName : string;
  isNewFile : bool;
  textChanges : list TextChange
}.

(** The result of [applyFileChanges]. *)
Record AppliedChanges := {
  changedFiles : list string;
  created : list string;
  deleted : list string
}.

(** [[...textChanges].sort((a, b) => b.span.start - a.span.start)]: the
    sort is stable, [insertChange] puts a change in front of the changes
    that do not start behind it. *)
Fixpoint insertChange (c : TextChange) (sorted : list TextChange) : list TextChange :=
  match sorted with
  | [] => [c]
  | d :: rest =>
      if start (span d) <=? start (span c) then c :: sorted
      else d :: insertChange c rest
  end.

Definition sortChanges (changes : list TextChange) : list TextChange :=
  fold_right insertChange [] changes.

(** The loop that applies the sorted changes to the text of a file. *)
Definition applyTextChanges (content : string) (sortedChanges : list TextChange) : string :=
  fold_left (fun content change =>
    Js.substring content 0 (start (span change))
    +:+ newText change
    +:+ Js.substringFrom content (start (span change) + span_length (span change)))
    sortedChanges content.

(** [fs.writeFileSync] and [fs.readFileSync] on the disk of the state. *)
Definition fs_writeFileSync (filePath content : string) : M FS unit :=
  fun st => match writeFileSync (disk st) filePath content with
            | Some fs' => Ok tt (with_disk fs' st)
            | None => Throw (FsError "writeFileSync" filePath) st
            end.

Definition fs_readFileSync (filePath : string) : M FS string :=
  fun st => match readFileSync (disk st) filePath with
            | Some content => Ok content st
            | None => Throw (FsError "readFileSync" filePath) st
            end.

(** One turn of the [for] loop of [applyFileChanges]; [acc] holds the three
    arrays [changedFiles], [created] and [deleted]. *)
Definition applyFileChange (acc : AppliedChanges) (fileChange : FileTextChanges)
  : M FS AppliedChanges :=
  let filePath := fileName fileChange in
  if isNewFile fileChange then
    let content := Js.concat (map newText (textChanges fileChange)) in
    let* _ := fs_writeFileSync filePath content in
    ret {| changedFiles := changedFiles acc; created := created acc ++ [filePath];
           deleted := deleted acc |}
  else
    let* fs := gets disk in
    if existsSync fs filePath then
      let* content0 := fs_readFileSync filePath in
      let sortedChanges := sortChanges (textChanges fileChange) in
      let content := applyTextChanges content0 sortedChanges in
      let* _ := fs_writeFileSync filePath content in
      let* _ := modify (with_documentContents (fun m => JsMap.set m filePath content)) in
      let* _ := modify (with_documentVersions
                          (fun m => <[filePath := default 0 (m !! filePath) + 1]> m)) in
      ret {| changedFiles := changedFiles acc ++ [filePath]; created := created acc;
             deleted := deleted acc |}
    else ret acc.

Fixpoint applyFileChanges_loop (acc : AppliedChanges) (changes : list FileTextChanges)
  : M FS AppliedChanges :=
  match changes with
  | [] => ret acc
  | fileChange :: rest =>
      let* acc' := applyFileChange acc fileChange in
      applyFileChanges_loop acc' rest
  end.

(** [applyFileChanges] *)
Definition applyFileChanges (changes : list FileTextChanges) : M FS AppliedChanges :=
  applyFileChanges_loop {| changedFiles := []; created := []; deleted := [] |} changes.

(** *** The first version of the wrapper

    [getLanguageService] as it is in the version of [ts-service.ts] that
    always uses the bundled engine and keeps no [configCache]; the other
    functions are the same in both versions. *)

Definition getLanguageService_bundled (projectRoot : string) : M FS (LanguageService FS) :=
  let* cached := gets (fun st => serviceCache st !! projectRoot) in
  match cached with
  | Some service => ret service
  | None =>
      let* fs := gets disk in
      let configPath := join projectRoot "tsconfig.json" in
      let '(compilerOptions, rootFiles) :=
        if existsSync fs configPath then
          let configFile := readConfigFile bundledTs fs configPath in
          match error configFile with
          | None =>
              let parsed := parseJsonConfigFileContent bundledTs fs
                              (config configFile) projectRoot in
              (options parsed, fileNames parsed)
          | Some _ => (defaultCompilerOptions, [])
          end
        else (defaultCompilerOptions, []) in
      let host := {| host_projectRoot := projectRoot; host_rootFiles := rootFiles;
                     host_compilerOptions := compilerOptions |} in
      let* service := createLanguageService bundledTs host in
      let* _ := modify (with_serviceCache <[projectRoot := service]>) in
      ret service
  end.

Definition getServiceForFile_bundled (filePath : string)
  : M FS (LanguageService FS * string * string) :=
  let absPath := resolve filePath in
  let* fs := gets disk in
  let projectRoot := findProjectRoot fs absPath in
  let* _ := registerFile projectRoot absPath in
  let* _ := modify (with_serviceCache (delete projectRoot)) in
  let* service := getLanguageService_bundled projectRoot in
  ret (service, absPath, projectRoot).

(** ** Workspace switch *)

(** Modelled from the spec: [clearAllCaches] is imported by [index.ts] from
    a version of [ts-service.ts] that is not among the sources. The
    specification calls it [resetAll()] (4.6): it "drops every cached
    session and every EngineBinding"; overlays "are cleared only as a side
    effect of a global reset" (4.2) and the accessed files never shrink
    "except on full cache clear" (3). *)
Definition clearAllCaches : M FS unit :=
  let* _ := modify (with_serviceCache (fun _ => ∅)) in
  let* _ := modify (with_tsModuleCache (fun _ => ∅)) in
  let* _ := modify (with_documentContents (fun _ => JsMap.empty)) in
  let* _ := modify (with_documentVersions (fun _ => ∅)) in
  modify (with_accessedFilesPerProject (fun _ => ∅)).

(** Modelled from the spec: [setActiveWorkspace] is missing from the sources
    like [clearAllCaches]. The specification (4.7): it "validates [path] is
    an existing directory, calls [resetAll()] (I3), then sets it as
    ActiveWorkspace, returning the canonical path". *)
Definition setActiveWorkspace (workspacePath : string) : M FS string :=
  let* fs := gets disk in
  if existsSync fs workspacePath
     && match statSync_isDirectory fs workspacePath with
        | Some b => b | None => false end
  then
    let* _ := clearAllCaches in
    let canonical := resolve workspacePath in
    let* _ := modify (with_activeWorkspace (Some canonical)) in
    ret canonical
  else throw (InvalidPath workspacePath).

(** What the [switch_workspace] tool answers: the fields of the JSON text
    of its reply. *)
Inductive SwitchReply :=
| SwitchInvalidPath (message : string)
| SwitchSuccess (message workspace info : string)
| SwitchFailed (e : Exn).

(** The handler of the [switch_workspace] tool of [index.ts]. Its
    [try]/[catch] turns an exception into a reply; what the handler did to
    the state before the exception stays done. *)
Definition switch_workspace (inputPath : string) : State FS -> SwitchReply * State FS :=
  fun st =>
    let absPath := resolve inputPath in
    let body : M FS SwitchReply :=
      let* fs := gets disk in
      if negb (existsSync fs absPath) then
        ret (SwitchInvalidPath ("'" +:+ inputPath +:+ "' is not a directory."))
      else
        match statSync_isDirectory fs absPath with
        | None => throw (FsError "statSync" absPath)
        | Some false =>
            ret (SwitchInvalidPath ("'" +:+ inputPath +:+ "' is not a directory."))
        | Some true =>
            let* _ := clearAllCaches in
            let* newWorkspace := setActiveWorkspace absPath in
            ret (SwitchSuccess ("Switched active workspace to: " +:+ newWorkspace)
                   newWorkspace "All previous TypeScript caches have been cleared.")
        end in
    match body st with
    | Ok reply st' => (reply, st')
    | Throw e st' => (SwitchFailed e, st')
    end.

(** ** Vocabulary of the properties *)

(** The [k]-th directory of the walk that starts at [dir]. *)
Fixpoint ancestor (k : nat) (dir : string) : string :=
  match k with
  | O => dir
  | S k' => ancestor k' (dirname dir)
  end.

(** A directory holds a project marker. *)
Definition hasMarker (fs : FS) (dir : string) : bool :=
  existsSync fs (join dir "tsconfig.json") || existsSync fs (join dir "package.json").

(** The directory where the walk cannot go further up: the filesystem root
    of an absolute path. *)
Definition isFilesystemRoot (dir : string) : Prop := dirname dir = dir.

(** [d] is the nearest directory with a project marker on the walk from the
    directory of [filePath] upwards. *)
Definition nearestMarked (fs : FS) (filePath d : string) : Prop :=
  exists k, ancestor k (dirname filePath) = d
            /\ hasMarker fs d = true
            /\ forall j, (j < k)%nat -> hasMarker fs (ancestor j (dirname filePath)) = false.

(** The version the module has stored for a file, 0 for a file without an
    entry: the number of which [getScriptVersion] is the text. *)
Definition storedVersion (st : State FS) (fileName : string) : Z :=
  default 0 (documentVersions st !! fileName).

(** The extensions the [filter] of [getScriptFileNames] lets pass. *)
Definition hasScriptExtension (f : string) : bool :=
  Js.endsWith f ".ts" || Js.endsWith f ".tsx" || Js.endsWith f ".js"
  || Js.endsWith f ".jsx".

(** A file has an overlay. *)
Definition overlaid (st : State FS) (f : string) : Prop :=
  JsMap.has (documentContents st) f = true.

(** A path lies under a directory: it continues the directory's path
    behind a separator. *)
Definition isUnder (root f : string) : Prop :=
  Js.startsWith f (if Js.endsWith root "/" then root else root +:+ "/") = true.

(** The files registered as accessed for a root. *)
Definition accessedFiles (st : State FS) (root : string) : list string :=
  match accessedFilesPerProject st !! root with
  | Some accessed => accessed
  | None => []
  end.

(** The compilation scope as invariant I1 words it: the declared root
    files, the overlaid files under the root and the accessed files. *)
Definition inScopeI1 (host : LanguageServiceHost) (st : State FS) (f : string) : Prop :=
  f ∈ host_rootFiles host
  \/ (overlaid st f /\ isUnder (host_projectRoot host) f)
  \/ f ∈ accessedFiles st (host_projectRoot host).

End Wrapper.

(** ** The module as a state machine *)

From Stdlib Require Import Sorted Permutation.

Section Operations.

Context `{PathOps} {FS : Type} `{!FsOps FS} `{!Engines FS}.

(** The exported functions of [ts-service.ts] by what they do to the state
    of the module. Every query ([getQuickInfo], [getDefinition],
    [getDiagnostics], ...) starts with [getServiceForFile] and then only
    reads. *)
Inductive Operation :=
| OpUpdateDocument (filePath content : string)
| OpGetFileContent (filePath : string)
| OpGetLanguageService (projectRoot : string)
| OpGetProjectConfig (projectRoot : string)
| OpQuery (filePath : string)
| OpApplyFileChanges (changes : list FileTextChanges).

(** The state an operation leaves, whether it returns or throws. *)
Definition perform (op : Operation) (st : State FS) : State FS :=
  match op with
  | OpUpdateDocument filePath content => stateOf (updateDocument filePath content st)
  | OpGetFileContent filePath => stateOf (getFileContent filePath st)
  | OpGetLanguageService projectRoot => stateOf (getLanguageService projectRoot st)
  | OpGetProjectConfig projectRoot => stateOf (getProjectConfig projectRoot st)
  | OpQuery filePath => stateOf (getServiceForFile filePath st)
  | OpApplyFileChanges changes => stateOf (applyFileChanges changes st)
  end.

Definition performAll (ops : list Operation) (st : State FS) : State FS :=
  fold_left (fun st op => perform op st) ops st.

(** Writing one text after the other to the same file. *)
Fixpoint updateDocument_each (filePath : string) (contents : list string)
  (st : State FS) : State FS :=
  match contents with
  | [] => st
  | content :: rest =>
      updateDocument_each filePath rest (stateOf (updateDocument filePath content st))
  end.

(** What holds of the caches between any two operations. *)
Record Invariant (st : State FS) : Prop := {
  inv_session_id : forall r s, serviceCache st !! r = Some s ->
    (service_id s < nextServiceId st)%nat;
  inv_session_unique : forall r1 r2 s1 s2,
    serviceCache st !! r1 = Some s1 -> serviceCache st !! r2 = Some s2 ->
    service_id s1 = service_id s2 -> r1 = r2;
  inv_session_root : forall r s, serviceCache st !! r = Some s ->
    host_projectRoot (service_host s) = r;
  inv_session_config : forall r s, serviceCache st !! r = Some s ->
    exists cfg, configCache st !! r = Some cfg
                /\ cfg_fileNames cfg = host_rootFiles (service_host s)
                /\ cfg_options cfg = host_compilerOptions (service_host s);
  inv_session_engine : forall r s, serviceCache st !! r = Some s ->
    exists b, tsModuleCache st !! r = Some b /\ service_ts s = ts b;
  inv_config_engine : forall r cfg, configCache st !! r = Some cfg ->
    exists b, tsModuleCache st !! r = Some b
              /\ cfg_typescriptVersion cfg = ts_version b
              /\ cfg_typescriptSource cfg = source b;
  inv_binding : forall r b, tsModuleCache st !! r = Some b ->
    ts_version b = version (ts b) /\ (source b = bundled -> ts b = bundledTs);
  inv_accessed : forall r files, accessedFilesPerProject st !! r = Some files ->
    NoDup files;
  inv_overlay_keys : NoDup (JsMap.keys (documentContents st));
  inv_overlay_version : forall p, overlaid st p -> 1 <= storedVersion st p;
  inv_no_overlay_version : forall p, ~ overlaid st p -> documentVersions st !! p = None
}.

(** What a later state has kept of an earlier one. *)
Definition grows (st st' : State FS) : Prop :=
  (forall p, storedVersion st p <= storedVersion st' p)
  /\ (forall p, overlaid st p -> overlaid st' p)
  /\ (forall r g, g ∈ accessedFiles st r -> g ∈ accessedFiles st' r)
  /\ (forall r b, tsModuleCache st !! r = Some b -> tsModuleCache st' !! r = Some b)
  /\ (nextServiceId st <= nextServiceId st')%nat.

(** ** The directory scan, declaratively *)

(** [scanReaches fs levels dir d]: the scan of [dir] with [levels] levels
    left lists directory [d]: [d] is [dir] or lies below it through
    directories that are not skipped. *)
Inductive scanReaches (fs : FS) : nat -> string -> string -> Prop :=
| scanReaches_here levels dir : scanReaches fs (S levels) dir dir
| scanReaches_down levels dir entries entry d :
    readdirSync fs dir = Some entries ->
    entry ∈ entries ->
    isDirectory entry = true ->
    Js.includes skippedDirectories (name entry) = false ->
    scanReaches fs levels (join dir (name entry)) d ->
    scanReaches fs (S levels) dir d.

(** [p] is the path of a declaration file listed in directory [d]. *)
Definition declarationFileIn (fs : FS) (d p : string) : Prop :=
  exists entries entry,
    readdirSync fs d = Some entries /\ entry ∈ entries
    /\ isDirectory entry = false /\ isFile entry = true
    /\ Js.endsWith (name entry) ".d.ts" = true
    /\ p = join d (name entry).

End Operations.

(** ** Text edits, declaratively *)

(** The text of [s] from offset [a] up to offset [b]. *)
Definition textBetween (s : string) (a b : Z) : string :=
  String.substring (Z.to_nat a) (Z.to_nat (b - a)) s.

(** The text [s] from offset [from] on with every span replaced by its new
    text, for spans listed from the front of the text to its end. *)
Fixpoint replaceSpans (s : string) (from : Z) (ascending : list TextChange) : string :=
  match ascending with
  | [] => textBetween s from (Js.strlen s)
  | c :: rest =>
      textBetween s from (start (span c))
      +:+ newText c
      +:+ replaceSpans s (start (span c) + span_length (span c)) rest
  end.

(** The spans lie in the text behind offset [from], one behind the other
    without overlap. *)
Fixpoint spansInOrder (from len : Z) (ascending : list TextChange) : Prop :=
  match ascending with
  | [] => from <= len
  | c :: rest =>
      from <= start (span c) /\ 0 <= span_length (span c)
      /\ spansInOrder (start (span c) + span_length (span c)) len rest
  end.

(** A list of changes in the order (or against the order) of their
    starts. *)
Definition startsAscend (cs : list TextChange) : Prop :=
  StronglySorted (fun a b => start (span a) < start (span b)) cs.

Definition startsDescend (cs : list TextChange) : Prop :=
  StronglySorted (fun a b => start (span b) <= start (span a)) cs.

(** ** The parameter list of a function signature *)

Module JsText.

(** The white space [trim] strips, among the code units below 256: tab,
    line feed, vertical tab, form feed, carriage return, space and the
    no-break space. *)
Definition isWhiteSpace (c : ascii) : bool :=
  let n := Ascii.nat_of_ascii c in
  ((9 <=? n)%nat && (n <=? 13)%nat) || (n =? 32)%nat || (n =? 160)%nat.

Fixpoint trimStart (s : string) : string :=
  match s with
  | EmptyString => EmptyString
  | String c rest => if isWhiteSpace c then trimStart rest else s
  end.

Fixpoint trimEnd (s : string) : string :=
  match s with
  | EmptyString => EmptyString
  | String c rest =>
      match trimEnd rest with
      | EmptyString => if isWhiteSpace c then EmptyString else String c EmptyString
      | kept => String c kept
      end
  end.

(** [s.trim()] *)
Definition trim (s : string) : string := trimEnd (trimStart s).

(** [s.includes(sub)] on strings. *)
Fixpoint includes (s sub : string) : bool :=
  String.prefix sub s
  || match s with
     | EmptyString => false
     | String _ rest => includes rest sub
     end.

(** [xs.join(sep)] *)
Fixpoint join (sep : string) (xs : list string) : string :=
  match xs with
  | [] => EmptyString
  | [x] => x
  | x :: rest => x +:+ sep +:+ join sep rest
  end.

End JsText.

(** An entry of [parameters] in the result of [getFunctionSignature]. *)
Record ParameterInfo := {
  param_name : string;
  param_type : string;
  param_optional : bool
}.

(** The [for] loop of [getFunctionSignature] that cuts the text between the
    parentheses at the commas outside of brackets; it ends with the parts
    pushed so far and with [current]. *)
Fixpoint splitParameters_loop (chars : string) (depth : Z) (current : string)
  (parts : list string) : list string * string :=
  match chars with
  | EmptyString => (parts, current)
  | String char rest =>
      if Ascii.eqb char "<" || Ascii.eqb char "(" then
        splitParameters_loop rest (depth + 1) (current +:+ String char EmptyString) parts
      else if Ascii.eqb char ">" || Ascii.eqb char ")" then
        splitParameters_loop rest (depth - 1) (current +:+ String char EmptyString) parts
      else if Ascii.eqb char "," && (depth =? 0) then
        splitParameters_loop rest depth EmptyString (parts ++ [JsText.trim current])
      else
        splitParameters_loop rest depth (current +:+ String char EmptyString) parts
  end.

(** The parts of [paramsStr], as the block guarded by [paramsStr.trim()]
    leaves them in [parts]. *)
Definition splitParameters (paramsStr : string) : list string :=
  if String.eqb (JsText.trim paramsStr) EmptyString then []
  else
    let '(parts, current) := splitParameters_loop paramsStr 0 EmptyString [] in
    if String.eqb (JsText.trim current) EmptyString then parts
    else parts ++ [JsText.trim current].

(** [param.split(/\??:/)]: the pieces of [param] between the colons, a
    question mark right in front of a colon belonging to the separator. *)
Fixpoint splitOnColon (s : string) (current : string) : list string :=
  match s with
  | EmptyString => [current]
  | String c rest =>
      if Ascii.eqb c "?" then
        match rest with
        | String c' rest' =>
            if Ascii.eqb c' ":" then current :: splitOnColon rest' EmptyString
            else splitOnColon rest (current +:+ "?")
        | EmptyString => splitOnColon rest (current +:+ "?")
        end
      else if Ascii.eqb c ":" then current :: splitOnColon rest EmptyString
      else splitOnColon rest (current +:+ String c EmptyString)
  end.

(** The body of the loop over [parts]. *)
Definition parseParameter (param : string) : ParameterInfo :=
  let optional := JsText.includes param "?:" in
  match splitOnColon param EmptyString with
  | paramName :: typeParts =>
      let joined := JsText.trim (JsText.join ":" typeParts) in
      {| param_name := JsText.trim paramName;
         param_type := if String.eqb joined EmptyString then "any" else joined;
         param_optional := optional |}
  | [] => {| param_name := EmptyString; param_type := "any"; param_optional := optional |}
  end.

(** The [parameters] of [getFunctionSignature] for the text between the
    parentheses of the display string. *)
Definition parseParameters (paramsStr : string) : list ParameterInfo :=
  map parseParameter (splitParameters paramsStr).

(** Scanning a text as the loop does, from bracket depth [depth]: the depth
    at its end, or [None] when a comma is met at depth 0. *)
Fixpoint scanDepth (s : string) (depth : Z) : option Z :=
  match s with
  | EmptyString => Some depth
  | String char rest =>
      if Ascii.eqb char "<" || Ascii.eqb char "(" then scanDepth rest (depth + 1)
      else if Ascii.eqb char ">" || Ascii.eqb char ")" then scanDepth rest (depth - 1)
      else if Ascii.eqb char "," && (depth =? 0) then None
      else scanDepth rest depth
  end.

(** A part as the loop hands it out unchanged: trimmed, not empty, its
    brackets in balance and its commas inside of brackets. *)
Definition isPart (p : string) : Prop :=
  JsText.trim p = p /\ p <> EmptyString /\ scanDepth p 0 = Some 0.


(** The pattern of [paramsMatch] behind its opening parenthesis: the
    characters in front of the first [)], when there is one. *)
Fixpoint upToClose (s : string) : option string :=
  match s with
  | EmptyString => None
  | String c rest =>
      if Ascii.eqb c ")" then Some EmptyString
      else option_map (String c) (upToClose rest)
  end.

(** [displayString.match] with the pattern of [paramsMatch] (a [(], as a
    group any characters but [)], a [)]), its capture group: the match
    is tried at every position from the left. *)
Fixpoint paramsMatch (displayString : string) : option string :=
  match displayString with
  | EmptyString => None
  | String c rest =>
      if Ascii.eqb c "(" then
        match upToClose rest with
        | Some group => Some group
        | None => paramsMatch rest
        end
      else paramsMatch rest
  end.

(** [paramsStr] of [getFunctionSignature]. *)
Definition paramsStrOf (displayString : string) : string :=
  match paramsMatch displayString with
  | Some group => group
  | None => EmptyString
  end.

(** The [parameters] of [getFunctionSignature] for a display string. *)
Definition signatureParameters (displayString : string) : list ParameterInfo :=
  parseParameters (paramsStrOf displayString).
(** ** A concrete environment

    An instance of every interface, on which the general theorems are run:
    POSIX paths without [.], [..] and doubled or trailing slashes, a disk
    held in memory, and a stand-in engine. *)

Module Fixture.

(** The index of the last ["/"] of a path. *)
Fixpoint lastSlash (s : string) : option nat :=
  match s with
  | EmptyString => None
  | String c rest =>
      match lastSlash rest with
      | Some i => Some (S i)
      | None => if Ascii.eqb c "/"%char then Some 0%nat else None
      end
  end.

Definition posix_dirname (p : string) : string :=
  match lastSlash p with
  | None => "."
  | Some O => "/"
  | Some (S i) => String.substring 0 (S i) p
  end.

Definition posix_join (a b : string) : string :=
  if String.eqb a "/" then "/" +:+ b else a +:+ "/" +:+ b.

(** The current directory of the process is [/work]. *)
Definition posix_resolve (p : string) : string :=
  if Js.startsWith p "/" then p else posix_join "/work" p.

Definition posix_depth (p : string) : nat :=
  if String.eqb p "." || String.eqb p "/" then 0%nat else S (String.length p).

Definition posixPath : PathOps.
Proof.
  refine {| dirname := posix_dirname; join := posix_join; resolve := posix_resolve;
            depth := posix_depth; dirname_depth := _ |}.
  assert (Hbound : forall s i, lastSlash s = Some i -> (i < String.length s)%nat).
  { induction s as [|c s IH]; intros i Hi; simpl in *; [discriminate|].
    destruct (lastSlash s) as [j|] eqn:Hj.
    - injection Hi as <-. specialize (IH j eq_refl). lia.
    - destruct (Ascii.eqb c "/"%char); [|discriminate]. injection Hi as <-. lia. }
  assert (Hlen : forall s n, (n <= String.length s)%nat ->
                             String.length (String.substring 0 n s) = n).
  { induction s as [|c s IH]; intros n Hn; destruct n as [|n]; simpl in *;
      try reflexivity; try lia.
    rewrite IH; [reflexivity|lia]. }
  assert (Hslash : forall s, lastSlash s <> None -> s <> ".").
  { intros s Hs ->. apply Hs. reflexivity. }
  intros d Hd. unfold posix_dirname, posix_depth in *.
  destruct (lastSlash d) as [[|i]|] eqn:Hl.
  - simpl. destruct (String.eqb_spec d ".") as [->|_]; [discriminate|].
    destruct (String.eqb_spec d "/") as [->|_]; [congruence|]. simpl. lia.
  - pose proof (Hbound _ _ Hl) as Hb.
    destruct (String.eqb_spec d ".") as [->|_]; [discriminate|].
    destruct (String.eqb_spec d "/") as [->|_]; [discriminate|]. simpl orb.
    destruct (_ || _)%bool; [lia|].
    rewrite Hlen by lia. lia.
  - simpl. destruct (String.eqb_spec d ".") as [->|_]; [congruence|].
    destruct (String.eqb_spec d "/") as [->|_]; [discriminate|]. simpl. lia.
Defined.

(** A disk in memory: the regular files with their texts and the
    directories with their entries. *)
Record MemDisk := {
  mem_files : JsMap.t string;
  mem_dirs : JsMap.t (list Dirent)
}.

Definition memFs : FsOps MemDisk :=
  {| existsSync := fun d p => JsMap.has (mem_files d) p || JsMap.has (mem_dirs d) p;
     statSync_isDirectory := fun d p =>
       if JsMap.has (mem_dirs d) p then Some true
       else if JsMap.has (mem_files d) p then Some false else None;
     readFileSync := fun d p => JsMap.get (mem_files d) p;
     writeFileSync := fun d p c =>
       if JsMap.has (mem_dirs d) p then None
       else Some {| mem_files := JsMap.set (mem_files d) p c; mem_dirs := mem_dirs d |};
     readdirSync := fun d p => JsMap.get (mem_dirs d) p |}.

(** A stand-in for the engine: a configuration text is well formed when it
    ends in a closing brace, and a well-formed one declares no files and no
    options. *)
Definition standInTs (v : string) : TypeScriptModule MemDisk :=
  {| version := v;
     readConfigFile := fun d p =>
       match JsMap.get (mem_files d) p with
       | None => {| config := JsonOf EmptyString; error := Some {| messageText := "Cannot read file." |} |}
       | Some text =>
           if Js.endsWith text "}" then {| config := JsonOf text; error := None |}
           else {| config := JsonOf "{}"; error := Some {| messageText := "'}' expected." |} |}
       end;
     parseJsonConfigFileContent := fun _ _ _ =>
       {| options := {| types := None; settings := [] |}; fileNames := []; errors := [] |};
     flattenDiagnosticMessageText := messageText |}.

(** The module loader finds a project's engine when its main file is
    there. *)
Definition memEngines : Engines MemDisk :=
  {| bundledTs := standInTs "5.9.3";
     requireTypeScript := fun d from =>
       let home := posix_join (posix_join (posix_dirname from) "node_modules") "typescript" in
       if JsMap.has (mem_files d) (posix_join home "lib/typescript.js")
       then Some (standInTs "4.9.5") else None |}.

#[export] Existing Instance posixPath.
#[export] Existing Instance memFs.
#[export] Existing Instance memEngines.

Definition file (n : string) : Dirent := {| name := n; isDirectory := false; isFile := true |}.
Definition dir (n : string) : Dirent := {| name := n; isDirectory := true; isFile := false |}.

(** Three projects: [/p] has a [tsconfig.json] that breaks off after its
    opening brace, a declaration file and its own engine; [/q] has a
    [package.json] and a source file; [/r] has a [package.json] and an
    engine directory without the engine in it. A [package.json] lies in
    the filesystem root as well, above a directory without markers. *)
Definition disk0 : MemDisk :=
  {| mem_files :=
       [("/package.json", "{}");
        ("/p/tsconfig.json", "{");
        ("/p/types.d.ts", "declare const answer: number;");
        ("/p/src/a.ts", "export const a = 1;");
        ("/p/node_modules/typescript/lib/typescript.js", "module.exports = ts;");
        ("/q/package.json", "{}");
        ("/q/b.ts", "export const b = 2;");
        ("/r/package.json", "{}");
        ("/scratch/notes/c.ts", "let c;")];
     mem_dirs :=
       [("/", [file "package.json"; dir "p"; dir "q"; dir "r"; dir "scratch"]);
        ("/p", [file "tsconfig.json"; file "types.d.ts"; dir "src"; dir "node_modules"]);
        ("/p/src", [file "a.ts"]);
        ("/p/node_modules", [dir "typescript"]);
        ("/p/node_modules/typescript", [dir "lib"]);
        ("/p/node_modules/typescript/lib", [file "typescript.js"]);
        ("/q", [file "package.json"; file "b.ts"]);
        ("/r", [file "package.json"; dir "node_modules"]);
        ("/r/node_modules", [dir "typescript"]);
        ("/r/node_modules/typescript", []);
        ("/scratch", [dir "notes"]);
        ("/scratch/notes", [file "c.ts"])] |}.

(** The server after a query on [/p/src/a.ts] and one on [/q/b.ts]: it
    holds a session and an engine binding for [/p] and for [/q]. *)
Definition twoSessions : State MemDisk :=
  stateOf ((let* _ := getServiceForFile "/p/src/a.ts" in
            getServiceForFile "/q/b.ts") (initialState disk0)).

(** The server after an overlay for [/p/notes.md] and a query on
    [/p/src/a.ts], and the host of the session it then holds for [/p]. *)
Definition overlaidNotes : State MemDisk :=
  stateOf ((let* _ := updateDocument "/p/notes.md" "remember" in
            getServiceForFile "/p/src/a.ts") (initialState disk0)).

Definition hostOfP : LanguageServiceHost :=
  match serviceCache overlaidNotes !! "/p" with
  | Some svc => service_host svc
  | None => {| host_projectRoot := EmptyString; host_rootFiles := [];
               host_compilerOptions := defaultCompilerOptions |}
  end.

(** A refactoring that creates [/q/c.ts] and replaces the [2] of
    [/q/b.ts]. *)
Definition someChanges : list FileTextChanges :=
  [{| fileName := "/q/c.ts"; isNewFile := true;
      textChanges := [{| span := {| start := 0; span_length := 0 |};
                         newText := "export const c = 3;" |}] |};
   {| fileName := "/q/b.ts"; isNewFile := false;
      textChanges := [{| span := {| start := 17; span_length := 1 |};
                         newText := "4" |}] |}].

(** An engine whose configuration parser declares two files and the [node]
    types for every project, and a loader that finds no engine of a
    project. *)
Definition declaringTs : TypeScriptModule MemDisk :=
  {| version := "5.4.5";
     readConfigFile := readConfigFile (standInTs "5.4.5");
     parseJsonConfigFileContent := fun _ _ root =>
       {| options := {| types := Some ["node"]; settings := [("strict", OBool true)] |};
          fileNames := [posix_join root "src/main.ts"; posix_join root "globals.d.ts"];
          errors := [{| messageText := "Unknown compiler option 'strictt'." |}] |};
     flattenDiagnosticMessageText := messageText |}.

Definition declaringEngines : Engines MemDisk :=
  {| bundledTs := declaringTs; requireTypeScript := fun _ _ => None |}.

(** A project [/v] with a well-formed [tsconfig.json], two declaration
    files of which the configuration declares one, and one more
    declaration file inside [node_modules]. *)
Definition disk1 : MemDisk :=
  {| mem_files :=
       [("/v/tsconfig.json", "{}");
        ("/v/globals.d.ts", "declare const g: number;");
        ("/v/env.d.ts", "declare const e: string;");
        ("/v/src/main.ts", "export {};");
        ("/v/node_modules/lib/index.d.ts", "export {};")];
     mem_dirs :=
       [("/", [dir "v"]);
        ("/v", [file "tsconfig.json"; file "globals.d.ts"; file "env.d.ts"; dir "src";
                dir "node_modules"]);
        ("/v/src", [file "main.ts"]);
        ("/v/node_modules", [dir "lib"]);
        ("/v/node_modules/lib", [file "index.d.ts"])] |}.

(** Three changes of the text ["let a = 1; let b = 2;"], listed out of
    order, and the same changes from the front of the text to its end. *)
Definition renameA : TextChange :=
  {| span := {| start := 4; span_length := 1 |}; newText := "first" |}.
Definition dropSpace : TextChange :=
  {| span := {| start := 10; span_length := 1 |}; newText := EmptyString |}.
Definition renameB : TextChange :=
  {| span := {| start := 15; span_length := 1 |}; newText := "second" |}.

(** What a session does in a row. *)
Definition someOperations : list Operation :=
  [OpQuery "/p/src/a.ts"; OpUpdateDocument "/q/b.ts" "export const b = 3;";
   OpApplyFileChanges someChanges; OpGetProjectConfig "/q"].

End Fixture.

(** * Properties *)

(** ** Coordinate mapper *)

Section CoordinateMapper.

Lemma strlen_nonneg s : 0 <= Js.strlen s.
Proof. unfold Js.strlen. lia. Qed.

Lemma linesSpan_nonneg ls : 0 <= linesSpan ls.
Proof.
  induction ls as [|l ls IH]; simpl; [lia|].
  pose proof (strlen_nonneg l). lia.
Qed.

Lemma split_lines_nonempty s : Js.split_lines s <> [].
Proof.
  destruct s as [|c s]; simpl; [discriminate|].
  destruct (Ascii.eqb c Js.LF); [discriminate|].
  destruct (Js.split_lines s); discriminate.
Qed.

(** The pieces of [split] and the line feeds between them make up the
    whole text. *)
Lemma linesSpan_split_lines s : linesSpan (Js.split_lines s) = Js.strlen s + 1.
Proof.
  induction s as [|c s IH]; [reflexivity|].
  simpl Js.split_lines. destruct (Ascii.eqb c Js.LF).
  - simpl linesSpan. fold (linesSpan (Js.split_lines s)). rewrite IH.
    unfold Js.strlen. simpl String.length. lia.
  - pose proof (split_lines_nonempty s) as Hne.
    destruct (Js.split_lines s) as [|l ls]; [congruence|].
    simpl linesSpan in *. fold (linesSpan ls) in *.
    unfold Js.strlen in *. simpl String.length in *. lia.
Qed.

Lemma positionToOffset_loop_spec lines : forall i ln offset,
  positionToOffset_loop lines i ln offset
  = offset + linesSpan (take (Z.to_nat (ln - 1 - i)) lines).
Proof.
  induction lines as [|l rest IH]; intros i ln offset; simpl.
  - rewrite take_nil. simpl. lia.
  - destruct (Z.ltb_spec i (ln - 1)) as [Hlt|Hge].
    + rewrite IH.
      replace (Z.to_nat (ln - 1 - i)) with (S (Z.to_nat (ln - 1 - (i + 1)))) by lia.
      simpl. fold (linesSpan (take (Z.to_nat (ln - 1 - (i + 1))) rest)). lia.
    + replace (Z.to_nat (ln - 1 - i)) with 0%nat by lia. simpl. lia.
Qed.

(** An offset inside the [k]-th remaining line makes the loop return at
    that line. *)
Lemma offsetToPosition_loop_hit lines : forall i cur (k : nat) l col,
  lines !! k = Some l ->
  1 <= col <= Js.strlen l + 1 ->
  offsetToPosition_loop lines i cur (cur + linesSpan (take k lines) + (col - 1))
  = Some {| line := i + Z.of_nat k + 1; column := col |}.
Proof.
  induction lines as [|h rest IH]; intros i cur k l col Hk Hcol.
  - destruct k; discriminate.
  - destruct k as [|k].
    + simpl in Hk. injection Hk as ->. simpl.
      destruct (Z.gtb_spec (cur + (Js.strlen l + 1)) (cur + 0 + (col - 1))); [|lia].
      f_equal. f_equal; lia.
    + simpl in Hk. simpl take. simpl linesSpan.
      fold (linesSpan (take k rest)).
      pose proof (linesSpan_nonneg (take k rest)) as Hs.
      simpl offsetToPosition_loop.
      destruct (Z.gtb_spec (cur + (Js.strlen h + 1))
                  (cur + (Js.strlen h + 1 + linesSpan (take k rest)) + (col - 1)));
        [lia|].
      replace (cur + (Js.strlen h + 1 + linesSpan (take k rest)) + (col - 1))
        with (cur + (Js.strlen h + 1) + linesSpan (take k rest) + (col - 1)) by lia.
      rewrite (IH (i + 1) (cur + (Js.strlen h + 1)) k l col Hk Hcol).
      f_equal. f_equal. lia.
Qed.

(** An offset behind every remaining line makes the loop fall through. *)
Lemma offsetToPosition_loop_miss lines : forall i cur offset,
  cur + linesSpan lines <= offset ->
  offsetToPosition_loop lines i cur offset = None.
Proof.
  induction lines as [|h rest IH]; intros i cur offset Hle; [reflexivity|].
  simpl in *. fold (linesSpan rest) in *.
  pose proof (linesSpan_nonneg rest).
  destruct (Z.gtb_spec (cur + (Js.strlen h + 1)) offset); [lia|].
  apply IH. lia.
Qed.

End CoordinateMapper.

(** C1. Coordinate round trip: for every text and every 1-based position
    (line, column) within the bounds of the text, [offsetToPosition] maps
    the offset [positionToOffset] computes for the position back to exactly
    that position. *)
Theorem offsetToPosition_positionToOffset (content : string) (ln col : Z) :
  withinBounds content ln col ->
  offsetToPosition content (positionToOffset content ln col)
  = {| line := ln; column := col |}.
Proof.
  intros (l & Hl & Hln & Hcol).
  unfold offsetToPosition, positionToOffset.
  rewrite positionToOffset_loop_spec.
  replace (ln - 1 - 0) with (ln - 1) by lia.
  rewrite (offsetToPosition_loop_hit _ 0 0 (Z.to_nat (ln - 1)) l col Hl Hcol).
  f_equal. lia.
Qed.

Lemma offsetToPosition_positionToOffset_witness :
  withinBounds ("ab" +:+ String Js.LF "cde") 2 4
  /\ offsetToPosition ("ab" +:+ String Js.LF "cde")
       (positionToOffset ("ab" +:+ String Js.LF "cde") 2 4)
     = {| line := 2; column := 4 |}.
Proof.
  assert (Hb : withinBounds ("ab" +:+ String Js.LF "cde") 2 4).
  { exists "cde". split; [reflexivity|]. unfold Js.strlen. simpl. lia. }
  split; [exact Hb|].
  apply (offsetToPosition_positionToOffset _ 2 4 Hb).
Defined.

(** C9. Offset clamp: for every text and every offset strictly greater than
    the length of the text, [offsetToPosition] returns the number of lines
    of the text (split at line feeds) as the line, and column 1. *)
Theorem offsetToPosition_clamp (content : string) (offset : Z) :
  Js.strlen content < offset ->
  offsetToPosition content offset
  = {| line := Z.of_nat (length (Js.split_lines content)); column := 1 |}.
Proof.
  intros Hgt. unfold offsetToPosition.
  rewrite offsetToPosition_loop_miss; [reflexivity|].
  rewrite linesSpan_split_lines. lia.
Qed.

Lemma offsetToPosition_clamp_witness :
  Js.strlen ("ab" +:+ String Js.LF "cde") < 7
  /\ offsetToPosition ("ab" +:+ String Js.LF "cde") 7 = {| line := 2; column := 1 |}.
Proof.
  assert (Hlt : Js.strlen ("ab" +:+ String Js.LF "cde") < 7) by (vm_compute; reflexivity).
  split; [exact Hlt|].
  apply (offsetToPosition_clamp _ 7 Hlt).
Defined.

(** The clamp starts strictly behind the end: the offset of the end of the
    text is still a position of the last line. *)
Example offsetToPosition_at_end :
  offsetToPosition ("ab" +:+ String Js.LF "cde") 6 = {| line := 2; column := 4 |}.
Proof. reflexivity. Qed.

(** Outside the bounds the round trip is lost: a column behind the line
    feed comes back as a position of the next line. *)
Example roundtrip_out_of_bounds :
  offsetToPosition ("ab" +:+ String Js.LF "cde")
    (positionToOffset ("ab" +:+ String Js.LF "cde") 1 4)
  = {| line := 2; column := 1 |}.
Proof. reflexivity. Qed.

(** ** Containers *)

Section Containers.

Lemma JsMap_get_set_eq {V : Type} (m : JsMap.t V) k v :
  JsMap.get (JsMap.set m k v) k = Some v.
Proof.
  induction m as [|[k' v'] m IH]; simpl.
  - by rewrite String.eqb_refl.
  - destruct (String.eqb k' k) eqn:E; simpl; rewrite E; [done|exact IH].
Qed.

Lemma JsMap_get_set_ne {V : Type} (m : JsMap.t V) k k' v :
  k <> k' -> JsMap.get (JsMap.set m k v) k' = JsMap.get m k'.
Proof.
  intros Hne. induction m as [|[k0 v0] m IH]; simpl.
  - destruct (String.eqb_spec k k'); [congruence|done].
  - destruct (String.eqb_spec k0 k) as [->|Hk]; simpl.
    + destruct (String.eqb_spec k k'); [congruence|done].
    + destruct (String.eqb_spec k0 k'); [done|exact IH].
Qed.

Lemma JsMap_has_keys {V : Type} (m : JsMap.t V) k :
  JsMap.has m k = true <-> k ∈ JsMap.keys m.
Proof.
  unfold JsMap.has, JsMap.keys. induction m as [|[k' v'] m IH]; simpl.
  - split; [discriminate|]. intros Hin. by apply elem_of_nil in Hin.
  - rewrite elem_of_cons. destruct (String.eqb_spec k' k) as [->|Hne].
    + split; [by left|done].
    + rewrite IH. split; [by right|]. intros [Heq|Hin]; [congruence|done].
Qed.

Lemma includes_elem_of xs x : Js.includes xs x = true <-> x ∈ xs.
Proof.
  unfold Js.includes. rewrite existsb_exists. split.
  - intros (y & Hin & Heq). apply String.eqb_eq in Heq as ->.
    by apply list_elem_of_In.
  - intros Hin. exists x. split; [by apply list_elem_of_In|apply String.eqb_refl].
Qed.

Lemma includes_not_elem_of xs x : Js.includes xs x = false <-> x ∉ xs.
Proof.
  rewrite <- includes_elem_of. destruct (Js.includes xs x); split; done.
Qed.

Lemma dedupe_into_elem_of xs : forall seen x,
  x ∈ Js.dedupe_into seen xs <-> x ∈ xs /\ x ∉ seen.
Proof.
  induction xs as [|y xs IH]; intros seen x; simpl.
  - split; [intros Hin|intros [Hin _]]; by apply elem_of_nil in Hin.
  - destruct (Js.includes seen y) eqn:E.
    + apply includes_elem_of in E. rewrite IH, elem_of_cons.
      split; [intros [? ?]; by auto|].
      intros [[->|Hin] Hns]; [done|by split].
    + apply includes_not_elem_of in E. rewrite !elem_of_cons, IH, elem_of_cons.
      split.
      * intros [->|[Hin Hns]]; [by split; [left|]|].
        split; [by right|]. intros Hs. apply Hns. by right.
      * intros [[->|Hin] Hns]; [by left|].
        destruct (decide (x = y)) as [->|Hne]; [by left|].
        right. split; [done|]. intros [?|?]; done.
Qed.

Lemma dedupe_into_NoDup xs : forall seen, NoDup (Js.dedupe_into seen xs).
Proof.
  induction xs as [|y xs IH]; intros seen; simpl; [constructor|].
  destruct (Js.includes seen y); [apply IH|].
  constructor; [|apply IH].
  rewrite dedupe_into_elem_of. intros [_ Hn]. apply Hn. by left.
Qed.

Lemma dedupe_elem_of xs x : x ∈ Js.dedupe xs <-> x ∈ xs.
Proof.
  unfold Js.dedupe. rewrite dedupe_into_elem_of. split; [by intros [? _]|].
  intros Hin. split; [done|]. intros Hnil. by apply elem_of_nil in Hnil.
Qed.

Lemma dedupe_NoDup xs : NoDup (Js.dedupe xs).
Proof. apply dedupe_into_NoDup. Qed.

Lemma prefix_app_l (a b s : string) :
  String.prefix (a +:+ b) s = true -> String.prefix a s = true.
Proof.
  revert s. induction a as [|c a IH]; intros s; simpl.
  - by destruct s.
  - destruct s as [|c' s]; simpl; [done|].
    destruct (Ascii.ascii_dec c c'); [apply IH|done].
Qed.

End Containers.

(** ** The wrapper *)

Section WrapperProperties.

Context `{PathOps} {FS : Type} `{!FsOps FS} `{!Engines FS}.

Implicit Types (st : State FS) (fs : FS).

(** *** Overlay store *)

Lemma getScriptVersion_storedVersion st fileName :
  getScriptVersion st fileName = pretty (storedVersion st fileName).
Proof. reflexivity. Qed.

Lemma updateDocument_state (f c : string) st :
  updateDocument f c st
  = Ok tt (with_serviceCache (delete (findProjectRoot (disk st) (resolve f)))
             (with_documentVersions
                (fun m => <[resolve f := default 0 (m !! resolve f) + 1]> m)
                (with_documentContents (fun m => JsMap.set m (resolve f) c) st))).
Proof. reflexivity. Qed.

(** C3. Overlay store: right after [updateDocument(f, c)] a call of
    [getFileContent(f)] returns exactly [c]; every [updateDocument(f, _)]
    makes the stored version of [f] one more than it was, a file never
    overlaid has version 0 and its first write makes it 1; so the version
    token handed to the engine grows strictly and differs after every
    write. *)
Theorem updateDocument_overlay (f c : string) st :
  exists st',
    updateDocument f c st = Ok tt st'
    /\ getFileContent f st' = Ok c st'
    /\ storedVersion st' (resolve f) = storedVersion st (resolve f) + 1
    /\ (documentVersions st !! resolve f = None ->
        storedVersion st (resolve f) = 0 /\ storedVersion st' (resolve f) = 1)
    /\ storedVersion st (resolve f) < storedVersion st' (resolve f)
    /\ getScriptVersion st' (resolve f) <> getScriptVersion st (resolve f).
Proof.
  eexists. split; [apply updateDocument_state|].
  assert (Hv : forall st0,
    storedVersion (with_serviceCache (delete (findProjectRoot (disk st0) (resolve f)))
       (with_documentVersions (fun m => <[resolve f := default 0 (m !! resolve f) + 1]> m)
          (with_documentContents (fun m => JsMap.set m (resolve f) c) st0))) (resolve f)
    = storedVersion st0 (resolve f) + 1).
  { intros st0. unfold storedVersion. simpl. by rewrite lookup_insert_eq. }
  split; [|split; [apply Hv|split; [|split]]].
  - unfold getFileContent, bind, gets, ret. simpl. by rewrite JsMap_get_set_eq.
  - intros Hnone. rewrite Hv. unfold storedVersion. rewrite Hnone. simpl. lia.
  - rewrite Hv. lia.
  - rewrite !getScriptVersion_storedVersion, Hv. intros Heq.
    apply (inj pretty) in Heq. lia.
Qed.

(** *** Project root resolution *)

Lemma isFilesystemRoot_eqb dir :
  String.eqb dir (dirname dir) = true <-> isFilesystemRoot dir.
Proof. unfold isFilesystemRoot. rewrite String.eqb_eq. split; congruence. Qed.

Lemma ancestor_root dir k : isFilesystemRoot dir -> ancestor k dir = dir.
Proof.
  intros Hroot. induction k as [|k IH]; [reflexivity|].
  simpl. unfold isFilesystemRoot in Hroot. by rewrite Hroot.
Qed.

(** One turn of the loop, by what the directory is. *)
Lemma findProjectRoot_loop_step fs fuel dir :
  findProjectRoot_loop fs (S fuel) dir
  = if String.eqb dir (dirname dir) then ReachedRoot
    else if hasMarker fs dir then Found dir
    else findProjectRoot_loop fs fuel (dirname dir).
Proof.
  unfold hasMarker. simpl.
  destruct (String.eqb dir (dirname dir)); [reflexivity|].
  by destruct (existsSync fs (join dir "tsconfig.json")).
Qed.

(** The walk finds the first marked directory it meets below the root. *)
Lemma findProjectRoot_loop_found fs k : forall fuel dir,
  (depth dir < fuel)%nat ->
  (forall j, (j < k)%nat -> hasMarker fs (ancestor j dir) = false) ->
  hasMarker fs (ancestor k dir) = true ->
  ~ isFilesystemRoot (ancestor k dir) ->
  findProjectRoot_loop fs fuel dir = Found (ancestor k dir).
Proof.
  induction k as [|k IH]; intros fuel dir Hfuel Hbelow Hmark Hroot;
    (destruct fuel as [|fuel]; [lia|]); rewrite findProjectRoot_loop_step.
  - simpl in *.
    destruct (String.eqb dir (dirname dir)) eqn:E;
      [by apply isFilesystemRoot_eqb in E|].
    by rewrite Hmark.
  - destruct (String.eqb dir (dirname dir)) eqn:E.
    + apply isFilesystemRoot_eqb in E. by rewrite ancestor_root in Hroot.
    + pose proof (Hbelow 0%nat ltac:(lia)) as H0. simpl in H0. rewrite H0.
      assert (Hne : dirname dir <> dir).
      { intros Heq. apply String.eqb_neq in E. congruence. }
      pose proof (dirname_depth dir Hne).
      apply IH; [lia| |done|done].
      intros j Hj. apply (Hbelow (S j)). lia.
Qed.

(** The walk stops where it reaches the root, whatever lies there. *)
Lemma findProjectRoot_loop_root fs k : forall fuel dir,
  (depth dir < fuel)%nat ->
  (forall j, (j < k)%nat -> hasMarker fs (ancestor j dir) = false) ->
  isFilesystemRoot (ancestor k dir) ->
  findProjectRoot_loop fs fuel dir = ReachedRoot.
Proof.
  induction k as [|k IH]; intros fuel dir Hfuel Hbelow Hroot;
    (destruct fuel as [|fuel]; [lia|]); rewrite findProjectRoot_loop_step.
  - simpl in Hroot. apply isFilesystemRoot_eqb in Hroot. by rewrite Hroot.
  - destruct (String.eqb dir (dirname dir)) eqn:E; [reflexivity|].
    pose proof (Hbelow 0%nat ltac:(lia)) as H0. simpl in H0. rewrite H0.
    assert (Hne : dirname dir <> dir).
    { intros Heq. apply String.eqb_neq in E. congruence. }
    pose proof (dirname_depth dir Hne).
    apply IH; [lia| |done].
    intros j Hj. apply (Hbelow (S j)). lia.
Qed.

(** The loop never uses up the steps [findProjectRoot] gives it. *)
Lemma findProjectRoot_loop_fuel fs : forall fuel dir,
  (depth dir < fuel)%nat -> findProjectRoot_loop fs fuel dir <> OutOfFuel.
Proof.
  induction fuel as [|fuel IH]; intros dir Hfuel; [lia|].
  rewrite findProjectRoot_loop_step.
  destruct (String.eqb dir (dirname dir)) eqn:E; [done|].
  destruct (hasMarker fs dir); [done|].
  assert (Hne : dirname dir <> dir).
  { intros Heq. apply String.eqb_neq in E. congruence. }
  pose proof (dirname_depth dir Hne). apply IH. lia.
Qed.

(** Every walk ends: at a marked directory below the root, or at the
    root. *)
Lemma walk_ends fs : forall n dir,
  (depth dir < n)%nat ->
  exists k,
    (forall j, (j < k)%nat -> hasMarker fs (ancestor j dir) = false)
    /\ (isFilesystemRoot (ancestor k dir)
        \/ (hasMarker fs (ancestor k dir) = true /\ ~ isFilesystemRoot (ancestor k dir))).
Proof.
  induction n as [|n IH]; intros dir Hn; [lia|].
  destruct (String.eqb dir (dirname dir)) eqn:E.
  - exists 0%nat. split; [intros j Hj; lia|]. left. by apply isFilesystemRoot_eqb.
  - assert (Hne : dirname dir <> dir).
    { intros Heq. apply String.eqb_neq in E. congruence. }
    destruct (hasMarker fs dir) eqn:Hm.
    + exists 0%nat. split; [intros j Hj; lia|]. right. split; [done|].
      intros Hroot. simpl in Hroot. apply isFilesystemRoot_eqb in Hroot. congruence.
    + pose proof (dirname_depth dir Hne).
      destruct (IH (dirname dir)) as (k & Hbelow & Hend); [lia|].
      exists (S k). split; [|exact Hend].
      intros [|j] Hj; [exact Hm|]. apply Hbelow. lia.
Qed.

(** C6, as the code has it. For every file path, [findProjectRoot] walks
    from the directory of the file through its parents and returns the
    nearest directory below the filesystem root that holds a
    [tsconfig.json] or a [package.json]; when the walk reaches the
    filesystem root without having met a marker below it, the result is
    the directory of the file. The filesystem root itself is not examined.
    One of the two cases always applies. *)
Theorem findProjectRoot_nearest_below_root fs (filePath : string) :
  (forall k,
      (forall j, (j < k)%nat -> hasMarker fs (ancestor j (dirname filePath)) = false) ->
      hasMarker fs (ancestor k (dirname filePath)) = true ->
      ~ isFilesystemRoot (ancestor k (dirname filePath)) ->
      findProjectRoot fs filePath = ancestor k (dirname filePath))
  /\ (forall k,
      (forall j, (j < k)%nat -> hasMarker fs (ancestor j (dirname filePath)) = false) ->
      isFilesystemRoot (ancestor k (dirname filePath)) ->
      findProjectRoot fs filePath = dirname filePath)
  /\ (exists k,
      (forall j, (j < k)%nat -> hasMarker fs (ancestor j (dirname filePath)) = false)
      /\ (isFilesystemRoot (ancestor k (dirname filePath))
          \/ (hasMarker fs (ancestor k (dirname filePath)) = true
              /\ ~ isFilesystemRoot (ancestor k (dirname filePath))))).
Proof.
  split; [|split].
  - intros k Hbelow Hmark Hroot. unfold findProjectRoot.
    by rewrite (findProjectRoot_loop_found fs k _ _ (Nat.lt_succ_diag_r _) Hbelow Hmark Hroot).
  - intros k Hbelow Hroot. unfold findProjectRoot.
    by rewrite (findProjectRoot_loop_root fs k _ _ (Nat.lt_succ_diag_r _) Hbelow Hroot).
  - apply (walk_ends fs (S (depth (dirname filePath)))). lia.
Qed.

(** *** Engine resolution *)

Lemma getTypeScriptForProject_cached root st b :
  tsModuleCache st !! root = Some b -> getTypeScriptForProject root st = Ok b st.
Proof. intros Hb. unfold getTypeScriptForProject, bind, gets, ret. by rewrite Hb. Qed.

Lemma getTypeScriptForProject_project root st localTs :
  tsModuleCache st !! root = None ->
  existsSync (disk st) (join3 root "node_modules" "typescript") = true ->
  requireTypeScript (disk st) (join root "package.json") = Some localTs ->
  getTypeScriptForProject root st
  = let b := {| ts := localTs; ts_version := version localTs; source := project |} in
    Ok b (with_tsModuleCache <[root := b]> st).
Proof.
  intros Hc He Hr. unfold getTypeScriptForProject, bind, gets, modify, ret.
  rewrite Hc. simpl. by rewrite He, Hr.
Qed.

Lemma getTypeScriptForProject_bundled root st :
  tsModuleCache st !! root = None ->
  existsSync (disk st) (join3 root "node_modules" "typescript") = false
  \/ requireTypeScript (disk st) (join root "package.json") = None ->
  getTypeScriptForProject root st
  = let b := {| ts := bundledTs; ts_version := version bundledTs; source := bundled |} in
    Ok b (with_tsModuleCache <[root := b]> st).
Proof.
  intros Hc Hfail. unfold getTypeScriptForProject, bind, gets, modify, ret.
  rewrite Hc. simpl.
  destruct Hfail as [He|Hr]; [by rewrite He|].
  rewrite Hr. by destruct (existsSync _ _).
Qed.

(** Resolving the engine never raises, writes only the binding of its
    root and leaves everything else of the state as it was. *)
Lemma getTypeScriptForProject_returns root st :
  exists b, getTypeScriptForProject root st
            = Ok b (with_tsModuleCache (fun m => match m !! root with
                                                 | Some _ => m
                                                 | None => <[root := b]> m
                                                 end) st)
            /\ (tsModuleCache st !! root = None \/ tsModuleCache st !! root = Some b).
Proof.
  destruct (tsModuleCache st !! root) as [b|] eqn:Hc.
  - exists b. rewrite (getTypeScriptForProject_cached _ _ _ Hc). split; [|by right].
    f_equal. destruct st. unfold with_tsModuleCache. simpl in *. by rewrite Hc.
  - destruct (existsSync (disk st) (join3 root "node_modules" "typescript")) eqn:He;
      [destruct (requireTypeScript (disk st) (join root "package.json")) as [localTs|] eqn:Hr|].
    + eexists. rewrite (getTypeScriptForProject_project _ _ _ Hc He Hr). simpl.
      split; [|by left]. f_equal. unfold with_tsModuleCache. by rewrite Hc.
    + eexists. rewrite (getTypeScriptForProject_bundled _ _ Hc (or_intror Hr)). simpl.
      split; [|by left]. f_equal. unfold with_tsModuleCache. by rewrite Hc.
    + eexists. rewrite (getTypeScriptForProject_bundled _ _ Hc (or_introl He)). simpl.
      split; [|by left]. f_equal. unfold with_tsModuleCache. by rewrite Hc.
Qed.

(** C8. Engine resolution and binding cache, for every project root:
    resolving the engine never raises and leaves the binding it returns
    cached for the root, so that resolving again returns the same binding;
    a root without a cached binding gets the project's own engine, with
    source [project], when [node_modules/typescript] exists and loads, and
    the bundled engine, with source [bundled], when it is absent or fails
    to load; [updateDocument] leaves the cached bindings as they are. *)
Theorem getTypeScriptForProject_resolution (root : string) st :
  (exists b st', getTypeScriptForProject root st = Ok b st'
                 /\ tsModuleCache st' !! root = Some b
                 /\ getTypeScriptForProject root st' = Ok b st')
  /\ (forall localTs,
        tsModuleCache st !! root = None ->
        existsSync (disk st) (join3 root "node_modules" "typescript") = true ->
        requireTypeScript (disk st) (join root "package.json") = Some localTs ->
        exists b st', getTypeScriptForProject root st = Ok b st'
                      /\ source b = project /\ ts b = localTs
                      /\ ts_version b = version localTs)
  /\ (tsModuleCache st !! root = None ->
      existsSync (disk st) (join3 root "node_modules" "typescript") = false
      \/ requireTypeScript (disk st) (join root "package.json") = None ->
      exists b st', getTypeScriptForProject root st = Ok b st'
                    /\ source b = bundled /\ ts b = bundledTs
                    /\ ts_version b = version bundledTs)
  /\ (forall f c, tsModuleCache (stateOf (updateDocument f c st)) = tsModuleCache st).
Proof.
  split; [|split; [|split]].
  - destruct (getTypeScriptForProject_returns root st) as (b & Hrun & Hc).
    eexists b, _. split; [exact Hrun|].
    assert (Hlook : tsModuleCache
              (with_tsModuleCache (fun m => match m !! root with
                                            | Some _ => m
                                            | None => <[root := b]> m
                                            end) st) !! root = Some b).
    { simpl. destruct Hc as [Hc|Hc]; rewrite Hc; [apply lookup_insert_eq|exact Hc]. }
    split; [exact Hlook|]. by apply getTypeScriptForProject_cached.
  - intros localTs Hc He Hr. eexists _, _.
    rewrite (getTypeScriptForProject_project _ _ _ Hc He Hr). simpl. done.
  - intros Hc Hfail. eexists _, _.
    rewrite (getTypeScriptForProject_bundled _ _ Hc Hfail). simpl. done.
  - intros f c. by rewrite updateDocument_state.
Qed.

(** *** Workspace switch *)

Lemma clearAllCaches_state st :
  clearAllCaches st
  = Ok tt (with_accessedFilesPerProject (fun _ => ∅)
            (with_documentVersions (fun _ => ∅)
              (with_documentContents (fun _ => JsMap.empty)
                (with_tsModuleCache (fun _ => ∅)
                  (with_serviceCache (fun _ => ∅) st))))).
Proof. reflexivity. Qed.

(** C5. Workspace switch (invariant I3): every [switch_workspace] on an
    existing directory leaves no analysis session and no engine binding
    cached, for any project root and however many were cached before; and
    it answers with the new workspace. *)
Theorem switch_workspace_evicts_all (inputPath : string) st :
  existsSync (disk st) (resolve inputPath) = true ->
  statSync_isDirectory (disk st) (resolve inputPath) = Some true ->
  exists message info st',
    switch_workspace inputPath st
    = (SwitchSuccess message (resolve (resolve inputPath)) info, st')
    /\ serviceCache st' = ∅
    /\ tsModuleCache st' = ∅
    /\ (forall root, serviceCache st' !! root = None /\ tsModuleCache st' !! root = None)
    /\ activeWorkspace st' = Some (resolve (resolve inputPath)).
Proof.
  intros He Hd.
  unfold switch_workspace, setActiveWorkspace, clearAllCaches, bind, gets, modify, ret.
  rewrite He, Hd. simpl. rewrite He, Hd. simpl.
  eexists _, _, _. split; [reflexivity|]. simpl.
  repeat split; apply lookup_empty.
Qed.

(** *** Applying file changes *)

Lemma applyFileChange_deleted acc fileChange st :
  match applyFileChange acc fileChange st with
  | Ok acc' _ => deleted acc' = deleted acc
  | Throw _ _ => True
  end.
Proof.
  unfold applyFileChange, bind, gets, modify, ret, fs_writeFileSync, fs_readFileSync.
  destruct (isNewFile fileChange).
  - by destruct (writeFileSync _ _ _).
  - destruct (existsSync _ _); [|done].
    destruct (readFileSync _ _); [|done]. simpl.
    by destruct (writeFileSync _ _ _).
Qed.

Lemma applyFileChanges_loop_deleted changes : forall acc st,
  match applyFileChanges_loop acc changes st with
  | Ok r _ => deleted r = deleted acc
  | Throw _ _ => True
  end.
Proof.
  induction changes as [|fileChange rest IH]; intros acc st; simpl; [done|].
  unfold bind. pose proof (applyFileChange_deleted acc fileChange st) as Hstep.
  destruct (applyFileChange acc fileChange st) as [acc' st1|]; [|done].
  specialize (IH acc' st1).
  destruct (applyFileChanges_loop acc' rest st1); [congruence|done].
Qed.

(** What is on the disk stays there, if writing a file removes nothing. *)
Lemma applyFileChange_keeps (q : string) acc fileChange st :
  (forall fs p c fs', writeFileSync fs p c = Some fs' ->
                      existsSync fs q = true -> existsSync fs' q = true) ->
  existsSync (disk st) q = true ->
  existsSync (disk (stateOf (applyFileChange acc fileChange st))) q = true.
Proof.
  intros Hwrite Hq.
  unfold applyFileChange, bind, gets, modify, ret, fs_writeFileSync, fs_readFileSync.
  destruct (isNewFile fileChange).
  - destruct (writeFileSync _ _ _) eqn:Hw; simpl; [|done]. by eapply Hwrite.
  - destruct (existsSync _ (fileName fileChange)); [|done].
    destruct (readFileSync _ _); [|done]. simpl.
    destruct (writeFileSync _ _ _) eqn:Hw; simpl; [|done]. by eapply Hwrite.
Qed.

Lemma applyFileChanges_loop_keeps (q : string) changes : forall acc st,
  (forall fs p c fs', writeFileSync fs p c = Some fs' ->
                      existsSync fs q = true -> existsSync fs' q = true) ->
  existsSync (disk st) q = true ->
  existsSync (disk (stateOf (applyFileChanges_loop acc changes st))) q = true.
Proof.
  induction changes as [|fileChange rest IH]; intros acc st Hwrite Hq; simpl; [done|].
  unfold bind. pose proof (applyFileChange_keeps q acc fileChange st Hwrite Hq) as Hstep.
  destruct (applyFileChange acc fileChange st) as [acc' st1|]; [|done].
  by apply IH.
Qed.

(** C10. For every list of file changes, the result [applyFileChanges]
    returns has an empty [deleted] list; and the operation deletes nothing:
    it changes the disk only by [writeFileSync], so a path that exists
    before exists after it, whether it returns or throws, on every disk on
    which writing a file removes none. *)
Theorem applyFileChanges_deleted_empty (changes : list FileTextChanges) st :
  match applyFileChanges changes st with
  | Ok r _ => deleted r = []
  | Throw _ _ => True
  end
  /\ (forall q,
        (forall fs p c fs', writeFileSync fs p c = Some fs' ->
                            existsSync fs q = true -> existsSync fs' q = true) ->
        existsSync (disk st) q = true ->
        existsSync (disk (stateOf (applyFileChanges changes st))) q = true).
Proof.
  split.
  - apply (applyFileChanges_loop_deleted changes
             {| changedFiles := []; created := []; deleted := [] |} st).
  - intros q Hwrite Hq. by apply applyFileChanges_loop_keeps.
Qed.

(** *** Session cache *)

(** Building a session for a root without one: the session is a new
    object, cached for the root; beside the session cache only the engine
    binding and the configuration of the root are written. *)
Lemma getLanguageService_build root st :
  serviceCache st !! root = None ->
  exists svc st',
    getLanguageService root st = Ok svc st'
    /\ serviceCache st' = <[root := svc]> (serviceCache st)
    /\ service_id svc = nextServiceId st
    /\ host_projectRoot (service_host svc) = root
    /\ accessedFilesPerProject st' = accessedFilesPerProject st
    /\ documentContents st' = documentContents st
    /\ documentVersions st' = documentVersions st
    /\ disk st' = disk st.
Proof.
  intros Hnone. unfold getLanguageService, bind, gets. rewrite Hnone.
  destruct (getTypeScriptForProject_returns root st) as (b & -> & _). simpl.
  destruct (loadConfig (ts b) (disk st) root) as [[compilerOptions rootFiles] configErrors].
  unfold createLanguageService, bind, gets, modify, ret. simpl.
  eexists _, _. split; [reflexivity|]. simpl. done.
Qed.

Lemma getLanguageService_bundled_build root st :
  serviceCache st !! root = None ->
  exists svc st',
    getLanguageService_bundled root st = Ok svc st'
    /\ serviceCache st' = <[root := svc]> (serviceCache st)
    /\ service_id svc = nextServiceId st
    /\ host_projectRoot (service_host svc) = root
    /\ accessedFilesPerProject st' = accessedFilesPerProject st
    /\ documentContents st' = documentContents st
    /\ documentVersions st' = documentVersions st
    /\ disk st' = disk st.
Proof.
  intros Hnone. unfold getLanguageService_bundled, bind, gets. rewrite Hnone. simpl.
  match goal with |- context [let '(_, _) := ?e in _] => destruct e as [compilerOptions rootFiles] end.
  unfold createLanguageService, bind, gets, modify, ret. simpl.
  eexists _, _. split; [reflexivity|]. simpl. done.
Qed.

(** A cached session is handed out as it is. *)
Lemma getLanguageService_cached root st svc :
  serviceCache st !! root = Some svc -> getLanguageService root st = Ok svc st.
Proof. intros Hc. unfold getLanguageService, bind, gets, ret. by rewrite Hc. Qed.

(** Registration writes the accessed files of its root only. *)
Lemma registerFile_state root filePath st :
  registerFile root filePath st
  = Ok tt (with_accessedFilesPerProject
             (fun accessed => <[root := JsSet.add (default [] (accessed !! root)) filePath]>
                                (match accessed !! root with
                                 | Some _ => accessed
                                 | None => <[root := []]> accessed
                                 end)) st).
Proof.
  unfold registerFile, modify. f_equal. unfold with_accessedFilesPerProject. f_equal.
  destruct (accessedFilesPerProject st !! root) as [files|] eqn:Ha.
  - by rewrite Ha.
  - by rewrite lookup_insert_eq.
Qed.

Lemma registerFile_registers root filePath st :
  filePath ∈ accessedFiles (stateOf (registerFile root filePath st)) root.
Proof.
  rewrite registerFile_state. unfold accessedFiles. simpl. rewrite lookup_insert_eq.
  unfold JsSet.add. destruct (Js.includes _ filePath) eqn:E.
  - by apply includes_elem_of.
  - apply elem_of_app. right. by apply list_elem_of_singleton.
Qed.

(** What the host reports depends on the overlays and on the accessed
    files of its own root only. *)
Lemma getScriptFileNames_frame (host : LanguageServiceHost) st st' :
  documentContents st' = documentContents st ->
  accessedFilesPerProject st' !! host_projectRoot host
  = accessedFilesPerProject st !! host_projectRoot host ->
  getScriptFileNames host st' = getScriptFileNames host st.
Proof. intros Hd Ha. unfold getScriptFileNames. by rewrite Hd, Ha. Qed.

(** The state in which [getServiceForFile] asks for the session. *)
Lemma getServiceForFile_unfold (f : string) st :
  getServiceForFile f st
  = match getLanguageService (findProjectRoot (disk st) (resolve f))
            (with_serviceCache (delete (findProjectRoot (disk st) (resolve f)))
               (stateOf (registerFile (findProjectRoot (disk st) (resolve f)) (resolve f) st)))
    with
    | Ok service st' => Ok (service, resolve f, findProjectRoot (disk st) (resolve f)) st'
    | Throw e st' => Throw e st'
    end.
Proof. reflexivity. Qed.

Lemma getServiceForFile_bundled_unfold (f : string) st :
  getServiceForFile_bundled f st
  = match getLanguageService_bundled (findProjectRoot (disk st) (resolve f))
            (with_serviceCache (delete (findProjectRoot (disk st) (resolve f)))
               (stateOf (registerFile (findProjectRoot (disk st) (resolve f)) (resolve f) st)))
    with
    | Ok service st' => Ok (service, resolve f, findProjectRoot (disk st) (resolve f)) st'
    | Throw e st' => Throw e st'
    end.
Proof. reflexivity. Qed.

(** C7. Frame of a file registration: when a query registers a file under
    its project root [r1] ([getServiceForFile], in both versions of the
    wrapper), the session cached for [r1] is dropped and a newly built one
    takes its place, and for every other root [r2] the cached session is
    the same object as before; neither the accessed files of [r2] nor any
    overlay changes, so every host of another root reports the same
    files. *)
Theorem getServiceForFile_frame (f r2 : string) st :
  r2 <> findProjectRoot (disk st) (resolve f) ->
  forall run, run = getServiceForFile \/ run = getServiceForFile_bundled ->
  exists svc st',
    run f st = Ok (svc, resolve f, findProjectRoot (disk st) (resolve f)) st'
    /\ serviceCache st' !! findProjectRoot (disk st) (resolve f) = Some svc
    /\ service_id svc = nextServiceId st
    /\ (forall s1, serviceCache st !! findProjectRoot (disk st) (resolve f) = Some s1 ->
                   (service_id s1 < nextServiceId st)%nat -> svc <> s1)
    /\ serviceCache st' !! r2 = serviceCache st !! r2
    /\ accessedFilesPerProject st' !! r2 = accessedFilesPerProject st !! r2
    /\ documentContents st' = documentContents st
    /\ (forall host, host_projectRoot host = r2 ->
                     getScriptFileNames host st' = getScriptFileNames host st).
Proof.
  intros Hne run Hrun.
  set (r1 := findProjectRoot (disk st) (resolve f)) in *.
  set (st1 := with_serviceCache (delete r1) (stateOf (registerFile r1 (resolve f) st))).
  assert (Hnone : serviceCache st1 !! r1 = None).
  { unfold st1. rewrite registerFile_state. simpl. apply lookup_delete_eq. }
  assert (Hbuilt : exists svc st',
    run f st = Ok (svc, resolve f, r1) st'
    /\ serviceCache st' = <[r1 := svc]> (serviceCache st1)
    /\ service_id svc = nextServiceId st1
    /\ accessedFilesPerProject st' = accessedFilesPerProject st1
    /\ documentContents st' = documentContents st1).
  { destruct Hrun as [-> | ->].
    - rewrite getServiceForFile_unfold. fold r1. fold st1.
      destruct (getLanguageService_build r1 st1 Hnone)
        as (svc & st' & -> & Hc & Hid & _ & Ha & Hd & _).
      by exists svc, st'.
    - rewrite getServiceForFile_bundled_unfold. fold r1. fold st1.
      destruct (getLanguageService_bundled_build r1 st1 Hnone)
        as (svc & st' & -> & Hc & Hid & _ & Ha & Hd & _).
      by exists svc, st'. }
  destruct Hbuilt as (svc & st' & Hrun' & Hc & Hid & Ha & Hd).
  assert (Hacc : accessedFilesPerProject st' !! r2 = accessedFilesPerProject st !! r2).
  { rewrite Ha. unfold st1. rewrite registerFile_state. simpl.
    rewrite lookup_insert_ne by done.
    destruct (accessedFilesPerProject st !! r1); [done|].
    by rewrite lookup_insert_ne. }
  assert (Hdoc : documentContents st' = documentContents st).
  { rewrite Hd. unfold st1. by rewrite registerFile_state. }
  assert (Hid' : service_id svc = nextServiceId st).
  { rewrite Hid. unfold st1. by rewrite registerFile_state. }
  exists svc, st'. split; [exact Hrun'|].
  split; [rewrite Hc; apply lookup_insert_eq|].
  split; [exact Hid'|].
  split; [intros s1 _ Hlt ->; lia|].
  split.
  { rewrite Hc, lookup_insert_ne by done. unfold st1.
    rewrite registerFile_state. simpl. by rewrite lookup_delete_ne. }
  split; [exact Hacc|]. split; [exact Hdoc|].
  intros host <-. by apply getScriptFileNames_frame.
Qed.

(** *** Compilation scope *)

Lemma isOpenFileOf_split root f :
  isOpenFileOf root f = Js.startsWith f root && hasScriptExtension f.
Proof. reflexivity. Qed.

Lemma isUnder_startsWith root f : isUnder root f -> Js.startsWith f root = true.
Proof.
  unfold isUnder, Js.startsWith. destruct (Js.endsWith root "/"); [done|].
  apply prefix_app_l.
Qed.

(** The files the host reports, one by one. *)
Lemma getScriptFileNames_elem_of (host : LanguageServiceHost) st f :
  f ∈ getScriptFileNames host st
  <-> f ∈ host_rootFiles host
      \/ (overlaid st f /\ isOpenFileOf (host_projectRoot host) f = true)
      \/ f ∈ accessedFiles st (host_projectRoot host).
Proof.
  unfold getScriptFileNames, accessedFiles, overlaid.
  rewrite dedupe_elem_of, !elem_of_app, list_elem_of_filter, JsMap_has_keys.
  tauto.
Qed.

(** C2, as the code has it. For every host of a language service and at
    every call, [getScriptFileNames] returns a duplicate-free list that
    holds every root file of the session, every file accessed for the root
    and every overlaid file under the root whose name ends in [.ts],
    [.tsx], [.js] or [.jsx]; and it holds nothing but root files, accessed
    files of the root and overlaid files with such a name whose path
    starts with the path of the root. An overlaid file with another
    extension is in the scope only as a root file or an accessed file. *)
Theorem getScriptFileNames_scope (host : LanguageServiceHost) st :
  NoDup (getScriptFileNames host st)
  /\ (forall f, f ∈ host_rootFiles host -> f ∈ getScriptFileNames host st)
  /\ (forall f, f ∈ accessedFiles st (host_projectRoot host) ->
                f ∈ getScriptFileNames host st)
  /\ (forall f, overlaid st f -> isUnder (host_projectRoot host) f ->
                hasScriptExtension f = true -> f ∈ getScriptFileNames host st)
  /\ (forall f, f ∈ getScriptFileNames host st ->
                f ∈ host_rootFiles host
                \/ f ∈ accessedFiles st (host_projectRoot host)
                \/ (overlaid st f /\ hasScriptExtension f = true
                    /\ Js.startsWith f (host_projectRoot host) = true)).
Proof.
  split; [apply dedupe_NoDup|].
  split; [intros f Hf; apply getScriptFileNames_elem_of; by left|].
  split; [intros f Hf; apply getScriptFileNames_elem_of; by right; right|].
  split.
  - intros f Ho Hu He. apply getScriptFileNames_elem_of. right. left.
    split; [done|]. rewrite isOpenFileOf_split, He.
    by rewrite (isUnder_startsWith _ _ Hu).
  - intros f Hf. apply getScriptFileNames_elem_of in Hf as [Hf|[[Ho Hopen]|Hf]];
      [by left| |by right; left].
    right. right. rewrite isOpenFileOf_split in Hopen.
    apply andb_true_iff in Hopen as [Hs He]. done.
Qed.

(** *** Project configuration *)

(** What [getLanguageService] makes of a [tsconfig.json] the engine cannot
    read: the error, the default options and no root file. *)
Lemma loadConfig_malformed (tsm : TypeScriptModule FS) fs root err :
  existsSync fs (join root "tsconfig.json") = true ->
  error (readConfigFile tsm fs (join root "tsconfig.json")) = Some err ->
  loadConfig tsm fs root
  = (defaultCompilerOptions, [],
     ["Failed to read tsconfig.json: " +:+ flattenDiagnosticMessageText tsm err]).
Proof. intros He Herr. unfold loadConfig. by rewrite He, Herr. Qed.

(** The sibling case, a project without [tsconfig.json]: the root files
    are the declaration files of the directory scan. *)
Lemma loadConfig_absent (tsm : TypeScriptModule FS) fs root :
  existsSync fs (join root "tsconfig.json") = false ->
  loadConfig tsm fs root = (defaultCompilerOptions, findDeclarationFiles fs root, []).
Proof. intros He. unfold loadConfig. by rewrite He. Qed.

(** C4, what the code does. For a project root whose [tsconfig.json]
    exists and is malformed (the engine's reader reports an error for it),
    building the session raises nothing and records a non-empty list of
    errors, but the root files of the session are empty: they are not the
    declaration files of the directory scan, which the configuration
    records beside them. *)
Theorem getLanguageService_malformed_config (root : string) st :
  serviceCache st !! root = None ->
  existsSync (disk st) (join root "tsconfig.json") = true ->
  (forall b st1, getTypeScriptForProject root st = Ok b st1 ->
                 error (readConfigFile (ts b) (disk st) (join root "tsconfig.json")) <> None) ->
  exists svc st' cfg,
    getLanguageService root st = Ok svc st'
    /\ configCache st' !! root = Some cfg
    /\ cfg_errors cfg <> []
    /\ cfg_fileNames cfg = []
    /\ host_rootFiles (service_host svc) = []
    /\ cfg_declarationFiles cfg = findDeclarationFiles (disk st) root.
Proof.
  intros Hnone He Hbad. unfold getLanguageService, bind, gets. rewrite Hnone.
  destruct (getTypeScriptForProject_returns root st) as (b & Hb & _).
  pose proof (Hbad _ _ Hb) as Hbad'. rewrite Hb. simpl.
  destruct (error (readConfigFile (ts b) (disk st) (join root "tsconfig.json")))
    as [err|] eqn:Herr; [|done].
  rewrite (loadConfig_malformed _ _ _ _ He Herr).
  unfold createLanguageService, bind, gets, modify, ret. simpl.
  eexists _, _, _. split; [reflexivity|]. simpl.
  split; [apply lookup_insert_eq|]. done.
Qed.

End WrapperProperties.

(** * Further properties *)

(** ** Coordinate mapper *)

(** Where the loop of [offsetToPosition] returns: in the first line whose
    end lies behind the offset. *)
Lemma offsetToPosition_loop_inv lines : forall i cur offset p,
  offsetToPosition_loop lines i cur offset = Some p ->
  exists (k : nat) l,
    lines !! k = Some l
    /\ line p = i + Z.of_nat k + 1
    /\ column p = offset - (cur + linesSpan (take k lines)) + 1
    /\ offset < cur + linesSpan (take k lines) + Js.strlen l + 1
    /\ ((0 < k)%nat -> cur + linesSpan (take k lines) <= offset).
Proof.
  induction lines as [|h rest IH]; intros i cur offset p Hp; [discriminate|].
  simpl in Hp.
  destruct (Z.gtb_spec (cur + (Js.strlen h + 1)) offset) as [Hgt|Hle].
  - injection Hp as <-. exists 0%nat, h. simpl. repeat split; lia.
  - destruct (IH _ _ _ _ Hp) as (k & l & Hk & Hline & Hcol & Hend & Hstart).
    exists (S k), l. simpl take. simpl linesSpan. fold (linesSpan (take k rest)).
    split; [exact Hk|]. repeat split; try lia.
    intros _. destruct k as [|k]; [simpl in *; lia|].
    specialize (Hstart ltac:(lia)). lia.
Qed.

Lemma offsetToPosition_loop_some lines : forall i cur offset,
  lines <> [] ->
  offset < cur + linesSpan lines ->
  exists p, offsetToPosition_loop lines i cur offset = Some p.
Proof.
  induction lines as [|h rest IH]; intros i cur offset Hne Hlt; [done|].
  simpl in *. fold (linesSpan rest) in Hlt.
  destruct (Z.gtb_spec (cur + (Js.strlen h + 1)) offset); [eauto|].
  apply IH; [|lia]. intros ->. simpl in Hlt. lia.
Qed.

(** The position of an offset up to the end of the text, line by line. *)
Lemma offsetToPosition_inv (content : string) (offset : Z) :
  offset <= Js.strlen content ->
  exists (k : nat) l,
    Js.split_lines content !! k = Some l
    /\ offsetToPosition content offset
       = {| line := Z.of_nat k + 1;
            column := offset - linesSpan (take k (Js.split_lines content)) + 1 |}
    /\ offset < linesSpan (take k (Js.split_lines content)) + Js.strlen l + 1
    /\ ((0 < k)%nat -> linesSpan (take k (Js.split_lines content)) <= offset).
Proof.
  intros Hle. unfold offsetToPosition.
  destruct (offsetToPosition_loop_some (Js.split_lines content) 0 0 offset) as [p Hp].
  { apply split_lines_nonempty. }
  { rewrite linesSpan_split_lines. lia. }
  rewrite Hp.
  destruct (offsetToPosition_loop_inv _ _ _ _ _ Hp) as (k & l & Hk & Hline & Hcol & Hend & Hstart).
  exists k, l. split; [exact Hk|]. split; [|split; [lia|intros Hpos; specialize (Hstart Hpos); lia]].
  destruct p as [pl pc]. simpl in *. f_equal; lia.
Qed.

(** X1. The round trip the other way: for every text and every offset up
    to the length of the text (the offset of the end included),
    [positionToOffset] maps the position [offsetToPosition] computes for
    the offset back to that offset. *)
Theorem positionToOffset_offsetToPosition (content : string) (offset : Z) :
  offset <= Js.strlen content ->
  positionToOffset content (line (offsetToPosition content offset))
    (column (offsetToPosition content offset)) = offset.
Proof.
  intros Hle.
  destruct (offsetToPosition_inv content offset Hle) as (k & l & Hk & -> & _ & _).
  simpl. unfold positionToOffset. rewrite positionToOffset_loop_spec.
  replace (Z.to_nat (Z.of_nat k + 1 - 1 - 0)) with k by lia. lia.
Qed.

Lemma positionToOffset_offsetToPosition_witness :
  5 <= Js.strlen ("ab" +:+ String Js.LF "cde")
  /\ offsetToPosition ("ab" +:+ String Js.LF "cde") 5 = {| line := 2; column := 3 |}
  /\ positionToOffset ("ab" +:+ String Js.LF "cde") 2 3 = 5.
Proof.
  assert (Hle : 5 <= Js.strlen ("ab" +:+ String Js.LF "cde")) by (vm_compute; discriminate).
  split; [exact Hle|]. split; [reflexivity|].
  exact (positionToOffset_offsetToPosition ("ab" +:+ String Js.LF "cde") 5 Hle).
Defined.

(** X2. For every text and every offset from 0 to the length of the text,
    the position [offsetToPosition] returns lies within the bounds of the
    text: its line is a line of the text and its column runs from 1 to one
    behind the end of that line. *)
Theorem offsetToPosition_withinBounds (content : string) (offset : Z) :
  0 <= offset <= Js.strlen content ->
  withinBounds content (line (offsetToPosition content offset))
    (column (offsetToPosition content offset)).
Proof.
  intros [H0 Hle].
  destruct (offsetToPosition_inv content offset Hle) as (k & l & Hk & -> & Hend & Hstart).
  simpl. exists l. replace (Z.to_nat (Z.of_nat k + 1 - 1)) with k by lia.
  split; [exact Hk|]. split; [lia|].
  destruct k as [|k]; [simpl in *; lia|].
  specialize (Hstart ltac:(lia)). lia.
Qed.

Lemma offsetToPosition_withinBounds_witness :
  0 <= 3 <= Js.strlen ("ab" +:+ String Js.LF "cde")
  /\ offsetToPosition ("ab" +:+ String Js.LF "cde") 3 = {| line := 2; column := 1 |}
  /\ withinBounds ("ab" +:+ String Js.LF "cde") 2 1.
Proof.
  assert (Hr : 0 <= 3 <= Js.strlen ("ab" +:+ String Js.LF "cde"))
    by (vm_compute; split; discriminate).
  split; [exact Hr|]. split; [reflexivity|].
  exact (offsetToPosition_withinBounds ("ab" +:+ String Js.LF "cde") 3 Hr).
Defined.



(** ** The wrapper, further *)

Section MoreWrapperProperties.

Context `{PathOps} {FS : Type} `{!FsOps FS} `{!Engines FS}.

Implicit Types (st : State FS) (fs : FS).

(** *** Overlay store *)

(** X4. An overlay write invalidates the session of the project of the
    file and no other: after [updateDocument(f, _)] no session is cached
    for the project root of [f], every other root has the session it had,
    and the next [getLanguageService] for the root of [f] builds a new
    session object. *)
Theorem updateDocument_invalidates (f c : string) st :
  serviceCache (stateOf (updateDocument f c st)) !! findProjectRoot (disk st) (resolve f)
  = None
  /\ (forall r, r <> findProjectRoot (disk st) (resolve f) ->
                serviceCache (stateOf (updateDocument f c st)) !! r = serviceCache st !! r)
  /\ exists svc st',
      getLanguageService (findProjectRoot (disk st) (resolve f))
        (stateOf (updateDocument f c st)) = Ok svc st'
      /\ service_id svc = nextServiceId st
      /\ serviceCache st' !! findProjectRoot (disk st) (resolve f) = Some svc.
Proof.
  rewrite updateDocument_state. simpl.
  split; [apply lookup_delete_eq|].
  split; [intros r Hr; by apply lookup_delete_ne|].
  edestruct getLanguageService_build as (svc & st' & Hrun & Hc & Hid & _);
    [|exists svc, st'; split; [exact Hrun|]].
  { simpl. apply lookup_delete_eq. }
  split; [exact Hid|]. rewrite Hc. apply lookup_insert_eq.
Qed.

(** X5. An overlay write touches one file: for every other path the
    overlay, the stored version and what the engine is given as the
    script snapshot are what they were; the disk, the accessed files and
    the recorded configurations do not change either. *)
Theorem updateDocument_frame (f c p : string) st :
  p <> resolve f ->
  JsMap.get (documentContents (stateOf (updateDocument f c st))) p
  = JsMap.get (documentContents st) p
  /\ storedVersion (stateOf (updateDocument f c st)) p = storedVersion st p
  /\ getScriptVersion (stateOf (updateDocument f c st)) p = getScriptVersion st p
  /\ getScriptSnapshot (stateOf (updateDocument f c st)) p = getScriptSnapshot st p
  /\ disk (stateOf (updateDocument f c st)) = disk st
  /\ accessedFilesPerProject (stateOf (updateDocument f c st)) = accessedFilesPerProject st
  /\ configCache (stateOf (updateDocument f c st)) = configCache st.
Proof.
  intros Hne. rewrite updateDocument_state. simpl.
  assert (Hget : JsMap.get (JsMap.set (documentContents st) (resolve f) c) p
                 = JsMap.get (documentContents st) p)
    by (apply JsMap_get_set_ne; congruence).
  assert (Hver : forall st0 : State FS,
    storedVersion (with_serviceCache (delete (findProjectRoot (disk st0) (resolve f)))
       (with_documentVersions (fun m => <[resolve f := default 0 (m !! resolve f) + 1]> m)
          (with_documentContents (fun m => JsMap.set m (resolve f) c) st0))) p
    = storedVersion st0 p).
  { intros st0. unfold storedVersion. simpl. rewrite lookup_insert_ne; [done|congruence]. }
  split; [exact Hget|]. split; [apply Hver|].
  split; [by rewrite !getScriptVersion_storedVersion, Hver|].
  split; [|done]. unfold getScriptSnapshot. simpl. by rewrite Hget.
Qed.

Lemma updateDocument_each_cons (f c : string) rest st :
  updateDocument_each f (c :: rest) st
  = updateDocument_each f rest (stateOf (updateDocument f c st)).
Proof. reflexivity. Qed.

Lemma updateDocument_version (f c : string) st :
  storedVersion (stateOf (updateDocument f c st)) (resolve f)
  = storedVersion st (resolve f) + 1.
Proof.
  rewrite updateDocument_state. unfold storedVersion. simpl.
  by rewrite lookup_insert_eq.
Qed.

Lemma updateDocument_read (f c : string) st :
  getFileContent f (stateOf (updateDocument f c st))
  = Ok c (stateOf (updateDocument f c st)).
Proof.
  rewrite updateDocument_state. unfold getFileContent, bind, gets, ret. simpl.
  by rewrite JsMap_get_set_eq.
Qed.

Lemma updateDocument_each_version (f : string) contents : forall st,
  storedVersion (updateDocument_each f contents st) (resolve f)
  = storedVersion st (resolve f) + Z.of_nat (length contents).
Proof.
  induction contents as [|c rest IH]; intros st; [simpl; lia|].
  rewrite updateDocument_each_cons, IH, updateDocument_version.
  simpl length. lia.
Qed.

Lemma updateDocument_each_content (f : string) contents : forall st c,
  last contents = Some c ->
  getFileContent f (updateDocument_each f contents st)
  = Ok c (updateDocument_each f contents st).
Proof.
  induction contents as [|c0 rest IH]; intros st c Hlast; [discriminate|].
  rewrite updateDocument_each_cons. destruct rest as [|c1 rest].
  - injection Hlast as ->. apply updateDocument_read.
  - apply IH. exact Hlast.
Qed.

(** X6. Successive overlay writes: after [n] calls of [updateDocument] for
    the same file the stored version is [n] more than before, the content
    read back is the text of the last call, and the version token differs
    from the one before the writes. *)
Theorem updateDocument_each_spec (f : string) (contents : list string) st :
  storedVersion (updateDocument_each f contents st) (resolve f)
  = storedVersion st (resolve f) + Z.of_nat (length contents)
  /\ (forall c, last contents = Some c ->
                getFileContent f (updateDocument_each f contents st)
                = Ok c (updateDocument_each f contents st)
                /\ getScriptVersion (updateDocument_each f contents st) (resolve f)
                   <> getScriptVersion st (resolve f)).
Proof.
  split; [apply updateDocument_each_version|].
  intros c Hlast. split; [by apply updateDocument_each_content|].
  rewrite !getScriptVersion_storedVersion, updateDocument_each_version.
  intros Heq. apply (inj pretty) in Heq.
  destruct contents; [discriminate|]. simpl length in Heq. lia.
Qed.

(** X7. The hosts are live: right after [updateDocument(f, c)], every
    host whose root path begins the path of [f], session built before or
    after the write, lists [f] among its script files if [f] has a script
    extension, and the snapshot the engine gets for [f] is [c], whatever
    is on the disk. *)
Theorem updateDocument_live (f c : string) st :
  getScriptSnapshot (stateOf (updateDocument f c st)) (resolve f) = Some c
  /\ (forall host : LanguageServiceHost,
        isOpenFileOf (host_projectRoot host) (resolve f) = true ->
        resolve f ∈ getScriptFileNames host (stateOf (updateDocument f c st))).
Proof.
  rewrite updateDocument_state. simpl. split.
  - unfold getScriptSnapshot. simpl. by rewrite JsMap_get_set_eq.
  - intros host Hopen. apply getScriptFileNames_elem_of. right. left.
    split; [|exact Hopen]. unfold overlaid, JsMap.has. simpl.
    by rewrite JsMap_get_set_eq.
Qed.

(** *** Accessed files *)

Lemma JsSet_add_elem_of (s : list string) x y :
  y ∈ JsSet.add s x <-> y = x \/ y ∈ s.
Proof.
  unfold JsSet.add. destruct (Js.includes s x) eqn:E.
  - apply includes_elem_of in E. split; [by right|]. intros [->|?]; done.
  - rewrite elem_of_app, list_elem_of_singleton. tauto.
Qed.

Lemma JsSet_add_NoDup (s : list string) x : NoDup s -> NoDup (JsSet.add s x).
Proof.
  intros Hs. unfold JsSet.add. destruct (Js.includes s x) eqn:E; [done|].
  apply includes_not_elem_of in E. apply NoDup_app. split; [done|].
  split; [|apply NoDup_singleton].
  intros y Hy Hx. apply list_elem_of_singleton in Hx as ->. done.
Qed.

Lemma JsSet_add_idem (s : list string) x : JsSet.add (JsSet.add s x) x = JsSet.add s x.
Proof.
  unfold JsSet.add at 1.
  assert (Hin : x ∈ JsSet.add s x) by (apply JsSet_add_elem_of; by left).
  apply includes_elem_of in Hin. by rewrite Hin.
Qed.

Lemma registerFile_accessed root filePath st :
  accessedFiles (stateOf (registerFile root filePath st)) root
  = JsSet.add (accessedFiles st root) filePath.
Proof.
  rewrite registerFile_state. unfold accessedFiles. simpl. rewrite lookup_insert_eq.
  by destruct (accessedFilesPerProject st !! root).
Qed.

(** X8. Registration keeps a set per root: after [registerFile(root, f)]
    the accessed files of [root] are those from before and [f], without
    duplicates if there were none; registering [f] once more changes
    nothing; and the accessed files of the other roots, the overlays and
    the cached sessions are untouched. *)
Theorem registerFile_set (root filePath : string) st :
  (forall g, g ∈ accessedFiles (stateOf (registerFile root filePath st)) root
             <-> g = filePath \/ g ∈ accessedFiles st root)
  /\ (NoDup (accessedFiles st root) ->
      NoDup (accessedFiles (stateOf (registerFile root filePath st)) root))
  /\ registerFile root filePath (stateOf (registerFile root filePath st))
     = Ok tt (stateOf (registerFile root filePath st))
  /\ (forall r, r <> root ->
                accessedFilesPerProject (stateOf (registerFile root filePath st)) !! r
                = accessedFilesPerProject st !! r)
  /\ serviceCache (stateOf (registerFile root filePath st)) = serviceCache st
  /\ documentContents (stateOf (registerFile root filePath st)) = documentContents st.
Proof.
  split; [intros g; rewrite registerFile_accessed; apply JsSet_add_elem_of|].
  split; [rewrite registerFile_accessed; apply JsSet_add_NoDup|].
  split; [|split; [|by rewrite registerFile_state]].
  - rewrite (registerFile_state root filePath (stateOf _)).
    rewrite registerFile_state. simpl. f_equal.
    unfold with_accessedFilesPerProject. simpl. f_equal.
    rewrite !lookup_insert_eq. simpl. rewrite JsSet_add_idem.
    apply insert_insert_eq.
  - intros r Hr. rewrite registerFile_state. simpl.
    rewrite lookup_insert_ne by done.
    destruct (accessedFilesPerProject st !! root); [done|].
    by rewrite lookup_insert_ne.
Qed.

(** *** Session cache *)

(** Building a session, with all it writes. *)
Lemma getLanguageService_build_state root st :
  serviceCache st !! root = None ->
  exists b compilerOptions rootFiles configErrors,
    (tsModuleCache st !! root = None \/ tsModuleCache st !! root = Some b)
    /\ getTypeScriptForProject root st
       = Ok b (with_tsModuleCache (fun m => match m !! root with
                                            | Some _ => m
                                            | None => <[root := b]> m
                                            end) st)
    /\ loadConfig (ts b) (disk st) root = (compilerOptions, rootFiles, configErrors)
    /\ getLanguageService root st
       = Ok {| service_id := nextServiceId st;
               service_host := {| host_projectRoot := root; host_rootFiles := rootFiles;
                                  host_compilerOptions := compilerOptions |};
               service_ts := ts b |}
            (with_serviceCache
               <[root := {| service_id := nextServiceId st;
                            service_host := {| host_projectRoot := root;
                                               host_rootFiles := rootFiles;
                                               host_compilerOptions := compilerOptions |};
                            service_ts := ts b |}]>
               (with_nextServiceId (S (nextServiceId st))
                  (with_configCache
                     <[root := {| cfg_options := compilerOptions;
                                  cfg_errors := configErrors;
                                  cfg_fileNames := rootFiles;
                                  cfg_declarationFiles := findDeclarationFiles (disk st) root;
                                  cfg_detectedFrameworks := detectFrameworks (disk st) root;
                                  cfg_typescriptVersion := ts_version b;
                                  cfg_typescriptSource := source b |}]>
                     (with_tsModuleCache (fun m => match m !! root with
                                                   | Some _ => m
                                                   | None => <[root := b]> m
                                                   end) st)))).
Proof.
  intros Hnone.
  destruct (getTypeScriptForProject_returns root st) as (b & Hb & Hc).
  destruct (loadConfig (ts b) (disk st) root) as [[compilerOptions rootFiles] configErrors]
    eqn:Hload.
  exists b, compilerOptions, rootFiles, configErrors.
  split; [exact Hc|]. split; [exact Hb|]. split; [exact Hload|].
  unfold getLanguageService, bind, gets. rewrite Hnone, Hb. simpl. rewrite Hload.
  reflexivity.
Qed.

Lemma getLanguageService_returns (root : string) st :
  exists svc st',
    getLanguageService root st = Ok svc st' /\ serviceCache st' !! root = Some svc.
Proof.
  destruct (serviceCache st !! root) as [cached|] eqn:Hc.
  - exists cached, st. by rewrite (getLanguageService_cached _ _ _ Hc).
  - destruct (getLanguageService_build root st Hc) as (svc & st' & Hrun & Hcache & _).
    exists svc, st'. split; [exact Hrun|]. rewrite Hcache. apply lookup_insert_eq.
Qed.

(** X9. Get-or-create: [getLanguageService] never raises; it leaves the
    session it returns cached for the root, and asking again returns the
    same session object and changes nothing, so a root has one live
    session until it is invalidated. *)
Theorem getLanguageService_idempotent (root : string) st :
  exists svc st',
    getLanguageService root st = Ok svc st'
    /\ serviceCache st' !! root = Some svc
    /\ getLanguageService root st' = Ok svc st'
    /\ (forall cached, serviceCache st !! root = Some cached -> svc = cached /\ st' = st).
Proof.
  destruct (serviceCache st !! root) as [cached|] eqn:Hc.
  - exists cached, st. rewrite (getLanguageService_cached _ _ _ Hc).
    split; [done|]. split; [done|]. split; [done|]. by intros ? [= <-].
  - destruct (getLanguageService_build root st Hc) as (svc & st' & Hrun & Hcache & _).
    exists svc, st'. split; [exact Hrun|].
    assert (Hl : serviceCache st' !! root = Some svc)
      by (rewrite Hcache; apply lookup_insert_eq).
    split; [exact Hl|]. split; [by apply getLanguageService_cached|]. discriminate.
Qed.

(** X10. A project without [tsconfig.json]: the session is built with the
    default compiler options, its root files are exactly the declaration
    files the directory scan finds, and no error is recorded. *)
Theorem getLanguageService_no_config (root : string) st :
  serviceCache st !! root = None ->
  existsSync (disk st) (join root "tsconfig.json") = false ->
  exists svc st' cfg,
    getLanguageService root st = Ok svc st'
    /\ configCache st' !! root = Some cfg
    /\ cfg_errors cfg = []
    /\ cfg_options cfg = defaultCompilerOptions
    /\ cfg_fileNames cfg = findDeclarationFiles (disk st) root
    /\ host_rootFiles (service_host svc) = findDeclarationFiles (disk st) root
    /\ host_compilerOptions (service_host svc) = defaultCompilerOptions.
Proof.
  intros Hnone He.
  destruct (getLanguageService_build_state root st Hnone)
    as (b & co & rf & ce & _ & _ & Hload & Hrun).
  rewrite (loadConfig_absent _ _ _ He) in Hload. injection Hload as <- <- <-.
  eexists _, _, _. split; [exact Hrun|]. simpl.
  split; [apply lookup_insert_eq|]. done.
Qed.

Lemma includeDeclarationFiles_spec projectDtsFiles : forall rootFiles,
  exists extra,
    includeDeclarationFiles rootFiles projectDtsFiles = rootFiles ++ extra
    /\ (forall x, x ∈ extra <-> x ∈ projectDtsFiles /\ x ∉ rootFiles)
    /\ NoDup extra.
Proof.
  unfold includeDeclarationFiles.
  induction projectDtsFiles as [|d dts IH]; intros rootFiles; simpl.
  - exists []. rewrite app_nil_r. split; [done|]. split; [|constructor].
    intros x. rewrite !elem_of_nil. tauto.
  - destruct (Js.includes rootFiles d) eqn:E.
    + apply includes_elem_of in E.
      destruct (IH rootFiles) as (extra & -> & Hin & Hnd).
      exists extra. split; [done|]. split; [|done].
      intros x. rewrite Hin, elem_of_cons. split; [intros [? ?]; by auto|].
      intros [[->|?] ?]; done.
    + apply includes_not_elem_of in E.
      destruct (IH (rootFiles ++ [d])) as (extra & -> & Hin & Hnd).
      exists (d :: extra). split; [by rewrite <- app_assoc|].
      assert (Hd : d ∉ extra).
      { rewrite Hin. intros [_ Hn]. apply Hn. apply elem_of_app. right.
        by apply list_elem_of_singleton. }
      split; [|by constructor].
      intros x. rewrite !elem_of_cons, Hin, elem_of_app, list_elem_of_singleton.
      split.
      * intros [->|[Hx Hn]]; [by split; [left|]|].
        split; [by right|]. intros ?. apply Hn. by left.
      * intros [[->|Hx] Hn]; [by left|].
        destruct (decide (x = d)) as [->|Hne]; [by left|].
        right. split; [done|]. intros [?|?]; done.
Qed.

(** X11. A project whose [tsconfig.json] the engine reads without error:
    the root files of the session are the files the parsed configuration
    declares, in its order, followed by the scanned declaration files it
    does not declare, each once; the recorded errors are the parse errors
    of the engine. *)
Theorem getLanguageService_parsed_config (root : string) st :
  serviceCache st !! root = None ->
  existsSync (disk st) (join root "tsconfig.json") = true ->
  (forall b st1, getTypeScriptForProject root st = Ok b st1 ->
                 error (readConfigFile (ts b) (disk st) (join root "tsconfig.json")) = None) ->
  exists svc st' b parsed extra,
    getLanguageService root st = Ok svc st'
    /\ parsed = parseJsonConfigFileContent (ts b) (disk st)
                  (config (readConfigFile (ts b) (disk st) (join root "tsconfig.json"))) root
    /\ service_ts svc = ts b
    /\ host_rootFiles (service_host svc) = fileNames parsed ++ extra
    /\ (forall x, x ∈ extra <-> x ∈ findDeclarationFiles (disk st) root
                                /\ x ∉ fileNames parsed)
    /\ NoDup extra
    /\ exists cfg, configCache st' !! root = Some cfg
                   /\ cfg_fileNames cfg = fileNames parsed ++ extra
                   /\ cfg_errors cfg = map (flattenDiagnosticMessageText (ts b)) (errors parsed).
Proof.
  intros Hnone He Hgood.
  destruct (getLanguageService_build_state root st Hnone)
    as (b & co & rf & ce & _ & Hb & Hload & Hrun).
  specialize (Hgood _ _ Hb). unfold loadConfig in Hload. rewrite He, Hgood in Hload.
  injection Hload as <- <- <-.
  destruct (includeDeclarationFiles_spec (findDeclarationFiles (disk st) root)
              (fileNames (parseJsonConfigFileContent (ts b) (disk st)
                 (config (readConfigFile (ts b) (disk st) (join root "tsconfig.json"))) root)))
    as (extra & Hfiles & Hin & Hnd).
  eexists _, _, b, _, extra. split; [exact Hrun|]. split; [reflexivity|]. simpl.
  split; [done|]. split; [exact Hfiles|]. split; [exact Hin|]. split; [exact Hnd|].
  eexists. split; [apply lookup_insert_eq|]. simpl. by rewrite Hfiles.
Qed.

(** The types of a set of options, [[]] when there are none. *)
Lemma addFrameworkTypes_spec frameworkTypes : forall compilerOptions,
  settings (addFrameworkTypes compilerOptions frameworkTypes) = settings compilerOptions
  /\ (forall t, t ∈ default [] (types (addFrameworkTypes compilerOptions frameworkTypes))
                <-> t ∈ default [] (types compilerOptions) \/ t ∈ frameworkTypes)
  /\ (NoDup (default [] (types compilerOptions)) ->
      NoDup (default [] (types (addFrameworkTypes compilerOptions frameworkTypes))))
  /\ (frameworkTypes = [] ->
      addFrameworkTypes compilerOptions frameworkTypes = compilerOptions).
Proof.
  unfold addFrameworkTypes.
  induction frameworkTypes as [|ft fts IH]; intros compilerOptions; simpl.
  - split; [done|]. split; [|done]. intros t. rewrite elem_of_nil. tauto.
  - destruct (types compilerOptions) as [ts0|] eqn:Hty; simpl.
    + destruct (Js.includes ts0 ft) eqn:E.
      * apply includes_elem_of in E.
        destruct (IH compilerOptions) as (Hs & Hin & Hnd & _).
        rewrite Hty in Hin, Hnd. simpl in *.
        split; [done|]. split; [|split; [done|discriminate]].
        intros t. rewrite Hin, elem_of_cons. split; [tauto|].
        intros [?|[->|?]]; auto.
      * apply includes_not_elem_of in E.
        destruct (IH {| types := Some (ts0 ++ [ft]); settings := settings compilerOptions |})
          as (Hs & Hin & Hnd & _).
        simpl in *. split; [done|]. split; [|split; [|discriminate]].
        -- intros t. rewrite Hin, elem_of_app, list_elem_of_singleton, elem_of_cons. tauto.
        -- intros Hts. apply Hnd. apply NoDup_app. split; [done|].
           split; [|apply NoDup_singleton].
           intros y Hy Hy'. apply list_elem_of_singleton in Hy' as ->. done.
    + destruct (IH {| types := Some [ft]; settings := settings compilerOptions |})
        as (Hs & Hin & Hnd & _).
      simpl in *. split; [done|]. split; [|split; [|discriminate]].
      * intros t. rewrite Hin, list_elem_of_singleton, elem_of_cons, elem_of_nil. tauto.
      * intros _. apply Hnd. apply NoDup_singleton.
Qed.

(** X12. The framework types are added to [compilerOptions.types] as to a
    set: the resulting types are those of the configuration and the
    detected ones, a type already listed is not listed twice, no other
    setting changes, and adding the same types again changes nothing. *)
Theorem addFrameworkTypes_set (compilerOptions : CompilerOptions)
  (frameworkTypes : list string) :
  settings (addFrameworkTypes compilerOptions frameworkTypes) = settings compilerOptions
  /\ (forall t, t ∈ default [] (types (addFrameworkTypes compilerOptions frameworkTypes))
                <-> t ∈ default [] (types compilerOptions) \/ t ∈ frameworkTypes)
  /\ (NoDup (default [] (types compilerOptions)) ->
      NoDup (default [] (types (addFrameworkTypes compilerOptions frameworkTypes))))
  /\ addFrameworkTypes (addFrameworkTypes compilerOptions frameworkTypes) frameworkTypes
     = addFrameworkTypes compilerOptions frameworkTypes.
Proof.
  destruct (addFrameworkTypes_spec frameworkTypes compilerOptions) as (Hs & Hin & Hnd & _).
  split; [exact Hs|]. split; [exact Hin|]. split; [exact Hnd|].
  assert (Hsub : forall fts opts,
    (forall t, t ∈ fts -> t ∈ default [] (types opts)) ->
    addFrameworkTypes opts fts = opts).
  { unfold addFrameworkTypes. induction fts as [|ft fts IH]; intros opts Hall; [done|].
    simpl. assert (Hft : ft ∈ default [] (types opts)) by (apply Hall; by left).
    destruct (types opts) as [ts0|] eqn:Hty; simpl in Hft;
      [|by apply elem_of_nil in Hft].
    apply includes_elem_of in Hft. rewrite Hft. apply IH.
    intros t Ht. rewrite Hty. apply Hall. by right. }
  apply Hsub. intros t Ht. apply Hin. by right.
Qed.

(** X13. A query puts its file into the compilation scope: the session
    [getServiceForFile(f)] returns is the one now cached for the project
    root of [f], its host is a host of that root, and the host lists [f]
    among its script files. *)
Theorem getServiceForFile_in_scope (f : string) st :
  exists svc st',
    getServiceForFile f st = Ok (svc, resolve f, findProjectRoot (disk st) (resolve f)) st'
    /\ serviceCache st' !! findProjectRoot (disk st) (resolve f) = Some svc
    /\ host_projectRoot (service_host svc) = findProjectRoot (disk st) (resolve f)
    /\ resolve f ∈ accessedFiles st' (findProjectRoot (disk st) (resolve f))
    /\ resolve f ∈ getScriptFileNames (service_host svc) st'.
Proof.
  rewrite getServiceForFile_unfold.
  set (r1 := findProjectRoot (disk st) (resolve f)).
  set (st1 := with_serviceCache (delete r1) (stateOf (registerFile r1 (resolve f) st))).
  assert (Hnone : serviceCache st1 !! r1 = None).
  { unfold st1. rewrite registerFile_state. simpl. apply lookup_delete_eq. }
  destruct (getLanguageService_build r1 st1 Hnone)
    as (svc & st' & -> & Hc & _ & Hroot & Ha & _).
  exists svc, st'. split; [done|]. split; [rewrite Hc; apply lookup_insert_eq|].
  split; [exact Hroot|].
  assert (Hacc : resolve f ∈ accessedFiles st' r1).
  { unfold accessedFiles. rewrite Ha. apply (registerFile_registers r1 (resolve f) st). }
  split; [exact Hacc|].
  apply getScriptFileNames_elem_of. right. right. by rewrite Hroot.
Qed.

(** *** The invariant of the caches *)

Lemma JsMap_has_set {V : Type} (m : JsMap.t V) k v q :
  JsMap.has (JsMap.set m k v) q = true <-> q = k \/ JsMap.has m q = true.
Proof.
  unfold JsMap.has. destruct (decide (k = q)) as [->|Hne].
  - rewrite JsMap_get_set_eq. split; [by left|done].
  - rewrite JsMap_get_set_ne by done. split; [by right|].
    intros [->|?]; done.
Qed.

Lemma JsMap_keys_set_NoDup {V : Type} (m : JsMap.t V) k v :
  NoDup (JsMap.keys m) -> NoDup (JsMap.keys (JsMap.set m k v)).
Proof.
  induction m as [|[k' v'] m IH]; simpl; intros Hnd.
  - apply NoDup_singleton.
  - apply NoDup_cons in Hnd as [Hk' Hnd].
    destruct (String.eqb_spec k' k) as [->|Hne]; simpl.
    + by apply NoDup_cons.
    + apply NoDup_cons. split; [|by apply IH].
      intros Hin. apply (JsMap_has_keys (JsMap.set m k v)) in Hin.
      apply JsMap_has_set in Hin as [?|Hin]; [done|].
      by apply JsMap_has_keys in Hin.
Qed.

Lemma Invariant_initial fs : Invariant (initialState fs).
Proof.
  constructor; simpl; try (intros; by simplify_map_eq).
  constructor.
Qed.

(** The two writes of an overlay: the text and the version. *)
Lemma Invariant_overlay_write st p c :
  Invariant st ->
  Invariant (with_documentVersions (fun m => <[p := default 0 (m !! p) + 1]> m)
               (with_documentContents (fun m => JsMap.set m p c) st)).
Proof.
  intros [H1 H2 H3 H4 H5 H6 H7 H8 H9 H10 H11].
  constructor; simpl; try assumption.
  - by apply JsMap_keys_set_NoDup.
  - intros q Hq. unfold overlaid, storedVersion in *. simpl in *.
    destruct (decide (p = q)) as [->|Hne].
    + rewrite lookup_insert_eq. simpl.
      destruct (JsMap.has (documentContents st) q) eqn:Hhas.
      * specialize (H10 q Hhas). lia.
      * rewrite (H11 q) by (rewrite Hhas; done). simpl. lia.
    + rewrite lookup_insert_ne by done. apply H10.
      apply JsMap_has_set in Hq as [->|Hq]; done.
  - intros q Hq. unfold overlaid in *. simpl in *.
    destruct (decide (p = q)) as [->|Hne].
    + exfalso. apply Hq. apply JsMap_has_set. by left.
    + rewrite lookup_insert_ne by done. apply H11.
      intros Hold. apply Hq. apply JsMap_has_set. by right.
Qed.

Lemma Invariant_disk st fs' : Invariant st -> Invariant (with_disk fs' st).
Proof. intros [H1 H2 H3 H4 H5 H6 H7 H8 H9 H10 H11]. constructor; assumption. Qed.

(** Dropping a session. *)
Lemma Invariant_delete_session st root :
  Invariant st -> Invariant (with_serviceCache (delete root) st).
Proof.
  intros [H1 H2 H3 H4 H5 H6 H7 H8 H9 H10 H11].
  constructor; simpl; try assumption.
  - intros r s Hs. apply lookup_delete_Some in Hs as [_ Hs]. eauto.
  - intros r1 r2 s1 s2 Hs1 Hs2.
    apply lookup_delete_Some in Hs1 as [_ Hs1].
    apply lookup_delete_Some in Hs2 as [_ Hs2]. eauto.
  - intros r s Hs. apply lookup_delete_Some in Hs as [_ Hs]. eauto.
  - intros r s Hs. apply lookup_delete_Some in Hs as [_ Hs]. eauto.
  - intros r s Hs. apply lookup_delete_Some in Hs as [_ Hs]. eauto.
Qed.

Lemma Invariant_registerFile st root filePath :
  Invariant st -> Invariant (stateOf (registerFile root filePath st)).
Proof.
  intros [H1 H2 H3 H4 H5 H6 H7 H8 H9 H10 H11]. rewrite registerFile_state.
  constructor; simpl; try assumption.
  intros r files. destruct (decide (r = root)) as [->|Hne].
  - rewrite lookup_insert_eq. intros [= <-]. apply JsSet_add_NoDup.
    destruct (accessedFilesPerProject st !! root) as [old|] eqn:Hold; simpl; [eauto|].
    constructor.
  - rewrite lookup_insert_ne by congruence.
    destruct (accessedFilesPerProject st !! root); [apply H8|].
    rewrite lookup_insert_ne by congruence. apply H8.
Qed.

(** What a freshly resolved binding is. *)
Lemma getTypeScriptForProject_fresh root st b st1 :
  getTypeScriptForProject root st = Ok b st1 ->
  tsModuleCache st !! root = None ->
  ts_version b = version (ts b) /\ (source b = bundled -> ts b = bundledTs).
Proof.
  intros Hrun Hnone.
  destruct (existsSync (disk st) (join3 root "node_modules" "typescript")) eqn:He;
    [destruct (requireTypeScript (disk st) (join root "package.json")) as [localTs|] eqn:Hr|].
  - rewrite (getTypeScriptForProject_project _ _ _ Hnone He Hr) in Hrun.
    simpl in Hrun. injection Hrun as <- _. simpl. done.
  - rewrite (getTypeScriptForProject_bundled _ _ Hnone (or_intror Hr)) in Hrun.
    simpl in Hrun. injection Hrun as <- _. simpl. done.
  - rewrite (getTypeScriptForProject_bundled _ _ Hnone (or_introl He)) in Hrun.
    simpl in Hrun. injection Hrun as <- _. simpl. done.
Qed.

Lemma Invariant_getLanguageService st root :
  Invariant st -> Invariant (stateOf (getLanguageService root st)).
Proof.
  intros Hinv. destruct (serviceCache st !! root) as [cached|] eqn:Hc.
  { by rewrite (getLanguageService_cached _ _ _ Hc). }
  destruct (getLanguageService_build_state root st Hc)
    as (b & co & rf & ce & Hb & Hts & _ & ->).
  pose proof (fun Hn => getTypeScriptForProject_fresh _ _ _ _ Hts Hn) as Hfresh.
  destruct Hinv as [H1 H2 H3 H4 H5 H6 H7 H8 H9 H10 H11].
  assert (Hbind : forall r b', match tsModuleCache st !! root with
                               | Some _ => tsModuleCache st
                               | None => <[root := b]> (tsModuleCache st)
                               end !! r = Some b' ->
                               (r = root /\ b' = b) \/ (r <> root /\ tsModuleCache st !! r = Some b')).
  { intros r b' Hl. destruct (decide (r = root)) as [->|Hne].
    - left. split; [done|]. destruct Hb as [Hb|Hb]; rewrite Hb in Hl.
      + rewrite lookup_insert_eq in Hl. congruence.
      + congruence.
    - right. split; [done|]. destruct (tsModuleCache st !! root); [done|].
      by rewrite lookup_insert_ne in Hl. }
  assert (Hroot : match tsModuleCache st !! root with
                  | Some _ => tsModuleCache st
                  | None => <[root := b]> (tsModuleCache st)
                  end !! root = Some b).
  { destruct Hb as [Hb|Hb]; rewrite Hb; [apply lookup_insert_eq|exact Hb]. }
  assert (Hother : forall r, r <> root ->
                   match tsModuleCache st !! root with
                   | Some _ => tsModuleCache st
                   | None => <[root := b]> (tsModuleCache st)
                   end !! r = tsModuleCache st !! r).
  { intros r Hne. destruct (tsModuleCache st !! root); [done|].
    by rewrite lookup_insert_ne. }
  constructor; simpl; try assumption.
  - intros r s. destruct (decide (r = root)) as [->|Hne].
    + rewrite lookup_insert_eq. intros [= <-]. simpl. lia.
    + rewrite lookup_insert_ne by congruence. intros Hs. specialize (H1 _ _ Hs). lia.
  - intros r1 r2 s1 s2.
    destruct (decide (r1 = root)) as [->|Hne1]; destruct (decide (r2 = root)) as [->|Hne2];
      [done| | |].
    + rewrite lookup_insert_eq, lookup_insert_ne by congruence.
      intros [= <-] Hs2 Hid. simpl in Hid. specialize (H1 _ _ Hs2). lia.
    + rewrite lookup_insert_eq, lookup_insert_ne by congruence.
      intros Hs1 [= <-] Hid. simpl in Hid. specialize (H1 _ _ Hs1). lia.
    + rewrite !lookup_insert_ne by congruence. apply H2.
  - intros r s. destruct (decide (r = root)) as [->|Hne].
    + rewrite lookup_insert_eq. by intros [= <-].
    + rewrite lookup_insert_ne by congruence. apply H3.
  - intros r s. destruct (decide (r = root)) as [->|Hne].
    + rewrite !lookup_insert_eq. intros [= <-]. eexists. split; [done|]. done.
    + rewrite !lookup_insert_ne by congruence. apply H4.
  - intros r s. destruct (decide (r = root)) as [->|Hne].
    + rewrite lookup_insert_eq. intros [= <-]. exists b. split; [exact Hroot|done].
    + rewrite lookup_insert_ne by congruence. rewrite Hother by done. apply H5.
  - intros r cfg. destruct (decide (r = root)) as [->|Hne].
    + rewrite lookup_insert_eq. intros [= <-]. exists b. split; [exact Hroot|done].
    + rewrite lookup_insert_ne by congruence. rewrite Hother by done. apply H6.
  - intros r b' Hl. destruct (Hbind _ _ Hl) as [[-> ->]|[_ Hold]]; [|eauto].
    destruct Hb as [Hb|Hb]; [by apply Hfresh|eauto].
Qed.

Lemma getProjectConfig_state root st :
  stateOf (getProjectConfig root st) = stateOf (getLanguageService root st).
Proof.
  unfold getProjectConfig, bind, gets.
  destruct (getLanguageService_returns root st) as (svc & st' & -> & _). done.
Qed.

Lemma getFileContent_state (f : string) st : stateOf (getFileContent f st) = st.
Proof.
  unfold getFileContent, bind, gets, ret, throw. simpl.
  destruct (JsMap.get _ _); [done|]. by destruct (readFileSync _ _).
Qed.

(** What holds before [applyFileChanges] and is kept by a write to the
    disk and by the two writes of an overlay holds after it, whether it
    returns or throws. *)
Lemma applyFileChanges_loop_preserves (P : State FS -> Prop) :
  (forall st fs', P st -> P (with_disk fs' st)) ->
  (forall st p c, P st ->
     P (with_documentVersions (fun m => <[p := default 0 (m !! p) + 1]> m)
          (with_documentContents (fun m => JsMap.set m p c) st))) ->
  forall changes acc st, P st -> P (stateOf (applyFileChanges_loop acc changes st)).
Proof.
  intros Hdisk Hoverlay. induction changes as [|fileChange rest IH]; intros acc st HP;
    simpl; [done|].
  unfold bind.
  assert (Hstep : P (stateOf (applyFileChange acc fileChange st))).
  { unfold applyFileChange, bind, gets, modify, ret, fs_writeFileSync, fs_readFileSync.
    destruct (isNewFile fileChange).
    - destruct (writeFileSync _ _ _); simpl; [by apply Hdisk|done].
    - destruct (existsSync _ _); [|done].
      destruct (readFileSync _ _); [|done]. simpl.
      destruct (writeFileSync _ _ _); simpl; [|done].
      apply Hoverlay. by apply Hdisk. }
  destruct (applyFileChange acc fileChange st) as [acc' st1|]; [|done].
  by apply IH.
Qed.

Lemma Invariant_perform op st : Invariant st -> Invariant (perform op st).
Proof.
  intros Hinv. destruct op as [f c|f|root|root|f|changes]; cbn [perform].
  - rewrite updateDocument_state. simpl stateOf.
    by apply Invariant_delete_session, Invariant_overlay_write.
  - by rewrite getFileContent_state.
  - by apply Invariant_getLanguageService.
  - rewrite getProjectConfig_state. by apply Invariant_getLanguageService.
  - rewrite getServiceForFile_unfold.
    match goal with |- context [getLanguageService ?r ?s] =>
      pose proof (Invariant_getLanguageService s r) as Hb;
      destruct (getLanguageService r s) end;
      apply Hb; by apply Invariant_delete_session, Invariant_registerFile.
  - unfold applyFileChanges.
    apply applyFileChanges_loop_preserves; [|intros; by apply Invariant_overlay_write|done].
    intros; by apply Invariant_disk.
Qed.

Lemma Invariant_performAll (ops : list Operation) : forall st,
  Invariant st -> Invariant (performAll ops st).
Proof.
  unfold performAll. induction ops as [|op ops IH]; intros st Hinv; [done|].
  simpl. apply IH. by apply Invariant_perform.
Qed.

(** X14. The caches stay consistent: from the start of the server and
    through any sequence of overlay writes, content reads, session
    requests, configuration requests, queries and applied file changes,
    whether they return or throw, every cached session is the session of
    the root it is cached under and no two roots share a session object;
    a cached session runs on the engine bound to its root and has the root
    files and options recorded as the configuration of the root; a
    recorded configuration names the version and source of the bound
    engine; the accessed files and the overlay keys have no duplicates;
    and a file has an overlay exactly when it has a version, which is
    then at least 1. *)
Theorem Invariant_reachable (fs : FS) (ops : list Operation) :
  Invariant (performAll ops (initialState fs)).
Proof. apply Invariant_performAll, Invariant_initial. Qed.

(** X15. [getProjectConfig] returns a configuration in every state the
    server can be in, never [undefined]; the configuration names the
    version and the source of the engine bound to the root, and its file
    names and options are those of the session now cached for the root. *)
Theorem getProjectConfig_defined (fs : FS) (ops : list Operation) (root : string) :
  exists cfg st' svc b,
    getProjectConfig root (performAll ops (initialState fs)) = Ok (Some cfg) st'
    /\ serviceCache st' !! root = Some svc
    /\ cfg_fileNames cfg = host_rootFiles (service_host svc)
    /\ cfg_options cfg = host_compilerOptions (service_host svc)
    /\ tsModuleCache st' !! root = Some b
    /\ cfg_typescriptVersion cfg = ts_version b
    /\ cfg_typescriptSource cfg = source b
    /\ ts_version b = version (ts b).
Proof.
  pose proof (Invariant_performAll ops _ (Invariant_initial fs)) as Hinv.
  set (st := performAll ops (initialState fs)) in *.
  pose proof (Invariant_getLanguageService st root Hinv) as Hinv'.
  destruct (getLanguageService_returns root st) as (svc & st' & Hrun & Hc).
  rewrite Hrun in Hinv'. simpl in Hinv'.
  destruct (inv_session_config _ Hinv' _ _ Hc) as (cfg & Hcfg & Hfiles & Hopts).
  destruct (inv_config_engine _ Hinv' _ _ Hcfg) as (b & Hb & Hver & Hsrc).
  exists cfg, st', svc, b.
  split; [unfold getProjectConfig, bind, gets; by rewrite Hrun, Hcfg|].
  repeat (split; [done|]). apply (inv_binding _ Hinv' _ _ Hb).
Qed.

(** *** What the operations never take back *)

Lemma grows_refl st : grows st st.
Proof. unfold grows. repeat split; auto; lia. Qed.

Lemma grows_trans st1 st2 st3 : grows st1 st2 -> grows st2 st3 -> grows st1 st3.
Proof.
  intros (Ha1 & Ha2 & Ha3 & Ha4 & Ha5) (Hb1 & Hb2 & Hb3 & Hb4 & Hb5).
  unfold grows. repeat split; [|by auto..|lia].
  intros p. specialize (Ha1 p). specialize (Hb1 p). lia.
Qed.

Lemma grows_overlay_write st p c :
  grows st (with_documentVersions (fun m => <[p := default 0 (m !! p) + 1]> m)
              (with_documentContents (fun m => JsMap.set m p c) st)).
Proof.
  unfold grows, storedVersion, overlaid, accessedFiles. simpl.
  split; [|split; [|by auto]].
  - intros q. destruct (decide (p = q)) as [->|Hne].
    + rewrite lookup_insert_eq. simpl. lia.
    + rewrite lookup_insert_ne by done. lia.
  - intros q Hq. apply JsMap_has_set. by right.
Qed.

Lemma grows_disk st fs' : grows st (with_disk fs' st).
Proof. exact (grows_refl st). Qed.

Lemma grows_delete_session st root : grows st (with_serviceCache (delete root) st).
Proof. exact (grows_refl st). Qed.

Lemma grows_registerFile st root filePath :
  grows st (stateOf (registerFile root filePath st)).
Proof.
  unfold grows. split; [|split; [|split; [|split]]].
  - intros p. rewrite registerFile_state. unfold storedVersion. simpl. lia.
  - intros p. unfold overlaid. by rewrite registerFile_state.
  - intros r g Hg. destruct (decide (r = root)) as [->|Hne].
    + rewrite registerFile_accessed. apply JsSet_add_elem_of. by right.
    + unfold accessedFiles in *. rewrite registerFile_state. simpl.
      rewrite lookup_insert_ne by done.
      destruct (accessedFilesPerProject st !! root); [done|].
      by rewrite lookup_insert_ne.
  - intros r b. by rewrite registerFile_state.
  - rewrite registerFile_state. simpl. lia.
Qed.

Lemma grows_getLanguageService st root :
  grows st (stateOf (getLanguageService root st)).
Proof.
  destruct (serviceCache st !! root) as [cached|] eqn:Hc.
  { rewrite (getLanguageService_cached _ _ _ Hc). apply grows_refl. }
  destruct (getLanguageService_build_state root st Hc)
    as (b & co & rf & ce & Hb & _ & _ & ->).
  unfold grows, storedVersion, overlaid, accessedFiles. simpl.
  split; [intros; lia|]. split; [done|]. split; [done|]. split; [|lia].
  intros r b' Hr. destruct (tsModuleCache st !! root) eqn:Hroot; [done|].
  rewrite lookup_insert_ne; [done|]. intros ->. congruence.
Qed.

Lemma grows_perform op st : grows st (perform op st).
Proof.
  destruct op as [f c|f|root|root|f|changes]; cbn [perform].
  - rewrite updateDocument_state. simpl stateOf.
    eapply grows_trans; [apply grows_overlay_write|apply grows_delete_session].
  - rewrite getFileContent_state. apply grows_refl.
  - apply grows_getLanguageService.
  - rewrite getProjectConfig_state. apply grows_getLanguageService.
  - rewrite getServiceForFile_unfold.
    eapply grows_trans;
      [apply (grows_registerFile st (findProjectRoot (disk st) (resolve f)) (resolve f))|].
    eapply grows_trans; [apply grows_delete_session|].
    match goal with |- context [getLanguageService ?r ?s] =>
      pose proof (grows_getLanguageService s r) as Hb;
      destruct (getLanguageService r s) end; exact Hb.
  - unfold applyFileChanges.
    apply (applyFileChanges_loop_preserves (grows st)); [| |apply grows_refl].
    + intros st0 fs' Hg. eapply grows_trans; [exact Hg|apply grows_disk].
    + intros st0 p c Hg. eapply grows_trans; [exact Hg|apply grows_overlay_write].
Qed.

(** X16. Nothing is taken back: through any sequence of overlay writes,
    content reads, session requests, configuration requests, queries and
    applied file changes, the stored version of a file never goes down, an
    overlay is never removed, a file registered as accessed for a root
    stays registered, and the engine binding of a root stays the binding
    it was resolved to. *)
Theorem performAll_grows (ops : list Operation) st :
  (forall p, storedVersion st p <= storedVersion (performAll ops st) p)
  /\ (forall p, overlaid st p -> overlaid (performAll ops st) p)
  /\ (forall r g, g ∈ accessedFiles st r -> g ∈ accessedFiles (performAll ops st) r)
  /\ (forall r b, tsModuleCache st !! r = Some b ->
                  tsModuleCache (performAll ops st) !! r = Some b).
Proof.
  assert (Hg : grows st (performAll ops st)).
  { unfold performAll. revert st. induction ops as [|op ops IH]; intros st;
      [apply grows_refl|].
    simpl. eapply grows_trans; [apply grows_perform|apply IH]. }
  destruct Hg as (H1 & H2 & H3 & H4 & _). done.
Qed.

(** *** Directory scan *)

Lemma scanDir_step fs levels dir :
  scanDir fs (S levels) dir
  = match readdirSync fs dir with
    | None => []
    | Some entries =>
        flat_map (fun entry =>
          if isDirectory entry then
            if Js.includes skippedDirectories (name entry) then []
            else scanDir fs levels (join dir (name entry))
          else if isFile entry && Js.endsWith (name entry) ".d.ts"
               then [join dir (name entry)]
          else []) entries
    end.
Proof. reflexivity. Qed.

Lemma scanDir_spec fs : forall levels dir p,
  p ∈ scanDir fs levels dir
  <-> exists d, scanReaches fs levels dir d /\ declarationFileIn fs d p.
Proof.
  induction levels as [|levels IH]; intros dir p; [simpl|rewrite scanDir_step].
  - rewrite elem_of_nil. split; [done|]. intros (d & Hreach & _). inversion Hreach.
  - destruct (readdirSync fs dir) as [entries|] eqn:Hread.
    + rewrite list_elem_of_In, in_flat_map. split.
      * intros (entry & Hentry & Hp). apply list_elem_of_In in Hentry.
        destruct (isDirectory entry) eqn:Hdir.
        -- destruct (Js.includes skippedDirectories (name entry)) eqn:Hskip;
             [by destruct Hp|].
           apply list_elem_of_In, IH in Hp as (d & Hreach & Hfile).
           exists d. split; [|exact Hfile]. by eapply scanReaches_down.
        -- destruct (isFile entry && Js.endsWith (name entry) ".d.ts") eqn:Hf;
             [|by destruct Hp].
           apply andb_true_iff in Hf as [Hf Hext]. destruct Hp as [<-|[]].
           exists dir. split; [constructor|]. by exists entries, entry.
      * intros (d & Hreach & Hfile). inversion Hreach as [| ? ? entries' entry ? Hread' Hentry Hdir Hskip Hsub]; subst.
        -- destruct Hfile as (entries' & entry & Hread' & Hentry & Hdir & Hf & Hext & ->).
           rewrite Hread in Hread'. injection Hread' as <-.
           exists entry. split; [by apply list_elem_of_In|].
           rewrite Hdir, Hf, Hext. by left.
        -- rewrite Hread in Hread'. injection Hread' as <-.
           exists entry. split; [by apply list_elem_of_In|].
           rewrite Hdir, Hskip. apply list_elem_of_In, IH. by exists d.
    + rewrite elem_of_nil. split; [done|]. intros (d & Hreach & Hfile).
      inversion Hreach as [| ? ? entries' entry ? Hread' ]; subst.
      * destruct Hfile as (entries' & entry & Hread' & _). congruence.
      * congruence.
Qed.

(** X17. [findDeclarationFiles] returns exactly the declaration files of
    the scanned directories: a path is in the result if and only if it is
    the path of a regular file with a name ending in [.d.ts] listed in the
    project root or in a directory at most five levels below it that is
    reached through readable directories none of which is called
    [node_modules], [dist], [build], [.git], [.next] or [.nuxt]. A
    directory that cannot be read contributes nothing and raises
    nothing. *)
Theorem findDeclarationFiles_spec fs (projectRoot p : string) :
  p ∈ findDeclarationFiles fs projectRoot
  <-> exists d, scanReaches fs 6 projectRoot d /\ declarationFileIn fs d p.
Proof. apply scanDir_spec. Qed.

(** *** Applying file changes, further *)

(** X18. [applyFileChanges] evicts nothing and registers nothing: whether
    it returns or throws, the cached sessions, the engine bindings, the
    recorded configurations and the accessed files are what they were,
    although the overlays of the changed files are rewritten. *)
Theorem applyFileChanges_frame (changes : list FileTextChanges) st :
  serviceCache (stateOf (applyFileChanges changes st)) = serviceCache st
  /\ tsModuleCache (stateOf (applyFileChanges changes st)) = tsModuleCache st
  /\ configCache (stateOf (applyFileChanges changes st)) = configCache st
  /\ accessedFilesPerProject (stateOf (applyFileChanges changes st))
     = accessedFilesPerProject st
  /\ nextServiceId (stateOf (applyFileChanges changes st)) = nextServiceId st.
Proof.
  unfold applyFileChanges.
  apply (applyFileChanges_loop_preserves (fun st' =>
    serviceCache st' = serviceCache st /\ tsModuleCache st' = tsModuleCache st
    /\ configCache st' = configCache st
    /\ accessedFilesPerProject st' = accessedFilesPerProject st
    /\ nextServiceId st' = nextServiceId st)); done.
Qed.

(** One turn of the loop, by its three cases. *)
Lemma applyFileChange_cases acc fileChange st :
  (isNewFile fileChange = true
   /\ ((exists fs', writeFileSync (disk st) (fileName fileChange)
                     (Js.concat (map newText (textChanges fileChange))) = Some fs'
                   /\ applyFileChange acc fileChange st
                      = Ok {| changedFiles := changedFiles acc;
                              created := created acc ++ [fileName fileChange];
                              deleted := deleted acc |} (with_disk fs' st))
       \/ exists e, applyFileChange acc fileChange st = Throw e st))
  \/ (isNewFile fileChange = false
      /\ existsSync (disk st) (fileName fileChange) = false
      /\ applyFileChange acc fileChange st = Ok acc st)
  \/ (isNewFile fileChange = false
      /\ existsSync (disk st) (fileName fileChange) = true
      /\ ((exists content0 fs',
             readFileSync (disk st) (fileName fileChange) = Some content0
             /\ writeFileSync (disk st) (fileName fileChange)
                  (applyTextChanges content0 (sortChanges (textChanges fileChange)))
                = Some fs'
             /\ applyFileChange acc fileChange st
                = Ok {| changedFiles := changedFiles acc ++ [fileName fileChange];
                        created := created acc; deleted := deleted acc |}
                     (with_documentVersions
                        (fun m => <[fileName fileChange
                                    := default 0 (m !! fileName fileChange) + 1]> m)
                        (with_documentContents
                           (fun m => JsMap.set m (fileName fileChange)
                                       (applyTextChanges content0
                                          (sortChanges (textChanges fileChange))))
                           (with_disk fs' st))))
          \/ exists e, applyFileChange acc fileChange st = Throw e st)).
Proof.
  unfold applyFileChange, bind, gets, modify, ret, fs_writeFileSync, fs_readFileSync.
  destruct (isNewFile fileChange).
  - left. split; [done|]. destruct (writeFileSync _ _ _) as [fs'|] eqn:Hw; [left|right].
    + by exists fs'.
    + by eexists.
  - right. destruct (existsSync _ _); [right|left; done].
    split; [done|]. split; [done|].
    destruct (readFileSync _ _) as [content0|] eqn:Hr; [|right; by eexists]. simpl.
    destruct (writeFileSync _ _ _) as [fs'|] eqn:Hw; [left|right; by eexists].
    by exists content0, fs'.
Qed.

Lemma applyFileChanges_loop_report changes : forall acc st r st',
  applyFileChanges_loop acc changes st = Ok r st' ->
  created r = created acc ++ map fileName (filter (fun ch => isNewFile ch = true) changes)
  /\ (exists changed,
        changedFiles r = changedFiles acc ++ changed
        /\ changed `sublist_of`
             map fileName (filter (fun ch => isNewFile ch = false) changes)
        /\ forall p, p ∈ changed ->
                     overlaid st' p /\ storedVersion st p < storedVersion st' p).
Proof.
  induction changes as [|fileChange rest IH]; intros acc st r st' Hrun; simpl in Hrun.
  - injection Hrun as <- <-. simpl. rewrite app_nil_r. split; [done|].
    exists []. rewrite app_nil_r. split; [done|]. split; [done|].
    intros p Hp. by apply elem_of_nil in Hp.
  - unfold bind in Hrun.
    assert (Hlater : forall acc1 st1, applyFileChanges_loop acc1 rest st1 = Ok r st' ->
                                      grows st1 st').
    { intros acc1 st1 Hr.
      pose proof (applyFileChanges_loop_preserves (grows st1)) as Hp.
      specialize (Hp (fun s fs' Hg => grows_trans _ _ _ Hg (grows_disk s fs'))).
      specialize (Hp (fun s p c Hg => grows_trans _ _ _ Hg (grows_overlay_write s p c))).
      specialize (Hp rest acc1 st1 (grows_refl st1)). by rewrite Hr in Hp. }
    destruct (applyFileChange_cases acc fileChange st)
      as [(Hnew & [(fs' & _ & Hstep)|(e & Hstep)])
         |[(Hnew & _ & Hstep)
          |(Hnew & _ & [(content0 & fs' & _ & _ & Hstep)|(e & Hstep)])]];
      rewrite Hstep in Hrun; try discriminate.
    + destruct (IH _ _ _ _ Hrun) as (Hc & changed & Hch & Hsub & Hov). simpl in *.
      rewrite filter_cons_True by done. rewrite filter_cons_False by congruence.
      split; [by rewrite Hc, <- app_assoc|].
      exists changed. split; [done|]. split; [done|].
      intros p Hp. destruct (Hov p Hp) as [Ho Hv]. split; [done|].
      unfold storedVersion in *. simpl in Hv. done.
    + destruct (IH _ _ _ _ Hrun) as (Hc & changed & Hch & Hsub & Hov).
      rewrite filter_cons_False by congruence. rewrite filter_cons_True by done.
      split; [done|]. exists changed. split; [done|].
      split; [by apply sublist_cons|done].
    + pose proof (Hlater _ _ Hrun) as (Hgv & Hgo & _).
      destruct (IH _ _ _ _ Hrun) as (Hc & changed & Hch & Hsub & Hov). simpl in *.
      rewrite filter_cons_False by congruence. rewrite filter_cons_True by done.
      split; [done|].
      exists (fileName fileChange :: changed).
      split; [by rewrite Hch, <- app_assoc|].
      split; [by apply sublist_skip|].
      intros p [->|Hp]%elem_of_cons.
      * split.
        -- apply Hgo. unfold overlaid. simpl. apply JsMap_has_set. by left.
        -- specialize (Hgv (fileName fileChange)).
           unfold storedVersion in *. simpl in Hgv.
           rewrite lookup_insert_eq in Hgv. simpl in Hgv. lia.
      * destruct (Hov p Hp) as [Ho Hv]. split; [done|].
        pose proof (grows_overlay_write (with_disk fs' st) (fileName fileChange)
          (applyTextChanges content0 (sortChanges (textChanges fileChange)))) as (Hw & _).
        specialize (Hw p). unfold storedVersion in *. simpl in *. lia.
Qed.


Lemma applyFileChanges_loop_untouched (p : string) changes : forall acc st,
  (forall ch, ch ∈ changes -> fileName ch = p -> isNewFile ch = true) ->
  JsMap.get (documentContents (stateOf (applyFileChanges_loop acc changes st))) p
  = JsMap.get (documentContents st) p
  /\ storedVersion (stateOf (applyFileChanges_loop acc changes st)) p = storedVersion st p.
Proof.
  induction changes as [|fileChange rest IH]; intros acc st Hp; simpl; [done|].
  unfold bind.
  assert (Hrest : forall ch, ch ∈ rest -> fileName ch = p -> isNewFile ch = true).
  { intros ch Hch. apply Hp. by right. }
  destruct (applyFileChange_cases acc fileChange st)
    as [(Hnew & [(fs' & _ & ->)|(e & ->)])
       |[(Hnew & _ & ->)
        |(Hnew & _ & [(content0 & fs' & _ & _ & ->)|(e & ->)])]]; try done.
  - destruct (IH {| changedFiles := changedFiles acc;
                    created := created acc ++ [fileName fileChange];
                    deleted := deleted acc |} (with_disk fs' st) Hrest) as [-> ->]. done.
  - by apply IH.
  - assert (Hne : fileName fileChange <> p).
    { intros Heq. specialize (Hp fileChange ltac:(by left) Heq). congruence. }
    match goal with |- context [applyFileChanges_loop ?a rest ?s] =>
      destruct (IH a s Hrest) as [-> ->] end.
    unfold storedVersion. simpl. rewrite JsMap_get_set_ne by done.
    by rewrite lookup_insert_ne.
Qed.

(** X20. [applyFileChanges] writes an overlay only for a file it changes:
    for a path that no change names, and also for a path that is only
    created (named by changes marked as new files alone), the overlay and
    the stored version are what they were, whether the operation returns
    or throws. So the text written for a new file does not replace an
    overlay the path already has. *)
Theorem applyFileChanges_overlay_untouched (changes : list FileTextChanges) (p : string) st :
  (forall ch, ch ∈ changes -> fileName ch = p -> isNewFile ch = true) ->
  JsMap.get (documentContents (stateOf (applyFileChanges changes st))) p
  = JsMap.get (documentContents st) p
  /\ storedVersion (stateOf (applyFileChanges changes st)) p = storedVersion st p.
Proof. apply applyFileChanges_loop_untouched. Qed.

End MoreWrapperProperties.

(** ** Sorting and applying text changes *)

Lemma insertChange_Permutation c sorted : insertChange c sorted ≡ₚ c :: sorted.
Proof.
  induction sorted as [|d rest IH]; simpl; [done|].
  destruct (start (span d) <=? start (span c)); [done|].
  rewrite IH. apply Permutation_swap.
Qed.

Lemma insertChange_descend c sorted :
  startsDescend sorted -> startsDescend (insertChange c sorted).
Proof.
  unfold startsDescend. induction sorted as [|d rest IH]; intros Hs; simpl.
  - repeat constructor.
  - destruct (Z.leb_spec (start (span d)) (start (span c))) as [Hle|Hgt].
    + constructor; [done|]. apply StronglySorted_inv in Hs as [Hrest Hd].
      constructor; [done|]. eapply Forall_impl; [exact Hd|]. simpl. intros; lia.
    + apply StronglySorted_inv in Hs as [Hrest Hd]. constructor; [by apply IH|].
      rewrite (insertChange_Permutation c rest). constructor; [lia|done].
Qed.

Lemma insertChange_filter (k : Z) c sorted :
  filter (fun ch => start (span ch) = k) (insertChange c sorted)
  = filter (fun ch => start (span ch) = k) (c :: sorted).
Proof.
  induction sorted as [|d rest IH]; simpl; [done|].
  destruct (Z.leb_spec (start (span d)) (start (span c))) as [Hle|Hgt]; [done|].
  rewrite filter_cons, IH, !filter_cons.
  destruct (decide (start (span d) = k)), (decide (start (span c) = k)); try done.
  lia.
Qed.

Lemma sortChanges_Permutation (changes : list TextChange) :
  sortChanges changes ≡ₚ changes.
Proof.
  unfold sortChanges. induction changes as [|c rest IH]; simpl; [done|].
  by rewrite insertChange_Permutation, IH.
Qed.

Lemma sortChanges_descend (changes : list TextChange) :
  startsDescend (sortChanges changes).
Proof.
  unfold sortChanges. induction changes as [|c rest IH]; simpl; [constructor|].
  by apply insertChange_descend.
Qed.

(** X21. The changes of a file are sorted by their start, the last first,
    before they are applied: the sorted list holds the same changes, their
    starts never go up along it, and changes with the same start keep the
    order the engine gave them in. *)
Theorem sortChanges_sorted (changes : list TextChange) :
  sortChanges changes ≡ₚ changes
  /\ startsDescend (sortChanges changes)
  /\ (forall k, filter (fun ch => start (span ch) = k) (sortChanges changes)
                = filter (fun ch => start (span ch) = k) changes).
Proof.
  split; [apply sortChanges_Permutation|]. split; [apply sortChanges_descend|].
  unfold sortChanges. induction changes as [|c rest IH]; intros k; simpl; [done|].
  rewrite insertChange_filter, !filter_cons, IH. done.
Qed.

(** The characters of a string, to reason about its pieces. *)
Lemma chars_app (a b : string) :
  list_ascii_of_string (a +:+ b) = list_ascii_of_string a ++ list_ascii_of_string b.
Proof. induction a as [|c a IH]; simpl; [done|]. by rewrite IH. Qed.

Lemma chars_length (s : string) : length (list_ascii_of_string s) = String.length s.
Proof. induction s as [|c s IH]; simpl; [done|]. by rewrite IH. Qed.

Lemma chars_substring (s : string) : forall n m,
  list_ascii_of_string (String.substring n m s)
  = take m (drop n (list_ascii_of_string s)).
Proof.
  induction s as [|c s IH]; intros [|n] [|m]; simpl; rewrite ?IH; try done.
  all: by destruct (drop n (list_ascii_of_string s)).
Qed.

Lemma chars_inj (a b : string) :
  list_ascii_of_string a = list_ascii_of_string b -> a = b.
Proof.
  intros Heq. rewrite <- (string_of_list_ascii_of_string a),
    <- (string_of_list_ascii_of_string b). by rewrite Heq.
Qed.

Lemma Js_substring_in_range (s : string) (a b : Z) :
  0 <= a <= b -> b <= Js.strlen s -> Js.substring s a b = textBetween s a b.
Proof.
  intros Hab Hb. unfold Js.substring, textBetween, Js.clamp.
  replace (Z.min (Z.max 0 (Z.min a (Js.strlen s))) (Z.max 0 (Z.min b (Js.strlen s))))
    with a by lia.
  replace (Z.max (Z.max 0 (Z.min a (Js.strlen s))) (Z.max 0 (Z.min b (Js.strlen s))))
    with b by lia.
  done.
Qed.

Lemma chars_textBetween (s : string) (a b : Z) :
  list_ascii_of_string (textBetween s a b)
  = take (Z.to_nat (b - a)) (drop (Z.to_nat a) (list_ascii_of_string s)).
Proof. apply chars_substring. Qed.

Lemma textBetween_join (s : string) (a b c : Z) :
  0 <= a <= b -> b <= c ->
  textBetween s a b +:+ textBetween s b c = textBetween s a c.
Proof.
  intros Hab Hbc. apply chars_inj. rewrite chars_app, !chars_textBetween.
  replace (Z.to_nat b) with (Z.to_nat a + Z.to_nat (b - a))%nat by lia.
  rewrite <- drop_drop, take_take_drop. f_equal. lia.
Qed.

Lemma textBetween_all (s : string) : textBetween s 0 (Js.strlen s) = s.
Proof.
  apply chars_inj. rewrite chars_textBetween. simpl. rewrite drop_0.
  apply take_ge. rewrite chars_length. unfold Js.strlen. lia.
Qed.

(** One edit behind an untouched front: the front up to the span stays,
    the new text follows, and what lay behind the span follows it. *)
Lemma edit_behind_front (s rest : string) (a l : Z) (t : string) :
  0 <= a -> 0 <= l -> a + l <= Js.strlen s ->
  Js.substring (textBetween s 0 (a + l) +:+ rest) 0 a
  +:+ t +:+ Js.substringFrom (textBetween s 0 (a + l) +:+ rest) (a + l)
  = textBetween s 0 a +:+ t +:+ rest.
Proof.
  intros Ha Hl Hlen.
  assert (Hfront : String.length (textBetween s 0 (a + l)) = Z.to_nat (a + l)).
  { rewrite <- chars_length, chars_textBetween. simpl. rewrite drop_0.
    rewrite length_take_le; [lia|]. rewrite chars_length. unfold Js.strlen in Hlen. lia. }
  assert (Hwhole : Js.strlen (textBetween s 0 (a + l) +:+ rest)
                   = a + l + Js.strlen rest).
  { unfold Js.strlen. rewrite <- !chars_length, chars_app, length_app, !chars_length.
    rewrite Hfront. lia. }
  pose proof (strlen_nonneg rest) as Hrest.
  unfold Js.substringFrom. rewrite !Js_substring_in_range by lia.
  f_equal; [|f_equal].
  - apply chars_inj. rewrite !chars_textBetween, chars_app, chars_textBetween.
    simpl. rewrite !drop_0. rewrite take_app_le.
    + rewrite take_take. f_equal. lia.
    + rewrite length_take_le; [lia|]. rewrite chars_length.
      unfold Js.strlen in Hlen. lia.
  - apply chars_inj. rewrite chars_textBetween, chars_app.
    rewrite drop_app_length' by (rewrite chars_length; lia).
    apply take_ge. rewrite Hwhole, chars_length. unfold Js.strlen. lia.
Qed.

Lemma spansInOrder_le from len cs : spansInOrder from len cs -> from <= len.
Proof.
  revert from. induction cs as [|c rest IH]; intros from; simpl; [done|].
  intros (Hfrom & Hl & Hrest). specialize (IH _ Hrest). lia.
Qed.

(** Applying the changes of a list from its end to its front leaves the
    text in front of the first span alone and replaces every span. *)
Lemma applyTextChanges_fold (s : string) ascending : forall from,
  0 <= from ->
  spansInOrder from (Js.strlen s) ascending ->
  fold_right (fun change content =>
      Js.substring content 0 (start (span change))
      +:+ newText change
      +:+ Js.substringFrom content (start (span change) + span_length (span change)))
    s ascending
  = textBetween s 0 from +:+ replaceSpans s from ascending.
Proof.
  induction ascending as [|c rest IH]; intros from H0 Hspans; simpl in *.
  - rewrite textBetween_join by lia. by rewrite textBetween_all.
  - destruct Hspans as (Hfrom & Hl & Hrest).
    pose proof (spansInOrder_le _ _ _ Hrest) as Hend.
    rewrite (IH (start (span c) + span_length (span c))) by (done || lia).
    rewrite edit_behind_front by lia.
    rewrite <- (textBetween_join s 0 from (start (span c))) by lia.
    apply chars_inj. rewrite !chars_app. by rewrite <- !app_assoc.
Qed.

Lemma StronglySorted_snoc {A : Type} (R : A -> A -> Prop) l x :
  StronglySorted R l -> Forall (fun y => R y x) l -> StronglySorted R (l ++ [x]).
Proof.
  induction l as [|y l IH]; intros Hs Hall; simpl.
  - repeat constructor.
  - apply StronglySorted_inv in Hs as [Hs Hy].
    apply Forall_cons in Hall as [Hyx Hall].
    constructor; [by apply IH|]. apply Forall_app. split; [done|]. by constructor.
Qed.

Lemma StronglySorted_rev {A : Type} (R : A -> A -> Prop) l :
  StronglySorted R l -> StronglySorted (fun a b => R b a) (rev l).
Proof.
  induction l as [|x l IH]; intros Hs; simpl; [constructor|].
  apply StronglySorted_inv in Hs as [Hs Hx].
  apply StronglySorted_snoc; [by apply IH|]. by apply Forall_rev.
Qed.

(** Two lists of the same changes, one with starts that never go up, the
    other with starts that go strictly down, are the same list. *)
Lemma descending_unique (l1 : list TextChange) : forall l2,
  l1 ≡ₚ l2 ->
  startsDescend l1 ->
  StronglySorted (fun a b => start (span b) < start (span a)) l2 ->
  l1 = l2.
Proof.
  induction l1 as [|x l1 IH]; intros l2 Hperm Hs1 Hs2.
  - by apply Permutation_nil_l in Hperm.
  - destruct l2 as [|y l2]; [by apply Permutation_nil_r in Hperm|].
    apply StronglySorted_inv in Hs1 as [Hs1 Hx].
    apply StronglySorted_inv in Hs2 as [Hs2 Hy].
    assert (Hxy : x = y).
    { assert (Hx2 : x ∈ y :: l2) by (rewrite <- Hperm; by left).
      assert (Hy1 : y ∈ x :: l1) by (rewrite Hperm; by left).
      apply elem_of_cons in Hx2 as [?|Hx2]; [done|].
      apply elem_of_cons in Hy1 as [?|Hy1]; [done|].
      rewrite Forall_forall in Hx, Hy.
      specialize (Hx y Hy1). specialize (Hy x Hx2). simpl in *. lia. }
    subst y. f_equal. apply IH; [|done|done].
    by apply Permutation_cons_inv in Hperm.
Qed.

Lemma fold_left_rev {A B : Type} (g : B -> A -> B) (l : list A) (i : B) :
  fold_left g (rev l) i = fold_right (fun y x => g x y) i l.
Proof.
  induction l as [|x l IH]; simpl; [done|].
  by rewrite fold_left_app, IH.
Qed.

(** X22. The changes of a file all refer to the text as it was: when their
    spans lie in the text one behind the other without overlap and start
    at different offsets, then, in whatever order the engine lists them,
    sorting and applying them gives the text in which every span is
    replaced by its new text and everything between the spans is kept. *)
Theorem applyTextChanges_replaces (content : string) (changes ascending : list TextChange) :
  changes ≡ₚ ascending ->
  startsAscend ascending ->
  spansInOrder 0 (Js.strlen content) ascending ->
  applyTextChanges content (sortChanges changes) = replaceSpans content 0 ascending.
Proof.
  intros Hperm Hasc Hspans.
  pose proof (sortChanges_Permutation changes) as Hp.
  pose proof (sortChanges_descend changes) as Hd.
  assert (Hsorted : sortChanges changes = rev ascending).
  { apply descending_unique; [|done|].
    - rewrite Hp, Hperm. apply Permutation_rev.
    - by apply (StronglySorted_rev _ _ Hasc). }
  unfold applyTextChanges. rewrite Hsorted, fold_left_rev.
  rewrite (applyTextChanges_fold content ascending 0) by (done || lia).
  unfold textBetween at 1. simpl. by destruct content.
Qed.

(** ** Workspace switch, further *)

Section SwitchProperties.

Context `{PathOps} {FS : Type} `{!FsOps FS} `{!Engines FS}.

(** X23. Unless its path resolves to an existing directory, the
    [switch_workspace] tool changes nothing: when the path does not exist,
    is not a directory or cannot be examined, every cache and the active
    workspace are what they were and the answer is an error, not a
    success. *)
Theorem switch_workspace_invalid_path (inputPath : string) (st : State FS) :
  existsSync (disk st) (resolve inputPath) = false
  \/ statSync_isDirectory (disk st) (resolve inputPath) <> Some true ->
  snd (switch_workspace inputPath st) = st
  /\ (forall message workspace info,
        fst (switch_workspace inputPath st) <> SwitchSuccess message workspace info)
  /\ (existsSync (disk st) (resolve inputPath) = false
      \/ statSync_isDirectory (disk st) (resolve inputPath) = Some false ->
      fst (switch_workspace inputPath st)
      = SwitchInvalidPath ("'" +:+ inputPath +:+ "' is not a directory.")).
Proof.
  intros Hbad. unfold switch_workspace, bind, gets, ret, throw.
  destruct (existsSync (disk st) (resolve inputPath)) eqn:He; simpl.
  - destruct Hbad as [?|Hstat]; [done|].
    destruct (statSync_isDirectory (disk st) (resolve inputPath)) as [[|]|] eqn:Hs;
      [done| |]; simpl; (split; [done|]); (split; [done|]).
    + done.
    + intros [?|?]; done.
  - split; [done|]. split; [done|]. done.
Qed.

End SwitchProperties.

(** ** The parameter list of a function signature *)

Lemma append_cons (c : ascii) (a b : string) : String c a +:+ b = String c (a +:+ b).
Proof. reflexivity. Qed.

Lemma append_char_assoc (a : string) (c : ascii) (b : string) :
  (a +:+ String c EmptyString) +:+ b = a +:+ String c b.
Proof. induction a as [|x a IH]; [done|]. by rewrite !append_cons, IH. Qed.

Lemma append_empty_r (a : string) : a +:+ EmptyString = a.
Proof. induction a as [|x a IH]; [done|]. by rewrite append_cons, IH. Qed.

(** The loop runs through a text without a comma at depth 0 and takes it
    into [current]. *)
Lemma splitParameters_loop_scan (p : string) : forall depth depth' current parts rest,
  scanDepth p depth = Some depth' ->
  splitParameters_loop (p +:+ rest) depth current parts
  = splitParameters_loop rest depth' (current +:+ p) parts.
Proof.
  induction p as [|c p IH]; intros depth depth' current parts rest Hscan.
  - injection Hscan as <-. by rewrite append_empty_r.
  - rewrite append_cons. cbn [splitParameters_loop scanDepth] in *.
    destruct (Ascii.eqb c "<" || Ascii.eqb c "(").
    { rewrite (IH _ _ _ _ _ Hscan). by rewrite append_char_assoc. }
    destruct (Ascii.eqb c ">" || Ascii.eqb c ")").
    { rewrite (IH _ _ _ _ _ Hscan). by rewrite append_char_assoc. }
    destruct (Ascii.eqb c "," && (depth =? 0)); [discriminate|].
    rewrite (IH _ _ _ _ _ Hscan). by rewrite append_char_assoc.
Qed.

Lemma trimStart_length (s : string) : (String.length (JsText.trimStart s) <= String.length s)%nat.
Proof.
  induction s as [|c s IH]; simpl; [done|].
  destruct (JsText.isWhiteSpace c); simpl; lia.
Qed.

Lemma trimEnd_length (s : string) : (String.length (JsText.trimEnd s) <= String.length s)%nat.
Proof.
  induction s as [|c s IH]; simpl; [done|].
  destruct (JsText.trimEnd s); [destruct (JsText.isWhiteSpace c)|]; simpl in *; lia.
Qed.

(** A trimmed text that is not empty starts with a character that is not
    white space, and so does not trim to nothing, whatever follows it. *)
Lemma trim_part_app (p rest : string) :
  JsText.trim p = p -> p <> EmptyString -> JsText.trim (p +:+ rest) <> EmptyString.
Proof.
  intros Htrim Hne. destruct p as [|c p]; [done|].
  unfold JsText.trim in *. simpl in *.
  destruct (JsText.isWhiteSpace c) eqn:Hws.
  - exfalso. pose proof (trimEnd_length (JsText.trimStart p)) as H1.
    pose proof (trimStart_length p) as H2. rewrite Htrim in H1. simpl in H1. lia.
  - simpl. destruct (JsText.trimEnd (p +:+ rest)); [by rewrite Hws|done].
Qed.

Lemma splitParameters_loop_join ps : forall p current parts,
  current = EmptyString \/ current = " " ->
  isPart p -> Forall isPart ps ->
  exists front last,
    splitParameters_loop (JsText.join ", " (p :: ps)) 0 current parts
    = (parts ++ front, last)
    /\ JsText.trim last <> EmptyString
    /\ front ++ [JsText.trim last] = p :: ps.
Proof.
  induction ps as [|q ps IH]; intros p current parts Hcur (Htrim & Hne & Hscan) Hall.
  - exists [], (current +:+ p). simpl JsText.join.
    rewrite <- (append_empty_r p) at 1.
    rewrite (splitParameters_loop_scan _ _ _ _ _ _ Hscan). simpl.
    rewrite app_nil_r.
    assert (Ht : JsText.trim (current +:+ p) = p) by (by destruct Hcur as [-> | ->]).
    rewrite Ht. done.
  - apply Forall_cons in Hall as [Hq Hall].
    change (JsText.join ", " (p :: q :: ps))
      with (p +:+ String "," (String " " (JsText.join ", " (q :: ps)))).
    rewrite (splitParameters_loop_scan _ _ _ _ _ _ Hscan).
    assert (Ht : JsText.trim (current +:+ p) = p) by (by destruct Hcur as [-> | ->]).
    cbn [splitParameters_loop]. simpl Ascii.eqb. simpl orb. simpl andb.
    cbn [splitParameters_loop]. simpl Ascii.eqb. simpl orb. simpl andb.
    rewrite Ht.
    destruct (IH q (EmptyString +:+ " ") (parts ++ [p]) (or_intror eq_refl) Hq Hall)
      as (front & last & -> & Hlast & Hfront).
    exists (p :: front), last. rewrite <- app_assoc. simpl.
    split; [done|]. split; [done|]. by rewrite Hfront.
Qed.

(** The guard [paramsStr.trim()] holds for parts that are joined. *)
Lemma join_parts_not_blank (p : string) (ps : list string) :
  isPart p -> JsText.trim (JsText.join ", " (p :: ps)) <> EmptyString.
Proof.
  intros (Htrim & Hne & _). destruct ps as [|q ps].
  - rewrite <- (append_empty_r p). by apply trim_part_app.
  - change (JsText.join ", " (p :: q :: ps))
      with (p +:+ String "," (String " " (JsText.join ", " (q :: ps)))).
    by apply trim_part_app.
Qed.

(** X24. Cutting the parameter text at its commas undoes joining: for
    parts that are trimmed and not empty, in which the brackets [<], [(],
    [>], [)] are in balance and commas stand only inside of brackets,
    [splitParameters] gives back the parts joined by a comma and a space,
    in their order. *)
Theorem splitParameters_join (p : string) (ps : list string) :
  isPart p -> Forall isPart ps ->
  splitParameters (JsText.join ", " (p :: ps)) = p :: ps.
Proof.
  intros Hp Hps. unfold splitParameters.
  pose proof (join_parts_not_blank p ps Hp) as Hguard.
  apply String.eqb_neq in Hguard. rewrite Hguard.
  destruct (splitParameters_loop_join ps p EmptyString [] (or_introl eq_refl) Hp Hps)
    as (front & last & -> & Hlast & Hfront).
  apply String.eqb_neq in Hlast. rewrite Hlast. exact Hfront.
Qed.

(** X25. The bracket depth of the loop is a plain counter: every [>] and
    [)] lowers it, also below 0, and only a comma met at depth exactly 0
    separates. A parameter text that is scanned from depth 0 to its end
    without a comma at depth 0 comes back as one part, so the commas
    behind a bracket that is left open, or behind a [>] that closes
    nothing, separate nothing. *)
Theorem splitParameters_no_top_comma (paramsStr : string) (depth : Z) :
  scanDepth paramsStr 0 = Some depth ->
  JsText.trim paramsStr <> EmptyString ->
  splitParameters paramsStr = [JsText.trim paramsStr].
Proof.
  intros Hscan Hne. unfold splitParameters.
  apply String.eqb_neq in Hne. rewrite Hne.
  pose proof (splitParameters_loop_scan paramsStr 0 depth EmptyString [] EmptyString Hscan)
    as Hloop.
  rewrite append_empty_r in Hloop.
  change (splitParameters_loop EmptyString depth (EmptyString +:+ paramsStr) [])
    with (@nil string, paramsStr) in Hloop.
  rewrite Hloop. cbv beta iota zeta. by rewrite Hne.
Qed.

Lemma includes_step (c : ascii) (s sub : string) :
  JsText.includes (String c s) sub = String.prefix sub (String c s) || JsText.includes s sub.
Proof. reflexivity. Qed.

Lemma includes_suffix (a b sub : string) :
  JsText.includes (a +:+ b) sub = false -> JsText.includes b sub = false.
Proof.
  induction a as [|c a IH]; [done|]. rewrite append_cons, includes_step.
  intros Hf. apply orb_false_iff in Hf as [_ Hf]. by apply IH.
Qed.

Lemma prefix_colon (c : ascii) (s : string) :
  String.prefix ":" (String c s) = false -> Ascii.eqb c ":" = false.
Proof.
  intros Hp. destruct (Ascii.eqb_spec c ":") as [->|]; [|done].
  by destruct s.
Qed.

Lemma prefix_mark (c : ascii) (s : string) :
  String.prefix "?:" (String "?" (String c s)) = false -> Ascii.eqb c ":" = false.
Proof.
  intros Hp. destruct (Ascii.eqb_spec c ":") as [->|]; [|done].
  by destruct s.
Qed.

(** A question mark that does not open the separator goes to the piece. *)
Lemma splitOnColon_question (s current : string) :
  String.prefix "?:" (String "?" s) = false ->
  splitOnColon (String "?" s) current = splitOnColon s (current +:+ "?").
Proof.
  intros Hm. destruct s as [|c' tail]; [done|].
  cbn [splitOnColon]. change (Ascii.eqb "?" "?") with true. cbv iota.
  by rewrite (prefix_mark _ _ Hm).
Qed.

(** So does every other character but the colon. *)
Lemma splitOnColon_other (c : ascii) (s current : string) :
  Ascii.eqb c "?" = false -> Ascii.eqb c ":" = false ->
  splitOnColon (String c s) current = splitOnColon s (current +:+ String c EmptyString).
Proof. intros Hq Hc. cbn [splitOnColon]. by rewrite Hq, Hc. Qed.

Lemma splitOnColon_nonempty (s : string) : forall current, splitOnColon s current <> [].
Proof.
  induction s as [|c s IH]; intros current; [done|]. cbn [splitOnColon].
  destruct (Ascii.eqb c "?").
  - destruct s as [|c' s']; [done|].
    destruct (Ascii.eqb c' ":"); [done|apply IH].
  - destruct (Ascii.eqb c ":"); [done|apply IH].
Qed.

Lemma join_cons (sep x : string) (xs : list string) :
  xs <> [] -> JsText.join sep (x :: xs) = x +:+ sep +:+ JsText.join sep xs.
Proof. destruct xs; done. Qed.

(** The split walks through a name without colon that is not followed by
    the separator. *)
Lemma splitOnColon_name (n : string) : forall rest current,
  JsText.includes n ":" = false ->
  JsText.includes (n +:+ rest) "?:" = false ->
  splitOnColon (n +:+ rest) current = splitOnColon rest (current +:+ n).
Proof.
  induction n as [|c n IH]; intros rest current Hcolon Hmark.
  - by rewrite append_empty_r.
  - rewrite append_cons in *.
    rewrite includes_step in Hcolon, Hmark.
    apply orb_false_iff in Hcolon as [Hc Hcolon].
    apply orb_false_iff in Hmark as [Hm Hmark].
    apply prefix_colon in Hc.
    destruct (Ascii.eqb_spec c "?") as [->|Hq].
    + rewrite (splitOnColon_question _ _ Hm), IH by done.
      by rewrite append_char_assoc.
    + apply Ascii.eqb_neq in Hq.
      rewrite (splitOnColon_other _ _ _ Hq Hc), IH by done.
      by rewrite append_char_assoc.
Qed.

(** The split cuts at the first [?:] behind a name without colon. *)
Lemma splitOnColon_optional (n : string) : forall rest current,
  JsText.includes n ":" = false ->
  splitOnColon (n +:+ String "?" (String ":" rest)) current
  = (current +:+ n) :: splitOnColon rest EmptyString.
Proof.
  induction n as [|c n IH]; intros rest current Hcolon.
  - by rewrite append_empty_r.
  - rewrite append_cons.
    rewrite includes_step in Hcolon. apply orb_false_iff in Hcolon as [Hc Hcolon].
    apply prefix_colon in Hc.
    destruct (Ascii.eqb_spec c "?") as [->|Hq].
    + rewrite splitOnColon_question.
      * rewrite IH by done. by rewrite append_char_assoc.
      * destruct n as [|c' n']; [done|]. rewrite append_cons.
        rewrite includes_step in Hcolon. apply orb_false_iff in Hcolon as [Hp _].
        apply prefix_colon in Hp. cbn [String.prefix].
        destruct (Ascii.ascii_dec "?" "?"); [|done].
        destruct (Ascii.ascii_dec ":" c') as [<-|]; [done|done].
    + apply Ascii.eqb_neq in Hq.
      rewrite (splitOnColon_other _ _ _ Hq Hc), IH by done.
      by rewrite append_char_assoc.
Qed.

(** Joining the pieces of a text without [?:] by colons gives the text
    back. *)
Lemma join_splitOnColon (t : string) : forall current,
  JsText.includes t "?:" = false ->
  JsText.join ":" (splitOnColon t current) = current +:+ t.
Proof.
  induction t as [|c t IH]; intros current Hmark; [by rewrite append_empty_r|].
  rewrite includes_step in Hmark. apply orb_false_iff in Hmark as [Hm Hmark].
  destruct (Ascii.eqb_spec c "?") as [->|Hq].
  - rewrite (splitOnColon_question _ _ Hm), IH by done.
    by rewrite append_char_assoc.
  - apply Ascii.eqb_neq in Hq. destruct (Ascii.eqb_spec c ":") as [->|Hc].
    + cbn [splitOnColon]. rewrite Hq. change (Ascii.eqb ":" ":") with true. cbv iota.
      rewrite join_cons by apply splitOnColon_nonempty.
      rewrite IH by done. done.
    + apply Ascii.eqb_neq in Hc.
      rewrite (splitOnColon_other _ _ _ Hq Hc), IH by done.
      by rewrite append_char_assoc.
Qed.

Lemma includes_colon_of_mark (s : string) :
  JsText.includes s ":" = false -> JsText.includes s "?:" = false.
Proof.
  induction s as [|c s IH]; [done|]. rewrite !includes_step.
  intros Hf. apply orb_false_iff in Hf as [Hp Hf].
  rewrite (IH Hf), orb_false_r. cbn [String.prefix].
  destruct (Ascii.ascii_dec "?" c) as [<-|]; [|done].
  destruct s as [|c' s']; [done|]. cbn [String.prefix].
  destruct (Ascii.ascii_dec ":" c') as [<-|]; [|done].
  rewrite includes_step in Hf. apply orb_false_iff in Hf as [Hf _]. by destruct s'.
Qed.

(** X26. What is made of one parameter: a text [name: type] without any
    [?:] gives the trimmed name, the trimmed type and [optional = false];
    a text [name?: type] gives the same name and type with
    [optional = true]; a text without a colon gives its trimmed self as
    the name and the type [any]. The name is free of colons, the type is
    not blank and, in the second form, free of [?:]. *)
Theorem parseParameter_forms (n t : string) :
  JsText.includes n ":" = false ->
  (JsText.trim t <> EmptyString ->
   JsText.includes (n +:+ ": " +:+ t) "?:" = false ->
   parseParameter (n +:+ ": " +:+ t)
   = {| param_name := JsText.trim n; param_type := JsText.trim t;
        param_optional := false |})
  /\ (JsText.trim t <> EmptyString ->
      JsText.includes t "?:" = false ->
      parseParameter (n +:+ "?: " +:+ t)
      = {| param_name := JsText.trim n; param_type := JsText.trim t;
           param_optional := true |})
  /\ parseParameter n
     = {| param_name := JsText.trim n; param_type := "any"; param_optional := false |}.
Proof.
  intros Hcolon. split; [|split].
  - intros Ht Hmark. unfold parseParameter.
    rewrite Hmark, (splitOnColon_name n _ _ Hcolon Hmark).
    change (": " +:+ t) with (String ":" (String " " t)) in *.
    pose proof (includes_suffix n _ _ Hmark) as Hrest.
    rewrite includes_step in Hrest. apply orb_false_iff in Hrest as [_ Hrest].
    rewrite includes_step in Hrest. apply orb_false_iff in Hrest as [_ Htm].
    cbn [splitOnColon]. change (Ascii.eqb ":" "?") with false.
    change (Ascii.eqb ":" ":") with true. change (Ascii.eqb " " "?") with false.
    change (Ascii.eqb " " ":") with false. cbv iota.
    rewrite (join_splitOnColon t _ Htm).
    change (JsText.trim ((EmptyString +:+ " ") +:+ t)) with (JsText.trim t).
    change (EmptyString +:+ n) with n.
    apply String.eqb_neq in Ht. by rewrite Ht.
  - intros Ht Hmark. unfold parseParameter.
    change (n +:+ "?: " +:+ t) with (n +:+ String "?" (String ":" (String " " t))).
    rewrite (splitOnColon_optional n _ _ Hcolon).
    assert (Hopt : JsText.includes (n +:+ String "?" (String ":" (String " " t))) "?:"
                   = true).
    { clear. induction n as [|c n IH]; [done|].
      rewrite append_cons, includes_step, IH. apply orb_true_r. }
    rewrite Hopt.
    cbn [splitOnColon]. change (Ascii.eqb " " "?") with false.
    change (Ascii.eqb " " ":") with false. cbv iota.
    rewrite (join_splitOnColon t _ Hmark).
    change (JsText.trim ((EmptyString +:+ " ") +:+ t)) with (JsText.trim t).
    change (EmptyString +:+ n) with n.
    apply String.eqb_neq in Ht. by rewrite Ht.
  - unfold parseParameter.
    pose proof (includes_colon_of_mark n Hcolon) as Hmark.
    rewrite Hmark.
    replace (splitOnColon n EmptyString) with (splitOnColon (n +:+ EmptyString) EmptyString)
      by (by rewrite append_empty_r).
    rewrite (splitOnColon_name n EmptyString EmptyString Hcolon)
      by (by rewrite append_empty_r).
    done.
Qed.

(** ** The parameter text of a display string *)

Lemma prefix_char (x c : ascii) (s : string) :
  String.prefix (String x EmptyString) (String c s) = Ascii.eqb c x.
Proof.
  cbn [String.prefix]. destruct (Ascii.ascii_dec x c) as [<-|Hne].
  - rewrite Ascii.eqb_refl. by destruct s.
  - symmetry. apply Ascii.eqb_neq. congruence.
Qed.

Lemma includes_char_cons (x c : ascii) (s : string) :
  JsText.includes (String c s) (String x EmptyString)
  = Ascii.eqb c x || JsText.includes s (String x EmptyString).
Proof. by rewrite includes_step, prefix_char. Qed.

Lemma includes_char_app (x : ascii) (a b : string) :
  JsText.includes (a +:+ b) (String x EmptyString)
  = JsText.includes a (String x EmptyString) || JsText.includes b (String x EmptyString).
Proof.
  induction a as [|c a IH]; [done|].
  by rewrite append_cons, !includes_char_cons, IH, orb_assoc.
Qed.

Lemma upToClose_some (s group : string) :
  upToClose s = Some group <->
  exists post, s = group +:+ String ")" post /\ JsText.includes group ")" = false.
Proof.
  revert group. induction s as [|c s IH]; intros group; cbn [upToClose].
  - split; [done|]. intros (post & Hs & _). by destruct group.
  - destruct (Ascii.eqb_spec c ")") as [->|Hc].
    + split.
      * intros [= <-]. by exists s.
      * intros (post & Hs & Hg). destruct group as [|g group]; [done|].
        rewrite append_cons in Hs. injection Hs as <- _.
        by rewrite includes_char_cons in Hg.
    + split.
      * destruct (upToClose s) as [g|] eqn:Hup; [|done]. intros [= <-].
        destruct (proj1 (IH g) eq_refl) as (post & -> & Hg).
        exists post. split; [done|]. rewrite includes_char_cons, Hg.
        apply Ascii.eqb_neq in Hc. by rewrite Hc.
      * intros (post & Hs & Hg). destruct group as [|g group].
        { injection Hs as -> _. done. }
        rewrite append_cons in Hs. injection Hs as <- ->.
        rewrite includes_char_cons in Hg. apply orb_false_iff in Hg as [_ Hg].
        assert (Hup : upToClose (group +:+ String ")" post) = Some group)
          by (apply IH; by exists post).
        by rewrite Hup.
Qed.

Lemma upToClose_none (s : string) :
  upToClose s = None <-> JsText.includes s ")" = false.
Proof.
  induction s as [|c s IH]; [done|]. cbn [upToClose]. rewrite includes_char_cons.
  destruct (Ascii.eqb c ")"); [done|]. simpl orb.
  destruct (upToClose s); simpl; [|tauto].
  split; [done|]. intros Hf. apply IH in Hf. done.
Qed.

Lemma paramsMatch_none (s : string) :
  JsText.includes s ")" = false -> paramsMatch s = None.
Proof.
  induction s as [|c s IH]; [done|]. rewrite includes_char_cons.
  intros Hf. apply orb_false_iff in Hf as [_ Hf]. cbn [paramsMatch].
  rewrite (proj2 (upToClose_none s) Hf), (IH Hf). by destruct (Ascii.eqb c "(").
Qed.

(** The group the pattern gives is the text between the first [(] and the
    first [)] behind it. *)
Lemma paramsMatch_found (pre group post : string) :
  JsText.includes pre "(" = false ->
  JsText.includes group ")" = false ->
  paramsMatch (pre +:+ String "(" (group +:+ String ")" post)) = Some group.
Proof.
  intros Hpre Hg. induction pre as [|c pre IH].
  - change (EmptyString +:+ String "(" (group +:+ String ")" post))
      with (String "(" (group +:+ String ")" post)).
    cbn [paramsMatch]. change (Ascii.eqb "(" "(") with true. cbv iota.
    assert (Hup : upToClose (group +:+ String ")" post) = Some group)
      by (apply upToClose_some; by exists post).
    by rewrite Hup.
  - rewrite includes_char_cons in Hpre. apply orb_false_iff in Hpre as [Hc Hpre].
    rewrite append_cons. cbn [paramsMatch]. rewrite Hc. by apply IH.
Qed.

Lemma paramsMatch_inv (displayString : string) : forall group,
  paramsMatch displayString = Some group ->
  exists pre post,
    displayString = pre +:+ String "(" (group +:+ String ")" post)
    /\ JsText.includes pre "(" = false
    /\ JsText.includes group ")" = false.
Proof.
  induction displayString as [|c d IH]; intros group; [done|].
  cbn [paramsMatch]. destruct (Ascii.eqb c "(") eqn:Hc.
  - apply Ascii.eqb_eq in Hc as ->. destruct (upToClose d) as [g|] eqn:Hup.
    + apply upToClose_some in Hup as (post & -> & Hg).
      intros [= <-]. by exists EmptyString, post.
    + apply upToClose_none in Hup. by rewrite (paramsMatch_none _ Hup).
  - intros Hm. destruct (IH _ Hm) as (pre & post & -> & Hpre & Hg).
    exists (String c pre), post.
    split; [done|]. split; [|done]. by rewrite includes_char_cons, Hc.
Qed.

(** X27. The parameter text is found by the pattern of [paramsMatch]: the
    match gives a group exactly when the display string is some text
    without [(], a [(], the group, which is without [)], a [)] and a rest.
    So the text runs from the first [(] to the first [)] behind it, and a
    parenthesis inside of the parameters ends it. *)
Theorem paramsMatch_spec (displayString group : string) :
  paramsMatch displayString = Some group <->
  exists pre post,
    displayString = pre +:+ String "(" (group +:+ String ")" post)
    /\ JsText.includes pre "(" = false
    /\ JsText.includes group ")" = false.
Proof.
  split; [apply paramsMatch_inv|].
  intros (pre & post & -> & Hpre & Hg). by apply paramsMatch_found.
Qed.

Lemma join_no_close (ps : list string) : forall p,
  Forall (fun q => JsText.includes q ")" = false) (p :: ps) ->
  JsText.includes (JsText.join ", " (p :: ps)) ")" = false.
Proof.
  induction ps as [|q ps IH]; intros p Hall.
  - by apply Forall_cons in Hall as [Hp _].
  - apply Forall_cons in Hall as [Hp Hall].
    change (JsText.join ", " (p :: q :: ps))
      with (p +:+ String "," (String " " (JsText.join ", " (q :: ps)))).
    rewrite includes_char_app, Hp, !includes_char_cons, (IH q Hall). done.
Qed.

(** X28. From the display string to the parameters: for a display string
    that has no [(] in front of its parameter list, and parameters that
    are parts without [)], joined by a comma and a space, the
    [parameters] of [getFunctionSignature] are the parts, each one parsed,
    in their order, whatever follows the closing parenthesis. *)
Theorem signatureParameters_join (pre post p : string) (ps : list string) :
  JsText.includes pre "(" = false ->
  Forall isPart (p :: ps) ->
  Forall (fun q => JsText.includes q ")" = false) (p :: ps) ->
  signatureParameters (pre +:+ String "(" (JsText.join ", " (p :: ps) +:+ String ")" post))
  = map parseParameter (p :: ps).
Proof.
  intros Hpre Hparts Hclose. unfold signatureParameters, paramsStrOf.
  assert (Hm : paramsMatch (pre +:+ String "(" (JsText.join ", " (p :: ps) +:+ String ")" post))
               = Some (JsText.join ", " (p :: ps))).
  { apply paramsMatch_found; [done|]. by apply join_no_close. }
  rewrite Hm. unfold parseParameters, splitParameters. f_equal.
  apply Forall_cons in Hparts as [Hp Hps].
  pose proof (join_parts_not_blank p ps Hp) as Hguard.
  apply String.eqb_neq in Hguard. rewrite Hguard.
  destruct (splitParameters_loop_join ps p EmptyString [] (or_introl eq_refl) Hp Hps)
    as (front & last & -> & Hlast & Hfront).
  apply String.eqb_neq in Hlast. rewrite Hlast. exact Hfront.
Qed.

(** * Runs on the concrete environment *)

Import Fixture.

Lemma updateDocument_overlay_witness :
  documentVersions (initialState disk0) !! resolve "/p/src/a.ts" = None
  /\ exists st',
      updateDocument "/p/src/a.ts" "export const a = 2;" (initialState disk0) = Ok tt st'
      /\ getFileContent "/p/src/a.ts" st' = Ok "export const a = 2;" st'
      /\ storedVersion st' "/p/src/a.ts" = 1.
Proof.
  split; [reflexivity|].
  destruct (updateDocument_overlay
              "/p/src/a.ts" "export const a = 2;" (initialState disk0))
    as (st' & Hupd & Hget & _ & Hfirst & _).
  exists st'. split; [exact Hupd|]. split; [exact Hget|].
  exact (proj2 (Hfirst eq_refl)).
Defined.

(** The walk from [/p/src/a.ts] ends at [/p], the walk from
    [/scratch/notes/c.ts] at the filesystem root. *)
Lemma findProjectRoot_nearest_below_root_witness :
  findProjectRoot disk0 "/p/src/a.ts" = "/p"
  /\ findProjectRoot disk0 "/scratch/notes/c.ts" = "/scratch/notes".
Proof.
  split.
  - change (findProjectRoot disk0 "/p/src/a.ts" = ancestor 1 (dirname "/p/src/a.ts")).
    apply (proj1 (findProjectRoot_nearest_below_root disk0 "/p/src/a.ts") 1%nat).
    + intros j Hj. assert (j = 0%nat) as -> by lia. reflexivity.
    + reflexivity.
    + vm_compute. discriminate.
  - change (findProjectRoot disk0 "/scratch/notes/c.ts" = dirname "/scratch/notes/c.ts").
    apply (proj1 (proj2 (findProjectRoot_nearest_below_root disk0 "/scratch/notes/c.ts")) 2%nat).
    + intros j Hj.
      assert (j = 0%nat \/ j = 1%nat) as [-> | ->] by lia; reflexivity.
    + reflexivity.
Defined.

(** The claim C6 as it is worded fails where the only marker is in the
    filesystem root: the root is the nearest marked directory above
    [/scratch/notes/c.ts], and [findProjectRoot] returns the directory of
    the file. *)
Lemma findProjectRoot_skips_filesystem_root :
  nearestMarked disk0 "/scratch/notes/c.ts" "/"
  /\ findProjectRoot disk0 "/scratch/notes/c.ts" <> "/".
Proof.
  split.
  - exists 2%nat. split; [reflexivity|]. split; [reflexivity|].
    intros j Hj. assert (j = 0%nat \/ j = 1%nat) as [-> | ->] by lia; reflexivity.
  - vm_compute. discriminate.
Qed.

(** [/p] has its own engine, [/q] has none and [/r] has one that does not
    load; an overlay write keeps the binding of [/p]. *)
Lemma getTypeScriptForProject_resolution_witness :
  (exists b st', getTypeScriptForProject "/p" (initialState disk0) = Ok b st'
                 /\ source b = project /\ ts_version b = "4.9.5")
  /\ (exists b st', getTypeScriptForProject "/q" (initialState disk0) = Ok b st'
                    /\ source b = bundled /\ ts_version b = "5.9.3")
  /\ (exists b st', getTypeScriptForProject "/r" (initialState disk0) = Ok b st'
                    /\ source b = bundled /\ ts_version b = "5.9.3")
  /\ tsModuleCache (stateOf (updateDocument "/p/src/a.ts" "let a;" twoSessions))
     = tsModuleCache twoSessions.
Proof.
  assert (Hfresh : forall root, tsModuleCache (initialState disk0) !! root = None)
    by (intros root; apply lookup_empty).
  assert (HpDir : existsSync (disk (initialState disk0))
                    (join3 "/p" "node_modules" "typescript") = true)
    by (vm_compute; reflexivity).
  assert (HpLoad : requireTypeScript (disk (initialState disk0)) (join "/p" "package.json")
                   = Some (standInTs "4.9.5"))
    by (vm_compute; reflexivity).
  assert (HqDir : existsSync (disk (initialState disk0))
                    (join3 "/q" "node_modules" "typescript") = false)
    by (vm_compute; reflexivity).
  assert (HrLoad : requireTypeScript (disk (initialState disk0)) (join "/r" "package.json")
                   = None)
    by (vm_compute; reflexivity).
  split; [|split; [|split]].
  - destruct (proj1 (proj2 (getTypeScriptForProject_resolution "/p" (initialState disk0)))
                (standInTs "4.9.5") (Hfresh "/p") HpDir HpLoad)
      as (b & st' & Hrun & Hsrc & Hts & Hver).
    exists b, st'. split; [exact Hrun|]. split; [exact Hsrc|]. exact Hver.
  - destruct (proj1 (proj2 (proj2 (getTypeScriptForProject_resolution "/q" (initialState disk0))))
                (Hfresh "/q") (or_introl HqDir))
      as (b & st' & Hrun & Hsrc & Hts & Hver).
    exists b, st'. split; [exact Hrun|]. split; [exact Hsrc|]. exact Hver.
  - destruct (proj1 (proj2 (proj2 (getTypeScriptForProject_resolution "/r" (initialState disk0))))
                (Hfresh "/r") (or_intror HrLoad))
      as (b & st' & Hrun & Hsrc & Hts & Hver).
    exists b, st'. split; [exact Hrun|]. split; [exact Hsrc|]. exact Hver.
  - exact (proj2 (proj2 (proj2 (getTypeScriptForProject_resolution "/p" twoSessions)))
             "/p/src/a.ts" "let a;").
Defined.

(** With a session and a binding cached for [/p] and for [/q], a switch to
    [/q] leaves none. *)
Lemma switch_workspace_evicts_all_witness :
  (is_Some (serviceCache twoSessions !! "/p") /\ is_Some (serviceCache twoSessions !! "/q")
   /\ is_Some (tsModuleCache twoSessions !! "/p") /\ is_Some (tsModuleCache twoSessions !! "/q"))
  /\ existsSync (disk twoSessions) (resolve "/q") = true
  /\ statSync_isDirectory (disk twoSessions) (resolve "/q") = Some true
  /\ exists message info st',
      switch_workspace "/q" twoSessions = (SwitchSuccess message "/q" info, st')
      /\ serviceCache st' = ∅ /\ tsModuleCache st' = ∅.
Proof.
  assert (He : existsSync (disk twoSessions) (resolve "/q") = true)
    by (vm_compute; reflexivity).
  assert (Hd : statSync_isDirectory (disk twoSessions) (resolve "/q") = Some true)
    by (vm_compute; reflexivity).
  split; [vm_compute; eauto 10|].
  split; [exact He|]. split; [exact Hd|].
  destruct (switch_workspace_evicts_all "/q" twoSessions He Hd)
    as (message & info & st' & Hrun & Hs & Ht & _).
  exists message, info, st'. split; [exact Hrun|]. split; [exact Hs|exact Ht].
Defined.

(** Writing to the disk in memory removes nothing from it. *)
Lemma memFs_write_keeps (q : string) (fs : MemDisk) (p c : string) (fs' : MemDisk) :
  writeFileSync fs p c = Some fs' -> existsSync fs q = true -> existsSync fs' q = true.
Proof.
  simpl. destruct (JsMap.has (mem_dirs fs) p); [discriminate|].
  intros [= <-]. simpl. rewrite !orb_true_iff. intros [Hf|Hd]; [left|by right].
  unfold JsMap.has in *. destruct (decide (p = q)) as [->|Hne].
  - by rewrite JsMap_get_set_eq.
  - by rewrite JsMap_get_set_ne.
Qed.

(** The changes create [/q/c.ts] and edit [/q/b.ts]; nothing is reported
    deleted and [/q/package.json] is still there. *)
Lemma applyFileChanges_deleted_empty_witness :
  (exists st', applyFileChanges someChanges twoSessions
               = Ok {| changedFiles := ["/q/b.ts"]; created := ["/q/c.ts"]; deleted := [] |} st'
               /\ readFileSync (disk st') "/q/b.ts" = Some "export const b = 4;")
  /\ existsSync (disk twoSessions) "/q/package.json" = true
  /\ existsSync (disk (stateOf (applyFileChanges someChanges twoSessions))) "/q/package.json"
     = true.
Proof.
  assert (He : existsSync (disk twoSessions) "/q/package.json" = true)
    by (vm_compute; reflexivity).
  split; [eexists; split; vm_compute; reflexivity|].
  split; [exact He|].
  exact (proj2 (applyFileChanges_deleted_empty someChanges twoSessions) "/q/package.json"
           (memFs_write_keeps "/q/package.json") He).
Defined.

(** A query on [/p/src/a.ts] while [/q] has a session: the session of [/q]
    stays, the one of [/p] is a new object. *)
Lemma getServiceForFile_frame_witness :
  "/q" <> findProjectRoot (disk twoSessions) (resolve "/p/src/a.ts")
  /\ is_Some (serviceCache twoSessions !! "/q")
  /\ exists svc st',
      getServiceForFile "/p/src/a.ts" twoSessions = Ok (svc, "/p/src/a.ts", "/p") st'
      /\ serviceCache st' !! "/q" = serviceCache twoSessions !! "/q"
      /\ serviceCache st' !! "/p" = Some svc
      /\ service_id svc = 2%nat.
Proof.
  assert (Hne : "/q" <> findProjectRoot (disk twoSessions) (resolve "/p/src/a.ts"))
    by (vm_compute; discriminate).
  split; [exact Hne|]. split; [vm_compute; eauto|].
  destruct (getServiceForFile_frame "/p/src/a.ts" "/q" twoSessions Hne
              getServiceForFile (or_introl eq_refl))
    as (svc & st' & Hrun & Hp & Hid & _ & Hq & _).
  exists svc, st'. split; [exact Hrun|]. split; [exact Hq|]. split; [exact Hp|exact Hid].
Defined.

(** The overlay of [/p/notes.md] lies under [/p] and is not reported, the
    accessed file is. *)
Lemma getScriptFileNames_scope_witness :
  getScriptFileNames hostOfP overlaidNotes = ["/p/src/a.ts"]
  /\ "/p/src/a.ts" ∈ accessedFiles overlaidNotes (host_projectRoot hostOfP)
  /\ "/p/src/a.ts" ∈ getScriptFileNames hostOfP overlaidNotes.
Proof.
  split; [vm_compute; reflexivity|].
  assert (Hacc : "/p/src/a.ts" ∈ accessedFiles overlaidNotes (host_projectRoot hostOfP))
    by (vm_compute; apply list_elem_of_here).
  split; [exact Hacc|].
  exact (proj1 (proj2 (proj2 (getScriptFileNames_scope hostOfP overlaidNotes)))
           "/p/src/a.ts" Hacc).
Defined.

(** The claim C2 as it is worded fails: [/p/notes.md] is overlaid and lies
    under the root [/p], yet the host of [/p] does not report it. *)
Lemma getScriptFileNames_not_I1 :
  ~ (forall f, f ∈ getScriptFileNames hostOfP overlaidNotes
               <-> inScopeI1 hostOfP overlaidNotes f).
Proof.
  intros Hall.
  assert (Hin : inScopeI1 hostOfP overlaidNotes "/p/notes.md").
  { right. left. split; vm_compute; reflexivity. }
  apply Hall in Hin. apply list_elem_of_In in Hin. vm_compute in Hin.
  destruct Hin as [Heq|[]]. discriminate.
Qed.

(** The session of [/p]: an error is recorded, the scan finds
    [/p/types.d.ts], and the root files are empty. *)
Lemma getLanguageService_malformed_config_witness :
  serviceCache (initialState disk0) !! "/p" = None
  /\ existsSync disk0 (join "/p" "tsconfig.json") = true
  /\ findDeclarationFiles disk0 "/p" = ["/p/types.d.ts"]
  /\ exists svc st' cfg,
      getLanguageService "/p" (initialState disk0) = Ok svc st'
      /\ configCache st' !! "/p" = Some cfg
      /\ cfg_errors cfg <> []
      /\ cfg_fileNames cfg = []
      /\ host_rootFiles (service_host svc) = []
      /\ cfg_declarationFiles cfg = ["/p/types.d.ts"].
Proof.
  assert (Hnone : serviceCache (initialState disk0) !! "/p" = None)
    by apply lookup_empty.
  assert (He : existsSync (disk (initialState disk0)) (join "/p" "tsconfig.json") = true)
    by (vm_compute; reflexivity).
  split; [exact Hnone|]. split; [exact He|]. split; [vm_compute; reflexivity|].
  assert (Hbad : forall b st1,
    getTypeScriptForProject "/p" (initialState disk0) = Ok b st1 ->
    error (readConfigFile (ts b) (disk (initialState disk0)) (join "/p" "tsconfig.json"))
    <> None).
  { intros b st1 Hrun. vm_compute in Hrun. injection Hrun as <- _. discriminate. }
  destruct (getLanguageService_malformed_config "/p" (initialState disk0)
              Hnone He Hbad)
    as (svc & st' & cfg & Hrun & Hcfg & Herr & Hfiles & Hroot & Hdts).
  exists svc, st', cfg. repeat (split; [assumption|]). exact Hdts.
Defined.

(** ** Runs of the further properties *)

(** An overlay write for [/q/b.ts] drops the session of [/q] and keeps the
    one of [/p]. *)
Lemma updateDocument_invalidates_witness :
  "/p" <> findProjectRoot (disk twoSessions) (resolve "/q/b.ts")
  /\ is_Some (serviceCache twoSessions !! "/q")
  /\ serviceCache (stateOf (updateDocument "/q/b.ts" "let b;" twoSessions))
       !! findProjectRoot (disk twoSessions) (resolve "/q/b.ts") = None
  /\ serviceCache (stateOf (updateDocument "/q/b.ts" "let b;" twoSessions)) !! "/p"
     = serviceCache twoSessions !! "/p".
Proof.
  assert (Hne : "/p" <> findProjectRoot (disk twoSessions) (resolve "/q/b.ts"))
    by (vm_compute; discriminate).
  split; [exact Hne|]. split; [vm_compute; eauto|].
  destruct (updateDocument_invalidates "/q/b.ts" "let b;" twoSessions) as (Hq & Hp & _).
  split; [exact Hq|]. exact (Hp "/p" Hne).
Defined.

Lemma updateDocument_frame_witness :
  "/p/notes.md" <> resolve "/q/b.ts"
  /\ storedVersion (stateOf (updateDocument "/q/b.ts" "let b;" overlaidNotes)) "/p/notes.md"
     = storedVersion overlaidNotes "/p/notes.md"
  /\ JsMap.get (documentContents (stateOf (updateDocument "/q/b.ts" "let b;" overlaidNotes)))
       "/p/notes.md" = Some "remember".
Proof.
  assert (Hne : "/p/notes.md" <> resolve "/q/b.ts") by (vm_compute; discriminate).
  split; [exact Hne|].
  destruct (updateDocument_frame "/q/b.ts" "let b;" "/p/notes.md" overlaidNotes Hne)
    as (Hget & Hver & _).
  split; [exact Hver|]. rewrite Hget. vm_compute. reflexivity.
Defined.

Lemma updateDocument_each_spec_witness :
  last ["one"; "two"; "three"] = Some "three"
  /\ storedVersion (updateDocument_each "/q/b.ts" ["one"; "two"; "three"] (initialState disk0))
       (resolve "/q/b.ts") = 3
  /\ getFileContent "/q/b.ts"
       (updateDocument_each "/q/b.ts" ["one"; "two"; "three"] (initialState disk0))
     = Ok "three" (updateDocument_each "/q/b.ts" ["one"; "two"; "three"] (initialState disk0)).
Proof.
  split; [reflexivity|].
  destruct (updateDocument_each_spec "/q/b.ts" ["one"; "two"; "three"] (initialState disk0))
    as (Hver & Hlast).
  split; [rewrite Hver; reflexivity|].
  exact (proj1 (Hlast "three" eq_refl)).
Defined.

(** The host of [/p], built before the write, lists the new overlay
    [/p/src/new.ts]. *)
Lemma updateDocument_live_witness :
  isOpenFileOf (host_projectRoot hostOfP) (resolve "/p/src/new.ts") = true
  /\ resolve "/p/src/new.ts"
     ∈ getScriptFileNames hostOfP
         (stateOf (updateDocument "/p/src/new.ts" "export {};" overlaidNotes)).
Proof.
  assert (Hopen : isOpenFileOf (host_projectRoot hostOfP) (resolve "/p/src/new.ts") = true)
    by (vm_compute; reflexivity).
  split; [exact Hopen|].
  exact (proj2 (updateDocument_live "/p/src/new.ts" "export {};" overlaidNotes) hostOfP Hopen).
Defined.

Lemma registerFile_set_witness :
  NoDup (accessedFiles twoSessions "/p")
  /\ "/p/src/a.ts" ∈ accessedFiles twoSessions "/p"
  /\ "/p/src/a.ts" ∈ accessedFiles (stateOf (registerFile "/p" "/p/x.ts" twoSessions)) "/p"
  /\ NoDup (accessedFiles (stateOf (registerFile "/p" "/p/x.ts" twoSessions)) "/p")
  /\ accessedFilesPerProject (stateOf (registerFile "/p" "/p/x.ts" twoSessions)) !! "/q"
     = accessedFilesPerProject twoSessions !! "/q".
Proof.
  assert (Hnd : NoDup (accessedFiles twoSessions "/p"))
    by (vm_compute; apply NoDup_singleton).
  assert (Hin : "/p/src/a.ts" ∈ accessedFiles twoSessions "/p")
    by (vm_compute; apply list_elem_of_here).
  destruct (registerFile_set "/p" "/p/x.ts" twoSessions) as (Hiff & Hkeep & _ & Hother & _).
  split; [exact Hnd|]. split; [exact Hin|].
  split; [apply Hiff; right; exact Hin|]. split; [exact (Hkeep Hnd)|].
  apply Hother. discriminate.
Defined.

Lemma getLanguageService_idempotent_witness :
  is_Some (serviceCache twoSessions !! "/p")
  /\ exists svc, getLanguageService "/p" twoSessions = Ok svc twoSessions
                 /\ serviceCache twoSessions !! "/p" = Some svc.
Proof.
  assert (Hsome : is_Some (serviceCache twoSessions !! "/p")) by (vm_compute; eauto).
  split; [exact Hsome|]. destruct Hsome as [cached Hc].
  destruct (getLanguageService_idempotent "/p" twoSessions) as (svc & st' & Hrun & _ & _ & Hsame).
  destruct (Hsame cached Hc) as [-> ->]. by exists cached.
Defined.

(** [/q] has no [tsconfig.json] and no declaration file. *)
Lemma getLanguageService_no_config_witness :
  serviceCache (initialState disk0) !! "/q" = None
  /\ existsSync (disk (initialState disk0)) (join "/q" "tsconfig.json") = false
  /\ exists svc st' cfg,
      getLanguageService "/q" (initialState disk0) = Ok svc st'
      /\ configCache st' !! "/q" = Some cfg
      /\ cfg_errors cfg = []
      /\ cfg_options cfg = defaultCompilerOptions
      /\ host_rootFiles (service_host svc) = findDeclarationFiles disk0 "/q".
Proof.
  assert (Hnone : serviceCache (initialState disk0) !! "/q" = None) by apply lookup_empty.
  assert (He : existsSync (disk (initialState disk0)) (join "/q" "tsconfig.json") = false)
    by (vm_compute; reflexivity).
  split; [exact Hnone|]. split; [exact He|].
  destruct (getLanguageService_no_config "/q" (initialState disk0) Hnone He)
    as (svc & st' & cfg & Hrun & Hcfg & Herr & Hopt & _ & Hroot & _).
  exists svc, st', cfg. done.
Defined.

(** The configuration of [/v] declares [src/main.ts] and [globals.d.ts];
    the scan adds [env.d.ts], and nothing from [node_modules]. *)
Lemma getLanguageService_parsed_config_witness :
  serviceCache (initialState disk1) !! "/v" = None
  /\ existsSync (disk (initialState disk1)) (join "/v" "tsconfig.json") = true
  /\ exists svc st',
      @getLanguageService posixPath MemDisk memFs declaringEngines "/v" (initialState disk1)
      = Ok svc st'
      /\ host_rootFiles (service_host svc)
         = ["/v/src/main.ts"; "/v/globals.d.ts"; "/v/env.d.ts"]
      /\ (configCache st' !! "/v" ≫= fun cfg => Some (cfg_errors cfg))
         = Some ["Unknown compiler option 'strictt'."].
Proof.
  assert (Hnone : serviceCache (initialState disk1) !! "/v" = None) by apply lookup_empty.
  assert (He : existsSync (disk (initialState disk1)) (join "/v" "tsconfig.json") = true)
    by (vm_compute; reflexivity).
  split; [exact Hnone|]. split; [exact He|].
  assert (Hgood : forall b st1,
    @getTypeScriptForProject posixPath MemDisk memFs declaringEngines "/v" (initialState disk1)
    = Ok b st1 ->
    error (readConfigFile (ts b) (disk (initialState disk1)) (join "/v" "tsconfig.json"))
    = None).
  { intros b st1 Hrun. vm_compute in Hrun. injection Hrun as <- _. reflexivity. }
  destruct (@getLanguageService_parsed_config posixPath MemDisk memFs declaringEngines
              "/v" (initialState disk1) Hnone He Hgood)
    as (svc & st' & b & parsed & extra & Hrun & _).
  exists svc, st'. split; [exact Hrun|].
  vm_compute in Hrun. injection Hrun as <- <-. split; vm_compute; reflexivity.
Defined.

Lemma addFrameworkTypes_set_witness :
  NoDup (default [] (types {| types := Some ["node"]; settings := [] |}))
  /\ types (addFrameworkTypes {| types := Some ["node"]; settings := [] |}
              ["vite/client"; "node"])
     = Some ["node"; "vite/client"]
  /\ NoDup (default [] (types (addFrameworkTypes {| types := Some ["node"]; settings := [] |}
                                 ["vite/client"; "node"])))
  /\ "vite/client" ∈ default [] (types (addFrameworkTypes
                                          {| types := Some ["node"]; settings := [] |}
                                          ["vite/client"; "node"])).
Proof.
  assert (Hnd : NoDup (default [] (types {| types := Some ["node"]; settings := [] |})))
    by apply NoDup_singleton.
  destruct (addFrameworkTypes_set {| types := Some ["node"]; settings := [] |}
              ["vite/client"; "node"]) as (_ & Hin & Hkeep & _).
  split; [exact Hnd|]. split; [reflexivity|]. split; [exact (Hkeep Hnd)|].
  apply Hin. right. apply list_elem_of_here.
Defined.

(** After a query, an overlay write, applied changes and a configuration
    request, the overlay of [/p/notes.md] and the accessed file of [/p]
    are still there. *)
Lemma performAll_grows_witness :
  overlaid overlaidNotes "/p/notes.md"
  /\ "/p/src/a.ts" ∈ accessedFiles overlaidNotes "/p"
  /\ overlaid (performAll someOperations overlaidNotes) "/p/notes.md"
  /\ "/p/src/a.ts" ∈ accessedFiles (performAll someOperations overlaidNotes) "/p"
  /\ storedVersion overlaidNotes "/p/notes.md"
     <= storedVersion (performAll someOperations overlaidNotes) "/p/notes.md".
Proof.
  assert (Ho : overlaid overlaidNotes "/p/notes.md") by (vm_compute; reflexivity).
  assert (Ha : "/p/src/a.ts" ∈ accessedFiles overlaidNotes "/p")
    by (vm_compute; apply list_elem_of_here).
  destruct (performAll_grows someOperations overlaidNotes) as (Hv & Hov & Hacc & _).
  split; [exact Ho|]. split; [exact Ha|]. split; [exact (Hov _ Ho)|].
  split; [exact (Hacc _ _ Ha)|]. apply Hv.
Defined.

(** [/v/env.d.ts] is found in the root of [/v]; the declaration file in
    [node_modules] is not found. *)
Lemma findDeclarationFiles_spec_witness :
  scanReaches disk1 6 "/v" "/v"
  /\ declarationFileIn disk1 "/v" "/v/env.d.ts"
  /\ "/v/env.d.ts" ∈ findDeclarationFiles disk1 "/v"
  /\ findDeclarationFiles disk1 "/v" = ["/v/globals.d.ts"; "/v/env.d.ts"].
Proof.
  assert (Hreach : scanReaches disk1 6 "/v" "/v") by constructor.
  assert (Hfile : declarationFileIn disk1 "/v" "/v/env.d.ts").
  { eexists _, (file "env.d.ts"). split; [reflexivity|].
    split; [|repeat split]. apply list_elem_of_further, list_elem_of_further, list_elem_of_here. }
  split; [exact Hreach|]. split; [exact Hfile|].
  split; [|vm_compute; reflexivity].
  apply (proj2 (findDeclarationFiles_spec disk1 "/v" "/v/env.d.ts")).
  exists "/v". split; [exact Hreach|exact Hfile].
Defined.


(** The created file [/q/c.ts] gets no overlay. *)
Lemma applyFileChanges_overlay_untouched_witness :
  (forall ch, ch ∈ someChanges -> fileName ch = "/q/c.ts" -> isNewFile ch = true)
  /\ JsMap.get (documentContents (stateOf (applyFileChanges someChanges twoSessions)))
       "/q/c.ts" = JsMap.get (documentContents twoSessions) "/q/c.ts"
  /\ JsMap.get (documentContents twoSessions) "/q/c.ts" = None.
Proof.
  assert (Hnew : forall ch, ch ∈ someChanges -> fileName ch = "/q/c.ts" ->
                            isNewFile ch = true).
  { intros ch Hch Hname. unfold someChanges in Hch.
    apply elem_of_cons in Hch as [->|Hch]; [reflexivity|].
    apply list_elem_of_singleton in Hch as ->. discriminate. }
  split; [exact Hnew|].
  split; [exact (proj1 (applyFileChanges_overlay_untouched someChanges "/q/c.ts"
                          twoSessions Hnew))|reflexivity].
Defined.

(** The three changes listed out of order give the text with all three
    spans replaced. *)
Lemma applyTextChanges_replaces_witness :
  [renameB; renameA; dropSpace] ≡ₚ [renameA; dropSpace; renameB]
  /\ startsAscend [renameA; dropSpace; renameB]
  /\ spansInOrder 0 (Js.strlen "let a = 1; let b = 2;") [renameA; dropSpace; renameB]
  /\ applyTextChanges "let a = 1; let b = 2;" (sortChanges [renameB; renameA; dropSpace])
     = "let first = 1;let second = 2;".
Proof.
  assert (Hperm : [renameB; renameA; dropSpace] ≡ₚ [renameA; dropSpace; renameB]).
  { change [renameB; renameA; dropSpace] with ([renameB] ++ [renameA; dropSpace]).
    change [renameA; dropSpace; renameB] with ([renameA; dropSpace] ++ [renameB]).
    apply Permutation_app_comm. }
  assert (Hasc : startsAscend [renameA; dropSpace; renameB]).
  { unfold startsAscend. repeat constructor; simpl; lia. }
  assert (Hspans : spansInOrder 0 (Js.strlen "let a = 1; let b = 2;")
                     [renameA; dropSpace; renameB]).
  { unfold Js.strlen. simpl. lia. }
  split; [exact Hperm|]. split; [exact Hasc|]. split; [exact Hspans|].
  rewrite (applyTextChanges_replaces _ _ _ Hperm Hasc Hspans). reflexivity.
Defined.

(** A switch to the file [/q/b.ts] leaves both sessions cached. *)
Lemma switch_workspace_invalid_path_witness :
  statSync_isDirectory (disk twoSessions) (resolve "/q/b.ts") = Some false
  /\ snd (switch_workspace "/q/b.ts" twoSessions) = twoSessions
  /\ fst (switch_workspace "/q/b.ts" twoSessions)
     = SwitchInvalidPath "'/q/b.ts' is not a directory.".
Proof.
  assert (Hs : statSync_isDirectory (disk twoSessions) (resolve "/q/b.ts") = Some false)
    by (vm_compute; reflexivity).
  assert (Hbad : existsSync (disk twoSessions) (resolve "/q/b.ts") = false
                 \/ statSync_isDirectory (disk twoSessions) (resolve "/q/b.ts") <> Some true).
  { right. rewrite Hs. discriminate. }
  destruct (switch_workspace_invalid_path "/q/b.ts" twoSessions Hbad) as (Hst & _ & Hreply).
  split; [exact Hs|]. split; [exact Hst|]. exact (Hreply (or_intror Hs)).
Defined.

(** Three parameters, one of them with a comma inside of its brackets. *)
Lemma splitParameters_join_witness :
  isPart "a: number"
  /\ Forall isPart ["m: Map<string, number>"; "s?: Set<T>"]
  /\ splitParameters "a: number, m: Map<string, number>, s?: Set<T>"
     = ["a: number"; "m: Map<string, number>"; "s?: Set<T>"].
Proof.
  assert (Hp : isPart "a: number")
    by (split; [reflexivity|split; [discriminate|reflexivity]]).
  assert (Hps : Forall isPart ["m: Map<string, number>"; "s?: Set<T>"])
    by (repeat constructor; discriminate).
  split; [exact Hp|]. split; [exact Hps|].
  exact (splitParameters_join _ _ Hp Hps).
Defined.

(** What the parameter text keeps of a callback parameter: the comma
    stands behind the open parenthesis. *)
Lemma splitParameters_no_top_comma_witness :
  scanDepth "cb: (x: number, y: string" 0 = Some 1
  /\ JsText.trim "cb: (x: number, y: string" <> EmptyString
  /\ splitParameters "cb: (x: number, y: string" = ["cb: (x: number, y: string"].
Proof.
  assert (Hscan : scanDepth "cb: (x: number, y: string" 0 = Some 1) by reflexivity.
  assert (Hne : JsText.trim "cb: (x: number, y: string" <> EmptyString) by discriminate.
  split; [exact Hscan|]. split; [exact Hne|].
  exact (splitParameters_no_top_comma _ _ Hscan Hne).
Defined.

(** The parameter [x] of type [number], required and optional. *)
Lemma parseParameter_forms_witness :
  JsText.includes "x" ":" = false
  /\ parseParameter "x: number"
     = {| param_name := "x"; param_type := "number"; param_optional := false |}
  /\ parseParameter "x?: number"
     = {| param_name := "x"; param_type := "number"; param_optional := true |}.
Proof.
  assert (Hn : JsText.includes "x" ":" = false) by reflexivity.
  assert (Ht : JsText.trim "number" <> EmptyString) by discriminate.
  destruct (parseParameter_forms "x" "number" Hn) as (Hplain & Hopt & _).
  split; [exact Hn|]. split.
  - exact (Hplain Ht eq_refl).
  - exact (Hopt Ht eq_refl).
Defined.

(** The display string of a function of two parameters. *)
Lemma signatureParameters_join_witness :
  JsText.includes "function f" "(" = false
  /\ Forall isPart ["a: number"; "m?: Map<string, number>"]
  /\ Forall (fun q => JsText.includes q ")" = false)
       ["a: number"; "m?: Map<string, number>"]
  /\ signatureParameters "function f(a: number, m?: Map<string, number>): void"
     = [ {| param_name := "a"; param_type := "number"; param_optional := false |};
         {| param_name := "m"; param_type := "Map<string, number>";
            param_optional := true |} ].
Proof.
  assert (Hpre : JsText.includes "function f" "(" = false) by reflexivity.
  assert (Hparts : Forall isPart ["a: number"; "m?: Map<string, number>"])
    by (repeat constructor; discriminate).
  assert (Hclose : Forall (fun q => JsText.includes q ")" = false)
                     ["a: number"; "m?: Map<string, number>"])
    by (repeat constructor).
  split; [exact Hpre|]. split; [exact Hparts|]. split; [exact Hclose|].
  exact (signatureParameters_join "function f" ": void" _ _ Hpre Hparts Hclose).
Defined.
